(** * oas2json: extraction of JSON Schema files from an OpenAPI document

    A shallow embedding of [src/commands/oas2json.ts] and the properties its
    specification states about it.

    JavaScript strings are modelled by [string]: the code only ever compares
    characters with ASCII ones, so a string of bytes behaves like the string
    of UTF-16 code units it stands for.  JavaScript values are trees (the
    converter hands back a fresh tree, nothing is shared between entries);
    an object is the list of its own properties in the order JavaScript
    enumerates them (integer keys first, then the others as they were
    added). *)

From Stdlib Require Import Ascii String ZArith List Bool Lia.
From stdpp Require Import base option list strings gmap pretty.

Set Warnings "-register-all".
Local Open Scope string_scope.

(* ====================================================================== *)
(** * Strings *)
(* ====================================================================== *)

Module Str.

(** [s.slice(n)] for [0 <= n]. *)
Fixpoint drop (n : nat) (s : string) : string :=
  match n, s with
  | O, _ => s
  | S _, EmptyString => EmptyString
  | S k, String _ t => drop k t
  end.

(** [s.startsWith(p)]. *)
Fixpoint starts_with (p s : string) : bool :=
  match p, s with
  | EmptyString, _ => true
  | String a p', String b s' => if ascii_dec a b then starts_with p' s' else false
  | String _ _, EmptyString => false
  end.

(** [s.includes(p)]. *)
Fixpoint includes (p s : string) : bool :=
  starts_with p s ||
  match s with
  | EmptyString => false
  | String _ s' => includes p s'
  end.

(** Membership of a character. *)
Fixpoint mem (c : ascii) (s : string) : bool :=
  match s with
  | EmptyString => false
  | String a t => if ascii_dec c a then true else mem c t
  end.

(** [s.replace(/[^...]/g, '')] for a character class given as a
    predicate: the characters outside the class are removed. *)
Fixpoint keep (f : ascii -> bool) (s : string) : string :=
  match s with
  | EmptyString => EmptyString
  | String a t => if f a then String a (keep f t) else keep f t
  end.

(** [s.replaceAll(a, b)] for single characters. *)
Fixpoint map_char (f : ascii -> ascii) (s : string) : string :=
  match s with
  | EmptyString => EmptyString
  | String a t => String (f a) (map_char f t)
  end.

(** The longest prefix of characters satisfying [f], and the rest. *)
Fixpoint span (f : ascii -> bool) (s : string) : string * string :=
  match s with
  | EmptyString => (EmptyString, EmptyString)
  | String a t =>
      if f a then let '(r, rest) := span f t in (String a r, rest)
      else (EmptyString, s)
  end.

(** [s.split(c)]: never empty, the pieces hold no [c]. *)
Fixpoint split (c : ascii) (s : string) : list string :=
  match s with
  | EmptyString => [EmptyString]
  | String a t =>
      if ascii_dec a c then EmptyString :: split c t
      else match split c t with
           | [] => [String a EmptyString]
           | x :: xs => String a x :: xs
           end
  end.

(** [l.join(sep)]. *)
Fixpoint join (sep : string) (l : list string) : string :=
  match l with
  | [] => EmptyString
  | [x] => x
  | x :: xs => x ++ sep ++ join sep xs
  end.

End Str.

(* ====================================================================== *)
(** * JavaScript values and the outcome of running code *)
(* ====================================================================== *)

(** The values a parsed YAML or JSON document is made of, and [undefined].
    Numbers are the integers that are printed with all their digits, those
    below [10^21] in size (the code looks at a number only for its
    truthiness and when it prints it).  An array carries, besides its
    elements, the named properties assigned to it. *)
Inductive value : Type :=
| VUndefined
| VNull
| VBool (b : bool)
| VNum (n : Z)
| VStr (s : string)
| VArr (elems : list value) (named : list (string * value))
| VObj (props : list (string * value)).

(** What a thrown exception is; [catch] in the source looks at none of it. *)
Inductive exn : Type :=
| TypeError
| FsError
| ExternalError.

(** How a call ends: it returns, it throws, or the process exits. *)
Inductive result (A : Type) : Type :=
| Ok (a : A)
| Throw (e : exn)
| Exit (code : Z).
Arguments Ok {A} a.
Arguments Throw {A} e.
Arguments Exit {A} code.

Definition bind {A B} (m : result A) (k : A -> result B) : result B :=
  match m with
  | Ok a => k a
  | Throw e => Throw e
  | Exit c => Exit c
  end.

Declare Scope js_scope.
Delimit Scope js_scope with js.
Notation "'let*' x := m 'in' k" := (bind m (fun x => k))
  (at level 10, x pattern, m at level 100, k at level 200) : js_scope.
Local Open Scope js_scope.

Module Obj.

(** The index a property key stands for, when it is the canonical
    decimal form of an integer below [2^32 - 1]. *)
Definition digit (c : ascii) : option N :=
  let n := N_of_ascii c in
  if ((48 <=? n) && (n <=? 57))%N then Some (n - 48)%N else None.

Fixpoint parse_digits (acc : N) (s : string) : option N :=
  match s with
  | EmptyString => Some acc
  | String c t =>
      match digit c with
      | Some d => parse_digits (acc * 10 + d) t
      | None => None
      end
  end.

Definition array_index (k : string) : option N :=
  match k with
  | EmptyString => None
  | _ =>
      match parse_digits 0 k with
      | Some n =>
          if (n <? 4294967295)%N && bool_decide (pretty n = k) then Some n else None
      | None => None
      end
  end.

(** [o[k]] on the own properties: [undefined] when [k] is absent. *)
Fixpoint get (k : string) (ps : list (string * value)) : value :=
  match ps with
  | [] => VUndefined
  | (k', v) :: t => if string_dec k k' then v else get k t
  end.

Fixpoint has (k : string) (ps : list (string * value)) : bool :=
  match ps with
  | [] => false
  | (k', _) :: t => if string_dec k k' then true else has k t
  end.

(** Where a new key goes: integer keys come first, in ascending order,
    the other keys follow in the order they were added. *)
Fixpoint add (k : string) (v : value) (ps : list (string * value))
  : list (string * value) :=
  match ps with
  | [] => [(k, v)]
  | (k', v') :: t =>
      match array_index k, array_index k' with
      | Some n, Some n' =>
          if (n <? n')%N then (k, v) :: ps else (k', v') :: add k v t
      | Some _, None => (k, v) :: ps
      | None, _ => (k', v') :: add k v t
      end
  end.

Fixpoint replace (k : string) (v : value) (ps : list (string * value))
  : list (string * value) :=
  match ps with
  | [] => []
  | (k', v') :: t =>
      if string_dec k k' then (k', v) :: t else (k', v') :: replace k v t
  end.

(** [o[k] = v]: an existing key keeps its place. *)
Definition set (k : string) (v : value) (ps : list (string * value))
  : list (string * value) :=
  if has k ps then replace k v ps else add k v ps.

(** [delete o[k]]. *)
Fixpoint del (k : string) (ps : list (string * value))
  : list (string * value) :=
  match ps with
  | [] => []
  | (k', v') :: t =>
      if string_dec k k' then del k t else (k', v') :: del k t
  end.

End Obj.

(** The elements of an array as [Object.entries] lists them. *)
Fixpoint indexed (i : N) (es : list value) : list (string * value) :=
  match es with
  | [] => []
  | e :: t => (pretty i, e) :: indexed (N.succ i) t
  end.

Fixpoint chars (i : N) (s : string) : list (string * value) :=
  match s with
  | EmptyString => []
  | String c t => (pretty i, VStr (String c EmptyString)) :: chars (N.succ i) t
  end.

(** [v[k]] for a key [k] that no prototype defines (the keys the code
    reads are [name], [format], [parameters], [in], [required], [schema]).
    The named properties of an array hold no index. *)
Definition getProp (v : value) (k : string) : result value :=
  match v with
  | VUndefined | VNull => Throw TypeError
  | VBool _ | VNum _ => Ok VUndefined
  | VStr s =>
      if string_dec k "length" then Ok (VNum (Z.of_nat (String.length s)))
      else
        match Obj.array_index k with
        | Some n =>
            match String.get (N.to_nat n) s with
            | Some c => Ok (VStr (String c EmptyString))
            | None => Ok VUndefined
            end
        | None => Ok VUndefined
        end
  | VArr es named =>
      if string_dec k "length" then Ok (VNum (Z.of_nat (List.length es)))
      else
        match Obj.array_index k with
        | Some n => Ok (nth (N.to_nat n) es VUndefined)
        | None => Ok (Obj.get k named)
        end
  | VObj ps => Ok (Obj.get k ps)
  end.

(** [k in v], for such a key. *)
Definition hasProp (k : string) (v : value) : result bool :=
  match v with
  | VArr es named =>
      if string_dec k "length" then Ok true
      else
        match Obj.array_index k with
        | Some n => Ok (Nat.ltb (N.to_nat n) (List.length es))
        | None => Ok (Obj.has k named)
        end
  | VObj ps => Ok (Obj.has k ps)
  | _ => Throw TypeError
  end.

(** [Object.entries(v)]. *)
Definition entries (v : value) : result (list (string * value)) :=
  match v with
  | VUndefined | VNull => Throw TypeError
  | VBool _ | VNum _ => Ok []
  | VStr s => Ok (chars 0 s)
  | VArr es named => Ok (indexed 0 es ++ named)%list
  | VObj ps => Ok ps
  end.

(** [ToBoolean]. *)
Definition truthy (v : value) : bool :=
  match v with
  | VUndefined | VNull => false
  | VBool b => b
  | VNum n => negb (n =? 0)%Z
  | VStr s => negb (bool_decide (s = ""))
  | VArr _ _ | VObj _ => true
  end.

(* ====================================================================== *)
(** * [JSON.stringify(v, null, 2)] *)
(* ====================================================================== *)

Module Json.

Definition dquote : ascii := "034"%char.
Definition backslash : ascii := "092"%char.
Definition nl : string := String "010"%char EmptyString.

Definition hex_digit (n : N) : ascii :=
  ascii_of_N (if (n <? 10)%N then 48 + n else 87 + n).

(** One character of a quoted string. *)
Definition escape (c : ascii) : string :=
  let n := N_of_ascii c in
  if ascii_dec c dquote then String backslash (String dquote EmptyString)
  else if ascii_dec c backslash then String backslash (String backslash EmptyString)
  else if (n =? 8)%N then String backslash "b"
  else if (n =? 9)%N then String backslash "t"
  else if (n =? 10)%N then String backslash "n"
  else if (n =? 12)%N then String backslash "f"
  else if (n =? 13)%N then String backslash "r"
  else if (n <? 32)%N then
    String backslash
      ("u00" ++ String (hex_digit (n / 16)) (String (hex_digit (n mod 16)) EmptyString))
  else String c EmptyString.

Fixpoint escape_all (s : string) : string :=
  match s with
  | EmptyString => EmptyString
  | String c t => escape c ++ escape_all t
  end.

(** [QuoteJSONString]. *)
Definition quote (s : string) : string :=
  String dquote (escape_all s ++ String dquote EmptyString).

Definition gap : string := "  ".

(** [SerializeJSONProperty] with the indentation reached so far: [None]
    is [undefined], the value of a property that is left out. *)
Fixpoint serialize (indent : string) (v : value) {struct v} : option string :=
  match v with
  | VUndefined => None
  | VNull => Some "null"
  | VBool true => Some "true"
  | VBool false => Some "false"
  | VNum n => Some (pretty n)
  | VStr s => Some (quote s)
  | VArr es _ =>
      let inner := indent ++ gap in
      let partial :=
        (fix items (l : list value) : list string :=
           match l with
           | [] => []
           | e :: t => default "null" (serialize inner e) :: items t
           end) es in
      Some match partial with
           | [] => "[]"
           | _ => "[" ++ nl ++ inner ++ Str.join ("," ++ nl ++ inner) partial
                  ++ nl ++ indent ++ "]"
           end
  | VObj ps =>
      let inner := indent ++ gap in
      let partial :=
        (fix members (l : list (string * value)) : list string :=
           match l with
           | [] => []
           | (k, e) :: t =>
               match serialize inner e with
               | Some str => (quote k ++ ": " ++ str) :: members t
               | None => members t
               end
           end) ps in
      Some match partial with
           | [] => "{}"
           | _ => "{" ++ nl ++ inner ++ Str.join ("," ++ nl ++ inner) partial
                  ++ nl ++ indent ++ "}"
           end
  end.

Definition stringify (v : value) : option string := serialize "" v.

End Json.

(* ====================================================================== *)
(** * Property assignment under strict mode (the file is an ES module) *)
(* ====================================================================== *)

(** [delete v[k]] for a key that is not an own property of a primitive. *)
Definition deleteProp (v : value) (k : string) : result value :=
  match v with
  | VUndefined | VNull => Throw TypeError
  | VObj ps => Ok (VObj (Obj.del k ps))
  | VArr es named => Ok (VArr es (Obj.del k named))
  | _ => Ok v
  end.

(** [v[k] = x] for a key that is neither an index nor [length]:
    assigning to a primitive throws. *)
Definition setProp (v : value) (k : string) (x : value) : result value :=
  match v with
  | VObj ps => Ok (VObj (Obj.set k x ps))
  | VArr es named => Ok (VArr es (Obj.set k x named))
  | _ => Throw TypeError
  end.

(* ====================================================================== *)
(** * [adaptSchema] and [buildSchemaFromParameters] *)
(* ====================================================================== *)

Definition alnum (c : ascii) : bool :=
  let n := N_of_ascii c in
  ((97 <=? n) && (n <=? 122) || (65 <=? n) && (n <=? 90)
   || (48 <=? n) && (n <=? 57))%N.

(** The class that [INVALID_URI_CHARS_REGEXP] negates. *)
Definition valid_uri_char (c : ascii) : bool :=
  alnum c || Str.mem c "-._~:/?#[]@!$&'()*+,;=".

(** [s.replace(INVALID_URI_CHARS_REGEXP, '')]. *)
Definition strip_invalid_uri_chars (s : string) : string :=
  Str.keep valid_uri_char s.

(** [format?.includes('date')]: a substring test on a string, a membership
    test on an array, nothing on [undefined] and [null]; any other value
    has no [includes] to call. *)
Definition format_includes_date (format : value) : result bool :=
  match format with
  | VUndefined | VNull => Ok false
  | VStr s => Ok (Str.includes "date" s)
  | VArr es named =>
      if Obj.has "includes" named then Throw TypeError
      else Ok (existsb (fun e => match e with
                                 | VStr s => bool_decide (s = "date")
                                 | _ => false
                                 end) es)
  | _ => Throw TypeError
  end.

(** [adaptSchema(generatedSchema, name, filename)]; the schema it returns
    is the argument after the mutation. *)
Definition adaptSchema (generatedSchema name : value) (filename : string)
  : result value :=
  let sanitizedFilename := strip_invalid_uri_chars filename in
  let* s1 := deleteProp generatedSchema "$schema" in
  let* s2 := setProp s1 "title" name in
  let* s3 := setProp s2 "$id" (VStr (sanitizedFilename ++ ".json")) in
  let* format := getProp s3 "format" in
  let* isDate := format_includes_date format in
  if isDate then setProp s3 "tsType" (VStr "Date") else Ok s3.

(** [ToPropertyKey(v)], the string a value stands for as a key.  The
    elements of an array are joined with commas, [null] and [undefined]
    among them as the empty string; an own [toString] that is no function
    leaves no way to a primitive. *)
Fixpoint toPropertyKey (v : value) {struct v} : result string :=
  match v with
  | VUndefined => Ok "undefined"
  | VNull => Ok "null"
  | VBool true => Ok "true"
  | VBool false => Ok "false"
  | VNum n => Ok (pretty n)
  | VStr s => Ok s
  | VArr es named =>
      if Obj.has "toString" named then Throw TypeError
      else if Obj.has "join" named then Ok "[object Array]"
      else
        let* parts :=
          (fix each (l : list value) : result (list string) :=
             match l with
             | [] => Ok []
             | e :: t =>
                 let* x := match e with
                           | VUndefined | VNull => Ok ""
                           | _ => toPropertyKey e
                           end in
                 let* xs := each t in
                 Ok (x :: xs)
             end) es in
        Ok (Str.join "," parts)
  | VObj ps =>
      if Obj.has "toString" ps then Throw TypeError else Ok "[object Object]"
  end.

(** The loop body of [buildSchemaFromParameters], on the two objects the
    closure shares with the schema: [properties] and [requiredList].  An
    assignment to [__proto__] sets the prototype of [properties] and
    makes no property. *)
Definition addParameter (acc : list (string * value) * list value) (parameter : value)
  : result (list (string * value) * list value) :=
  let '(properties, requiredList) := acc in
  let* name := getProp parameter "name" in
  let* required := getProp parameter "required" in
  let* schema := getProp parameter "schema" in
  if negb (truthy name) then Ok acc
  else
    let* key := toPropertyKey name in
    let properties' :=
      if string_dec key "__proto__" then properties
      else Obj.set key (VObj [("schema", schema)]) properties in
    Ok (properties',
        if truthy required then (requiredList ++ [name])%list else requiredList).

Fixpoint forEachParameter (acc : list (string * value) * list value)
  (parameters : list value) : result (list (string * value) * list value) :=
  match parameters with
  | [] => Ok acc
  | p :: t => let* acc' := addParameter acc p in forEachParameter acc' t
  end.

Definition buildSchemaFromParameters (parameters : list value) : result value :=
  let* (properties, requiredList) := forEachParameter ([], []) parameters in
  Ok (VObj [("type", VStr "object");
            ("properties", VObj properties);
            ("required", VArr requiredList []);
            ("additionalProperties", VBool false)]).

(* ====================================================================== *)
(** * Library functions: lodash and [path] *)
(* ====================================================================== *)

(** [_trimStart(s, '-')]: the leading characters among [chars] go. *)
Fixpoint _trimStart (s chars : string) : string :=
  match s with
  | EmptyString => EmptyString
  | String c t => if Str.mem c chars then _trimStart t chars else s
  end.

Module Path.

Definition slash : ascii := "/"%char.

(** [normalizeString]: the segments that remain, last one first in
    [acc]; [..] removes the segment before it, and stays when there is
    none and the path is relative. *)
Fixpoint normalizeString (allowAboveRoot : bool) (acc : list string)
  (segs : list string) : list string :=
  match segs with
  | [] => rev acc
  | seg :: t =>
      if string_dec seg "" then normalizeString allowAboveRoot acc t
      else if string_dec seg "." then normalizeString allowAboveRoot acc t
      else if string_dec seg ".." then
        match acc with
        | [] => normalizeString allowAboveRoot
                  (if allowAboveRoot then [".."] else []) t
        | prev :: acc' =>
            if string_dec prev ".." then
              normalizeString allowAboveRoot
                (if allowAboveRoot then seg :: acc else acc) t
            else normalizeString allowAboveRoot acc' t
        end
      else normalizeString allowAboveRoot (seg :: acc) t
  end.

Definition isAbsolute (p : string) : bool := Str.starts_with "/" p.

Fixpoint ends_with_slash (p : string) : bool :=
  match p with
  | EmptyString => false
  | String c EmptyString => bool_decide (c = slash)
  | String _ t => ends_with_slash t
  end.

(** [path.normalize(p)] (POSIX). *)
Definition normalize (p : string) : string :=
  if string_dec p "" then "."
  else
    let body := Str.join "/" (normalizeString (negb (isAbsolute p)) [] (Str.split slash p)) in
    let body :=
      if string_dec body "" then
        if isAbsolute p then "" else if ends_with_slash p then "./" else "."
      else if ends_with_slash p then body ++ "/" else body in
    if isAbsolute p then "/" ++ body else body.

(** [path.join(a, b)] (POSIX): empty arguments are left out. *)
Definition join (a b : string) : string :=
  if string_dec a "" then
    if string_dec b "" then "." else normalize b
  else if string_dec b "" then normalize a
  else normalize (a ++ "/" ++ b).

(** The file a path names for a process whose working directory is
    [cwd]: the segments from the root (no symbolic links). *)
Definition locate (cwd : list string) (p : string) : list string :=
  normalizeString false (if isAbsolute p then [] else rev cwd) (Str.split slash p).

(** The last segment of a path as it is written, the slashes at its end
    set aside: what [rmdir] looks at.  It is empty for the root. *)
Definition last_segment (p : string) : string :=
  List.last (List.filter (fun seg => negb (bool_decide (seg = ""))) (Str.split slash p)) "".

End Path.

(* ====================================================================== *)
(** * The collaborators outside this file *)
(* ====================================================================== *)

(** What the code calls and this repository file does not define.  A
    function that can throw returns a [result]. *)
Class Collaborators : Type := {
  (** [filenamify(name, { replacement: '-' })] of the filenamify package. *)
  filenamify : value -> result string;
  (** [formatFileName] of [utils/paths]. *)
  formatFileName : string -> result string;
  (** [fromSchema(document, { definitionKeywords })] of the converter. *)
  fromSchema : value -> list string -> result value;
  (** [YAML.parse]. *)
  YAML_parse : string -> result value;
  (** [_get] and the write through the reference it returns, for a path
      written with brackets. *)
  bracket_get : value -> string -> value;
  bracket_put : value -> string -> value -> value;
  (** [_get] from a value along keys the first of which the value does not
      own and a prototype holds ([constructor], [toString], ...): what
      lodash finds there.  A function and a prototype object have no
      entries and stand here as the empty object, [Array.prototype] as the
      empty array. *)
  prototype_get : value -> list string -> value;
  (** [process.cwd()]. *)
  cwd : list string
}.

(* ====================================================================== *)
(** * The file system and the logger *)
(* ====================================================================== *)

Inductive node : Type :=
| File (content : string)
| Dir.

Inductive level : Type := LInfo | LWarn | LError.

(** The error codes with which [rm] gives up. *)
Inductive refusal : Type := ENOTDIR | EINVAL | ENOTEMPTY | EBUSY.

(** What a run can change: the files, by their segments from the root
    (the root itself is a directory and has no entry), and the lines the
    logger was given, oldest first. *)
Record world : Type := World {
  files : gmap (list string) node;
  logged : list (level * string)
}.

(** A computation with effects: the world it leaves is the one at its
    return, at its throw or at the exit. *)
Definition io (A : Type) : Type := world -> result A * world.

Definition ret {A} (a : A) : io A := fun w => (Ok a, w).

Definition lift {A} (r : result A) : io A := fun w => (r, w).

Definition iobind {A B} (m : io A) (k : A -> io B) : io B :=
  fun w =>
    match m w with
    | (Ok a, w') => k a w'
    | (Throw e, w') => (Throw e, w')
    | (Exit c, w') => (Exit c, w')
    end.

Notation "'do*' x := m 'in' k" := (iobind m (fun x => k))
  (at level 10, x pattern, m at level 100, k at level 200) : js_scope.

(** [try { body } catch (e) { handler }]: an exit is no exception. *)
Definition try_catch {A} (body : io A) (handler : io A) : io A :=
  fun w =>
    match body w with
    | (Throw _, w') => handler w'
    | r => r
    end.

Definition log (l : level) (msg : string) : io unit :=
  fun w => (Ok tt, World (files w) (logged w ++ [(l, msg)])%list).

(** [exit(code)] of [process]. *)
Definition exit {A} (code : Z) : io A := fun w => (Exit code, w).

Module Fs.

Definition is_dir (fs : gmap (list string) node) (p : list string) : bool :=
  match p with
  | [] => true
  | _ => match fs !! p with Some Dir => true | _ => false end
  end.

(** The directories from the root down to [p], the root left out. *)
Fixpoint ancestors (pre p : list string) : list (list string) :=
  match p with
  | [] => []
  | seg :: t => (pre ++ [seg])%list :: ancestors (pre ++ [seg])%list t
  end.

Definition is_file (fs : gmap (list string) node) (p : list string) : bool :=
  match fs !! p with Some (File _) => true | _ => false end.

(** What is left when [p] and everything below it are removed. *)
Definition remove (p : list string) (fs : gmap (list string) node)
  : gmap (list string) node :=
  filter (fun kv => negb (bool_decide (p `prefix_of` kv.1)) = true) fs.

(** What is left when the entries below [p] are removed and [p] itself
    stays. *)
Definition remove_below (p : list string) (fs : gmap (list string) node)
  : gmap (list string) node :=
  filter (fun kv => negb (bool_decide (p `prefix_of` kv.1 /\ kv.1 <> p)) = true) fs.

(** [fs.ensureDirSync(p)]: every missing directory on the way is made;
    a file on the way is an error. *)
Definition ensureDir (p : list string) (fs : gmap (list string) node)
  : result (gmap (list string) node) :=
  if existsb (is_file fs) (ancestors [] p) then Throw FsError
  else Ok (foldr (fun d m => <[d := Dir]> m) fs (ancestors [] p)).

(** [fs.writeFileSync(p, content)]: the directory must be there, and [p]
    itself must not be one. *)
Definition writeFile (p : list string) (content : string)
  (fs : gmap (list string) node) : result (gmap (list string) node) :=
  match p with
  | [] => Throw FsError
  | _ =>
      if negb (is_dir fs (removelast p)) then Throw FsError
      else if is_dir fs p then Throw FsError
      else Ok (<[p := File content]> fs)
  end.

(** [fs.readFileSync(p, 'utf8')]. *)
Definition readFile (p : list string) (fs : gmap (list string) node)
  : result string :=
  match fs !! p with
  | Some (File c) => Ok c
  | _ => Throw FsError
  end.

End Fs.

(* ====================================================================== *)
(** * [COMPONENT_REF_REGEXP] and the rewriting of references *)
(* ====================================================================== *)

Definition KINDS : list string :=
  ["callbacks"; "examples"; "headers"; "links"; "parameters";
   "requestBodies"; "responses"; "schemas"; "securitySchemes"].

Definition not_quote (c : ascii) : bool := negb (bool_decide (c = Json.dquote)).

(** The alternation and what follows it, tried at the start of [s]: the
    first kind that [s] starts with, followed by a slash and by at least
    one character that is no double quote.  The result is the kind, the
    longest run of such characters and the rest of [s]. *)
Fixpoint alternatives (kinds : list string) (s : string)
  : option (string * string * string) :=
  match kinds with
  | [] => None
  | k :: t =>
      if Str.starts_with (k ++ "/") s then
        let '(body, rest) := Str.span not_quote (Str.drop (String.length k + 1) s) in
        if string_dec body "" then alternatives t s else Some (k, body, rest)
      else alternatives t s
  end.

(** [COMPONENT_REF_REGEXP] tried at the start of [s]: the text matched
    and the rest of [s]. *)
Definition matchAt (s : string) : option (string * string) :=
  if Str.starts_with "#/components/" s then
    match alternatives KINDS (Str.drop 13 s) with
    | Some (k, body, rest) => Some ("#/components/" ++ k ++ "/" ++ body, rest)
    | None => None
    end
  else None.

(** [s.match(COMPONENT_REF_REGEXP)] with the [g] flag: the matches from
    left to right, the search resuming where a match ends; [skip] is the
    number of characters left of the match being stepped over. *)
Fixpoint matchAll_from (skip : nat) (s : string) : list string :=
  match s with
  | EmptyString => []
  | String _ t =>
      match skip with
      | S k => matchAll_from k t
      | O =>
          match matchAt s with
          | Some (m, _) => m :: matchAll_from (String.length m - 1) t
          | None => matchAll_from 0 t
          end
      end
  end.

Definition matchAll (s : string) : list string := matchAll_from 0 s.

(** [GetSubstitution] for a search by string (no captures): [$$], [$&],
    [$`] and [$'] are patterns, any other [$] stands for itself. *)
Fixpoint getSubstitution (matched before after template : string) : string :=
  match template with
  | EmptyString => EmptyString
  | String a t =>
      if ascii_dec a "$"%char then
        match t with
        | String b t' =>
            if ascii_dec b "$"%char then
              String "$"%char (getSubstitution matched before after t')
            else if ascii_dec b "&"%char then
              matched ++ getSubstitution matched before after t'
            else if ascii_dec b "`"%char then
              before ++ getSubstitution matched before after t'
            else if ascii_dec b "'"%char then
              after ++ getSubstitution matched before after t'
            else String a (getSubstitution matched before after t)
        | EmptyString => String a EmptyString
        end
      else String a (getSubstitution matched before after t)
  end.

(** [s.replace(search, template)] for a string [search]: the first
    occurrence, if there is one; [before] is what was stepped over. *)
Fixpoint replace_from (before s search template : string) : option string :=
  if Str.starts_with search s then
    let after := Str.drop (String.length search) s in
    Some (before ++ getSubstitution search before after template ++ after)
  else
    match s with
    | EmptyString => None
    | String c t => replace_from (before ++ String c EmptyString) t search template
    end.

Definition replace (s search template : string) : string :=
  default s (replace_from "" s search template).

(** [ref.split('/').slice(-1)] as the template literal prints it. *)
Definition refName (ref : string) : string :=
  List.last (Str.split Path.slash ref) "".

(** The lines of [processSchema] between [JSON.stringify] and
    [saveSchema]. *)
Definition rewriteRefs (schemaAsString : string) : string :=
  fold_left (fun acc ref => replace acc ref (refName ref ++ ".json"))
    (matchAll schemaAsString) schemaAsString.

(** The string keys of the prototypes of ECMAScript 2023. *)
Definition OBJECT_PROTOTYPE : list string :=
  ["constructor"; "__defineGetter__"; "__defineSetter__"; "hasOwnProperty";
   "__lookupGetter__"; "__lookupSetter__"; "isPrototypeOf"; "propertyIsEnumerable";
   "toString"; "valueOf"; "__proto__"; "toLocaleString"].

Definition ARRAY_PROTOTYPE : list string :=
  ["length"; "constructor"; "at"; "concat"; "copyWithin"; "fill"; "find";
   "findIndex"; "findLast"; "findLastIndex"; "lastIndexOf"; "pop"; "push";
   "reverse"; "shift"; "unshift"; "slice"; "sort"; "splice"; "includes";
   "indexOf"; "join"; "keys"; "entries"; "values"; "forEach"; "filter"; "flat";
   "flatMap"; "map"; "every"; "some"; "reduce"; "reduceRight"; "toLocaleString";
   "toString"; "toReversed"; "toSorted"; "toSpliced"; "with"].

Definition STRING_PROTOTYPE : list string :=
  ["length"; "constructor"; "anchor"; "at"; "big"; "blink"; "bold"; "charAt";
   "charCodeAt"; "codePointAt"; "concat"; "endsWith"; "fontcolor"; "fontsize";
   "fixed"; "includes"; "indexOf"; "isWellFormed"; "italics"; "lastIndexOf";
   "link"; "localeCompare"; "match"; "matchAll"; "normalize"; "padEnd";
   "padStart"; "repeat"; "replace"; "replaceAll"; "search"; "slice"; "small";
   "split"; "strike"; "sub"; "substr"; "substring"; "sup"; "startsWith";
   "toString"; "toWellFormed"; "trim"; "trimStart"; "trimLeft"; "trimEnd";
   "trimRight"; "toLocaleLowerCase"; "toLocaleUpperCase"; "toLowerCase";
   "toUpperCase"; "valueOf"].

Definition NUMBER_PROTOTYPE : list string :=
  ["constructor"; "toExponential"; "toFixed"; "toPrecision"; "toString";
   "valueOf"; "toLocaleString"].

Definition BOOLEAN_PROTOTYPE : list string := ["constructor"; "toString"; "valueOf"].

Definition str_in (k : string) (l : list string) : bool :=
  existsb (fun x => bool_decide (k = x)) l.

(** The prototype chain of [v] holds the key [k]. *)
Definition inherits (v : value) (k : string) : bool :=
  match v with
  | VUndefined | VNull => false
  | VBool _ => str_in k BOOLEAN_PROTOTYPE || str_in k OBJECT_PROTOTYPE
  | VNum _ => str_in k NUMBER_PROTOTYPE || str_in k OBJECT_PROTOTYPE
  | VStr _ => str_in k STRING_PROTOTYPE || str_in k OBJECT_PROTOTYPE
  | VArr _ _ => str_in k ARRAY_PROTOTYPE || str_in k OBJECT_PROTOTYPE
  | VObj _ => str_in k OBJECT_PROTOTYPE
  end.

(** [Object.hasOwn(v, k)]. *)
Definition ownProp (v : value) (k : string) : bool :=
  match v with
  | VStr s =>
      bool_decide (k = "length")
      || match Obj.array_index k with
         | Some n => Nat.ltb (N.to_nat n) (String.length s)
         | None => false
         end
  | VArr _ _ | VObj _ =>
      match hasProp k v with
      | Ok b => b
      | _ => false
      end
  | _ => false
  end.

Section WithCollaborators.
Context `{Collaborators}.

(** [getFilename(name)]. *)
Definition getFilename (name : value) : result string :=
  let* safe := filenamify name in
  formatFileName (_trimStart safe "-").

(** [baseGet] of lodash: the walk stops at [null] and [undefined]; a key
    that the value does not own and its prototype chain holds leads out of
    the document. *)
Fixpoint baseGet (object : value) (path : list string) : value :=
  match path with
  | [] => object
  | k :: t =>
      if inherits object k && negb (ownProp object k) then prototype_get object path
      else
        match getProp object k with
        | Ok v => baseGet v t
        | _ => VUndefined
        end
  end.

Definition has_bracket (path : string) : bool :=
  Str.mem "["%char path || Str.mem "]"%char path.

(** [castPath]: a path with no dot, or one that is a key of the object
    as it stands, is a single key; the others are cut at their dots. *)
Definition castPath (object : value) (path : string) : list string :=
  if negb (Str.mem "."%char path) then [path]
  else
    match hasProp path object with
    | Ok true => [path]
    | _ => Str.split "."%char path
    end.

(** [_get(object, path)]. *)
Definition _get (object : value) (path : string) : value :=
  if has_bracket path then bracket_get object path
  else baseGet object (castPath object path).

(** The tree after the object that [baseGet] reaches along [path] has
    become [new]: the mutation seen from the root. *)
Fixpoint basePut (object : value) (path : list string) (new : value) : value :=
  match path with
  | [] => new
  | k :: t =>
      match object with
      | VObj ps =>
          if Obj.has k ps
          then VObj (Obj.replace k (basePut (Obj.get k ps) t new) ps)
          else object
      | VArr es named =>
          match Obj.array_index k with
          | Some n =>
              VArr (alter (fun e => basePut e t new) (N.to_nat n) es) named
          | None =>
              if Obj.has k named
              then VArr es (Obj.replace k (basePut (Obj.get k named) t new) named)
              else object
          end
      | _ => object
      end
  end.

Definition _put (object : value) (path : string) (new : value) : value :=
  if has_bracket path then bracket_put object path new
  else basePut object (castPath object path) new.

(** Something is at [p]: an entry at it or below it, or the working
    directory, which is at or below it. *)
Definition present (fs : gmap (list string) node) (p : list string) : bool :=
  negb (bool_decide (filter (fun kv => negb (bool_decide (p `prefix_of` kv.1)) = false) fs = ∅))
  || bool_decide (p `prefix_of` cwd).

(** Whether [rm] gives up on the path [p], and with which code: a file on
    the way is no directory; of a directory that is there, [rmdir] does not
    take the one written with [.] at its end, takes the one written with
    [..] for not empty, and does not take the root. *)
Definition refused (fs : gmap (list string) node) (p : string) : option refusal :=
  let target := Path.locate cwd p in
  let seg := Path.last_segment p in
  if existsb (Fs.is_file fs) (Fs.ancestors [] (removelast target)) then Some ENOTDIR
  else if negb (present fs target) then None
  else if Fs.is_file fs target then
    (if bool_decide (seg = ".") || bool_decide (seg = "..") then Some ENOTDIR else None)
  else if bool_decide (seg = ".") then Some EINVAL
  else if bool_decide (seg = "..") then Some ENOTEMPTY
  else if bool_decide (seg = "") then Some EBUSY
  else None.

(** The calls of [fs] on a path as the program writes it; the empty
    path names no file.  [fs.removeSync(p)] is [rm] with [recursive] and
    [force]: what is at [p] goes with everything below it, and nothing is
    reported when nothing is there; on [ENOTEMPTY] the entries below went
    before the error. *)
Definition removeSync (p : string) : io unit :=
  fun w =>
    if string_dec p "" then (Ok tt, w)
    else
      match refused (files w) p with
      | None => (Ok tt, World (Fs.remove (Path.locate cwd p) (files w)) (logged w))
      | Some ENOTEMPTY =>
          (Throw FsError, World (Fs.remove_below (Path.locate cwd p) (files w)) (logged w))
      | Some _ => (Throw FsError, w)
      end.

Definition ensureDirSync (p : string) : io unit :=
  fun w =>
    if string_dec p "" then (Throw FsError, w)
    else
      match Fs.ensureDir (Path.locate cwd p) (files w) with
      | Ok fs' => (Ok tt, World fs' (logged w))
      | Throw e => (Throw e, w)
      | Exit c => (Exit c, w)
      end.

Definition writeFileSync (p content : string) : io unit :=
  fun w =>
    if string_dec p "" then (Throw FsError, w)
    else
      match Fs.writeFile (Path.locate cwd p) content (files w) with
      | Ok fs' => (Ok tt, World fs' (logged w))
      | Throw e => (Throw e, w)
      | Exit c => (Exit c, w)
      end.

Definition readFileSync (p : string) : io string :=
  fun w =>
    if string_dec p "" then (Throw FsError, w)
    else (Fs.readFile (Path.locate cwd p) (files w), w).

(** [saveSchema(schemasPath, definitionKeyword, filename, schemaAsString)]. *)
Definition saveSchema (schemasPath definitionKeyword filename schemaAsString : string)
  : io unit :=
  let destinationDir := Path.join schemasPath definitionKeyword in
  let destinationPath := Path.join destinationDir (filename ++ ".json") in
  do* _ := ensureDirSync destinationDir in
  writeFileSync destinationPath schemaAsString.

(** [JSON.stringify] hands back [undefined] for [undefined]; a method
    call on it throws. *)
Definition stringified (v : value) : result string :=
  match Json.stringify v with
  | Some s => Ok s
  | None => Throw TypeError
  end.

(** The body of the loop of [processSchema]; it returns the entry as
    [adaptSchema] left it. *)
Definition processEntry (schemasPath definitionKeyword : string) (isArray : bool)
  (entry : string * value) : io (string * value) :=
  let '(key, value) := entry in
  do* name := lift (if isArray then getProp value "name" else Ok (VStr key)) in
  do* filename := lift (getFilename name) in
  do* adapted := lift (adaptSchema value name filename) in
  do* schemaAsString := lift (stringified adapted) in
  do* _ := saveSchema schemasPath definitionKeyword filename
             (rewriteRefs schemaAsString) in
  ret (key, adapted).

Fixpoint forEachEntry (schemasPath definitionKeyword : string) (isArray : bool)
  (l : list (string * value)) : io (list (string * value)) :=
  match l with
  | [] => ret []
  | e :: t =>
      do* e' := processEntry schemasPath definitionKeyword isArray e in
      do* t' := forEachEntry schemasPath definitionKeyword isArray t in
      ret (e' :: t')
  end.

(** The collection with its entries as the loop left them. *)
Definition withEntries (schema : value) (l : list (string * value)) : value :=
  match schema with
  | VObj _ => VObj l
  | VArr es _ => VArr (map snd (take (List.length es) l)) (drop (List.length es) l)
  | _ => schema
  end.

(** [processSchema(schema, schemasPath, definitionKeyword, isArray)];
    it returns the collection after the mutation of its entries. *)
Definition processSchema (schema : value) (schemasPath definitionKeyword : string)
  (isArray : bool) : io value :=
  do* l := lift (entries schema) in
  do* l' := forEachEntry schemasPath definitionKeyword isArray l in
  ret (withEntries schema l').

(** [processParameterSchema(schema, schemasPath, definitionKeyword, filename)]. *)
Definition processParameterSchema (schema : value)
  (schemasPath definitionKeyword filename : string) : io unit :=
  do* name := lift (getProp schema "name") in
  do* adapted := lift (adaptSchema schema name filename) in
  do* schemaAsString := lift (stringified adapted) in
  saveSchema schemasPath definitionKeyword filename schemaAsString.

Definition isArray (v : value) : bool :=
  match v with VArr _ _ => true | _ => false end.

(** [processComponents]; it returns the converted tree after the
    mutations. *)
Fixpoint processComponents (componentsKeywords : list string)
  (generatedSchema parsedOpenAPIContent : value) (schemasPath : string) : io value :=
  match componentsKeywords with
  | [] => ret generatedSchema
  | key :: t =>
      let schema := _get generatedSchema key in
      do* schema' := processSchema schema schemasPath key
                       (isArray (_get parsedOpenAPIContent key)) in
      processComponents t (_put generatedSchema key schema')
        parsedOpenAPIContent schemasPath
  end.

Definition METHODS : list string :=
  ["get"; "post"; "put"; "delete"; "options"; "head"; "patch"].
Definition PARAMETERS_KEYWORD : string := "parameters".
Definition EXTRACTION_PARAMETERS_KEYWORDS : list string := ["query"; "path"].

(** [v === 'text']. *)
Definition is_str (v : value) (text : string) : bool :=
  match v with VStr s => bool_decide (s = text) | _ => false end.

(** The reducer of [processPathSchemas] on the accumulator
    [{ query, path }]. *)
Definition bucket (acc : list value * list value) (parameter : value)
  : result (list value * list value) :=
  let '(query, path) := acc in
  let* where_ := getProp parameter "in" in
  let query := if is_str where_ "path" then (query ++ [parameter])%list else query in
  let* where_ := getProp parameter "in" in
  let path := if is_str where_ "query" then (path ++ [parameter])%list else path in
  Ok (query, path).

Fixpoint reduce (acc : list value * list value) (l : list value)
  : result (list value * list value) :=
  match l with
  | [] => Ok acc
  | p :: t => let* acc' := bucket acc p in reduce acc' t
  end.

(** [currentSchema.reduce(...)]: only an array has a [reduce] to call. *)
Definition buckets (currentSchema : value) : result (list value * list value) :=
  match currentSchema with
  | VArr es named =>
      if Obj.has "reduce" named then Throw TypeError else reduce ([], []) es
  | _ => Throw TypeError
  end.

(** The body of the loop over [Object.entries(schemas)]. *)
Definition processBucket (schemasPath folder baseFilename : string)
  (entry : string * list value) : io unit :=
  let '(key, schema) := entry in
  if str_in key EXTRACTION_PARAMETERS_KEYWORDS
     && negb (Nat.eqb (List.length schema) 0) then
    do* itemSchema := lift (buildSchemaFromParameters schema) in
    do* filename := lift (getFilename
                      (VStr (baseFilename ++ "_" ++ key ++ "_" ++ PARAMETERS_KEYWORD))) in
    processParameterSchema itemSchema schemasPath folder filename
  else ret tt.

(** The body of the loop over the entries of one path. *)
Definition processOption (schemasPath pathFolder baseFilename : string)
  (entry : string * value) : io unit :=
  let '(optionKey, optionSchema) := entry in
  do* isValidMethod :=
    lift (if str_in optionKey METHODS
          then hasProp PARAMETERS_KEYWORD optionSchema else Ok false) in
  let isValidPathParameters := bool_decide (optionKey = PARAMETERS_KEYWORD) in
  if isValidMethod || isValidPathParameters then
    let folder := if isValidMethod then Path.join pathFolder optionKey
                  else pathFolder in
    do* currentSchema :=
      lift (if isValidMethod then getProp optionSchema "parameters"
            else Ok optionSchema) in
    do* (query, path) := lift (buckets currentSchema) in
    do* _ := processBucket schemasPath folder baseFilename ("query", query) in
    processBucket schemasPath folder baseFilename ("path", path)
  else ret tt.

Fixpoint forEachOption (schemasPath pathFolder baseFilename : string)
  (l : list (string * value)) : io unit :=
  match l with
  | [] => ret tt
  | e :: t =>
      do* _ := processOption schemasPath pathFolder baseFilename e in
      forEachOption schemasPath pathFolder baseFilename t
  end.

(** The body of the loop over the paths. *)
Definition processEndpoint (schemasPath : string) (entry : string * value) : io unit :=
  let '(endpoint, endpointOptions) := entry in
  let pathName := strip_invalid_uri_chars endpoint in
  let pathFolder := pathName in
  let baseFilename :=
    Str.map_char (fun c => if ascii_dec c "/"%char then "_"%char else c) pathName in
  do* l := lift (entries endpointOptions) in
  forEachOption schemasPath pathFolder baseFilename l.

Fixpoint forEachEndpoint (schemasPath : string) (l : list (string * value)) : io unit :=
  match l with
  | [] => ret tt
  | e :: t =>
      do* _ := processEndpoint schemasPath e in
      forEachEndpoint schemasPath t
  end.

(** [processPathSchemas(generatedSchema, schemasPath)]. *)
Definition processPathSchemas (generatedSchema : value) (schemasPath : string) : io unit :=
  let pathSchema := _get generatedSchema "paths" in
  do* l := lift (entries pathSchema) in
  forEachEndpoint schemasPath l.

(** [[...new Set(l)]]: the first occurrence of each element stays. *)
Fixpoint dedupe (seen l : list string) : list string :=
  match l with
  | [] => []
  | x :: t =>
      if str_in x seen then dedupe seen t else x :: dedupe (x :: seen) t
  end.

(** The body of the second [try] of [runCommand]. *)
Definition extraction (parsedOpenAPIContent : value) (componentsKeywords : list string)
  (schemasPath : string) : io bool :=
  do* generatedSchema := lift (fromSchema parsedOpenAPIContent componentsKeywords) in
  do* generatedSchema' :=
    processComponents componentsKeywords generatedSchema
      parsedOpenAPIContent schemasPath in
  do* _ := processPathSchemas generatedSchema' schemasPath in
  ret true.

(** The keywords of a run: those asked for, then [components.schemas]. *)
Definition keywordsOf (propertiesToExport : option string) : list string :=
  dedupe []
    (match propertiesToExport with
     | Some p => Str.split ","%char p
     | None => []
     end ++ ["components.schemas"])%list.

(** What [runCommand] does once the output directory is reset. *)
Definition convert (openApiPath schemasPath : string)
  (propertiesToExport : option string) : io unit :=
  do* openAPIContent :=
    try_catch (readFileSync openApiPath)
      (do* _ := log LError "❌ Could not find the OpenAPI file" in exit 1) in
  do* parsedOpenAPIContent := lift (YAML_parse openAPIContent) in
  let componentsKeywords := keywordsOf propertiesToExport in
  do* converted :=
    try_catch
      (extraction parsedOpenAPIContent componentsKeywords schemasPath)
      (do* _ := log LWarn "Failed to convert non-object attribute, skipping" in
       ret false) in
  if converted : bool then
    log LInfo "✅ JSON schemas generated successfully from OpenAPI file"
  else ret tt.

(** [runCommand(openApiPath, schemasPath, propertiesToExport, logger)]. *)
Definition runCommand (openApiPath schemasPath : string)
  (propertiesToExport : option string) : io unit :=
  do* _ := removeSync schemasPath in
  do* _ := ensureDirSync schemasPath in
  convert openApiPath schemasPath propertiesToExport.

End WithCollaborators.

(* ====================================================================== *)
(** * The vocabulary of the statements *)
(* ====================================================================== *)

(** The keys [adaptSchema] may touch. *)
Definition adapted_keys : list string := ["$schema"; "title"; "$id"; "tsType"].

Definition untouched (kv : string * value) : bool :=
  negb (existsb (fun x => bool_decide (kv.1 = x)) adapted_keys).

(** A schema without the keys [adaptSchema] may touch: the other
    properties, in their order, with their values. *)
Definition body (v : value) : value :=
  match v with
  | VObj ps => VObj (List.filter untouched ps)
  | VArr es named => VArr es (List.filter untouched named)
  | _ => v
  end.

(** The named properties of an object or an array. *)
Definition own (v : value) : list (string * value) :=
  match v with
  | VObj ps => ps
  | VArr _ named => named
  | _ => []
  end.

(** The same object or array with other named properties. *)
Definition with_own (v : value) (ps : list (string * value)) : value :=
  match v with
  | VObj _ => VObj ps
  | VArr es _ => VArr es ps
  | _ => v
  end.

Definition is_object (v : value) : bool :=
  match v with VObj _ | VArr _ _ => true | _ => false end.

(** [schema.format?.includes('date')] as [adaptSchema] evaluates it. *)
Definition has_date_format (schema : value) : result bool :=
  let* format := getProp schema "format" in format_includes_date format.

(** [v[k]] where it cannot throw. *)
Definition prop (v : value) (k : string) : value :=
  match getProp v k with
  | Ok x => x
  | _ => VUndefined
  end.

(** The key under which [buildSchemaFromParameters] files a parameter:
    none when its [name] is falsy. *)
Definition key_of (parameter : value) : option string :=
  if truthy (prop parameter "name") then
    match toPropertyKey (prop parameter "name") with
    | Ok k => Some k
    | _ => None
    end
  else None.

(** The last parameter of the list filed under [k]. *)
Fixpoint last_named (k : string) (parameters : list value) : option value :=
  match parameters with
  | [] => None
  | p :: t =>
      match last_named k t with
      | Some q => Some q
      | None => if bool_decide (key_of p = Some k) then Some p else None
      end
  end.

(** The names of the parameters that have one and are required, in the
    order of the list. *)
Definition required_names (parameters : list value) : list value :=
  map (fun p => prop p "name")
    (List.filter (fun p => truthy (prop p "name") && truthy (prop p "required"))
       parameters).

(** [parameter.in === text]. *)
Definition in_is (text : string) (parameter : value) : bool :=
  is_str (prop parameter "in") text.

(** Neither [null] nor [undefined]. *)
Definition defined (v : value) : bool :=
  match v with VUndefined | VNull => false | _ => true end.

(** The document of the specification's example: the path
    [/widgets/{id}] with a [get] operation of two parameters. *)
Definition widgets_parameters : list value :=
  [VObj [("name", VStr "id"); ("in", VStr "path"); ("required", VBool true);
         ("schema", VObj [("type", VStr "string")])];
   VObj [("name", VStr "verbose"); ("in", VStr "query");
         ("schema", VObj [("type", VStr "boolean")])]].

Definition widgets_document : value :=
  VObj [("paths",
         VObj [("/widgets/{id}",
                VObj [("get", VObj [("parameters", VArr widgets_parameters [])])])])].



(** A document whose schema [Foo] is no object, after a schema [Bar]
    that is one. *)
Definition malformed_document : value :=
  VObj [("components",
         VObj [("schemas",
                VObj [("Bar", VObj [("type", VStr "string")]);
                      ("Foo", VStr "oops");
                      ("Baz", VObj [("type", VStr "number")])])])].

(** An environment for the examples: [filenamify] and [formatFileName]
    hand a name back as it is, the converter hands the document back, the
    texts that parse are ["widgets"] and ["malformed"], for the two example
    documents, and no path is written with brackets. *)
Definition plain_environment : Collaborators := {|
  filenamify v := match v with VStr s => Ok s | _ => Throw TypeError end;
  formatFileName s := Ok s;
  fromSchema v _ := Ok v;
  YAML_parse s :=
    if string_dec s "widgets" then Ok widgets_document
    else if string_dec s "malformed" then Ok malformed_document
    else Throw ExternalError;
  bracket_get _ _ := VUndefined;
  bracket_put v _ _ := v;
  prototype_get _ _ := VObj [];
  cwd := ["srv"]
|}.

(** A component schema that refers to another one. *)
Definition pet_schema : value :=
  VObj [("type", VStr "object");
        ("properties",
         VObj [("owner", VObj [("$ref", VStr "#/components/schemas/Owner")]);
               ("friend", VObj [("$ref", VStr "#/components/schemas/Pet")])])].

(** A document whose only parameter has a schema that is a reference. *)
Definition referring_document : value :=
  VObj [("paths",
         VObj [("/pets",
                VObj [("get",
                       VObj [("parameters",
                              VArr [VObj [("name", VStr "owner");
                                          ("in", VStr "query");
                                          ("schema",
                                           VObj [("$ref",
                                                  VStr "#/components/schemas/Owner")])]]
                                   [])])])])].

(** A world with nothing in it. *)
Definition empty_world : world := World ∅ [].

(** The text of the file at [p], the empty text when there is none. *)
Definition file_text (w : world) (p : list string) : string :=
  match files w !! p with
  | Some (File c) => c
  | _ => ""
  end.

(** The rewriting as the specification words it, in one pass from left
    to right: a match of the pattern becomes its last segment followed by
    [.json], any other character stays. *)
Fixpoint rewriteOnce_from (skip : nat) (s : string) : string :=
  match s with
  | EmptyString => EmptyString
  | String c t =>
      match skip with
      | S k => rewriteOnce_from k t
      | O =>
          match matchAt s with
          | Some (m, _) =>
              refName m ++ ".json" ++ rewriteOnce_from (String.length m - 1) t
          | None => String c (rewriteOnce_from 0 t)
          end
      end
  end.

Definition rewriteOnce (s : string) : string := rewriteOnce_from 0 s.

(** What every match starts with. *)
Definition header (kind : string) : string := "#/components/" ++ kind ++ "/".

(** A reference whose last segment has no [$], so that no part of it is a
    replacement pattern for [String.prototype.replace]. *)
Definition dollar_free (ref : string) : Prop := Str.mem "$"%char (refName ref) = false.

(** The pattern matches nowhere in [s]. *)
Definition no_match (s : string) : Prop := matchAll s = [].

(** A run of characters none of which is a double quote. *)
Definition quote_free (s : string) : Prop := Str.mem Json.dquote s = false.

(** Where a match ends: at the end of the text or before a double quote. *)
Definition stops (rest : string) : Prop :=
  match rest with
  | EmptyString => True
  | String c _ => c = Json.dquote
  end.

(** The pattern matches at no position of [pre] in the text [pre ++ s]. *)
Fixpoint clear_at (pre s : string) : Prop :=
  match pre with
  | EmptyString => True
  | String _ p => matchAt (pre ++ s) = None /\ clear_at p s
  end.

(** A text with no slash in it. *)
Definition slash_free (s : string) : Prop := Str.mem Path.slash s = false.

(** The named properties after [adaptSchema], for a schema whose format
    includes [date] or not. *)
Definition annotate (isDate : bool) (name : value) (filename : string)
  (ps : list (string * value)) : list (string * value) :=
  let ps' :=
    Obj.set "$id" (VStr (strip_invalid_uri_chars filename ++ ".json"))
      (Obj.set "title" name (Obj.del "$schema" ps)) in
  if isDate then Obj.set "tsType" (VStr "Date") ps' else ps'.

(** A parameter as its interface types it, as far as
    [buildSchemaFromParameters] looks: an object, an array or a primitive
    whose [name], if it has one, is a string. *)
Definition typed_parameter (parameter : value) : bool :=
  defined parameter &&
  match prop parameter "name" with
  | VUndefined | VStr _ => true
  | _ => false
  end.

(** An entry of a path item that [processPathSchemas] passes over: a
    method whose operation is an object without [parameters], or a key that
    is neither a method nor [parameters]. *)
Definition inert_option (entry : string * value) : bool :=
  if str_in entry.1 METHODS then
    match entry.2 with
    | VObj ps => negb (Obj.has "parameters" ps)
    | _ => false
    end
  else negb (bool_decide (entry.1 = "parameters")).

(** A document with two schemas and one operation, and an environment in
    which the text ["petstore"] parses to it; otherwise the environment
    is as [plain_environment]. *)
Definition petstore_document : value :=
  VObj [("components",
         VObj [("schemas",
                VObj [("Pet", pet_schema);
                      ("Owner", VObj [("type", VStr "object")])])]);
        ("paths",
         VObj [("/pets/{id}",
                VObj [("get", VObj [("parameters", VArr widgets_parameters [])])])])].

Definition petstore_environment : Collaborators := {|
  filenamify v := match v with VStr s => Ok s | _ => Throw TypeError end;
  formatFileName s := Ok s;
  fromSchema v _ := Ok v;
  YAML_parse s :=
    if string_dec s "petstore" then Ok petstore_document else Throw ExternalError;
  bracket_get _ _ := VUndefined;
  bracket_put v _ _ := v;
  prototype_get _ _ := VObj [];
  cwd := ["srv"]
|}.

(** The segments of a path that name something: those that are neither
    empty nor [.]. *)
Definition named_segment (seg : string) : bool :=
  negb (bool_decide (seg = "")) && negb (bool_decide (seg = ".")).

Definition path_segments (p : string) : list string :=
  List.filter named_segment (Str.split Path.slash p).

(** A path none of whose segments is [..]. *)
Definition no_dotdot (p : string) : bool :=
  forallb (fun seg => negb (bool_decide (seg = ".."))) (Str.split Path.slash p).

(** One step of [normalizeString] on the segments kept so far, last one
    first. *)
Definition normalize_step (allowAboveRoot : bool) (acc : list string) (seg : string)
  : list string :=
  if string_dec seg "" then acc
  else if string_dec seg "." then acc
  else if string_dec seg ".." then
    match acc with
    | [] => if allowAboveRoot then [".."] else []
    | prev :: acc' =>
        if string_dec prev ".." then (if allowAboveRoot then seg :: acc else acc)
        else acc'
    end
  else seg :: acc.

(** A segment that stays where it is put. *)
Definition plain_segment (seg : string) : Prop :=
  seg <> "" /\ seg <> "." /\ seg <> "..".

(** What the relative mode keeps: plain segments and [..] segments. *)
Definition kept_segment (seg : string) : Prop := plain_segment seg \/ seg = "..".

(** ** The writes of the extraction, one after the other *)

(** A call of [saveSchema]: the root, the directory below it, the file
    name and the text. *)
Record save : Type := Save {
  save_root : string;
  save_keyword : string;
  save_filename : string;
  save_text : string
}.

(** A computation whose only effect is calls of [saveSchema]: the calls it
    makes, in order, and how it ends after them, when each of them has
    returned. *)
Definition plan (A : Type) : Type := list save * result A.

Definition plan_ret {A} (a : A) : plan A := ([], Ok a).

Definition plan_lift {A} (r : result A) : plan A := ([], r).

Definition plan_save (s : save) : plan unit := ([s], Ok tt).

Definition plan_bind {A B} (m : plan A) (k : A -> plan B) : plan B :=
  match m with
  | (l, Ok a) => let '(l', r) := k a in ((l ++ l')%list, r)
  | (l, Throw e) => (l, Throw e)
  | (l, Exit c) => (l, Exit c)
  end.

Notation "'plan*' x := m 'in' k" := (plan_bind m (fun x => k))
  (at level 10, x pattern, m at level 100, k at level 200) : js_scope.

Section Plans.
Context `{Collaborators}.

(** The file a call of [saveSchema] writes. *)
Definition destination (s : save) : list string :=
  Path.locate cwd
    (Path.join (Path.join (save_root s) (save_keyword s)) (save_filename s ++ ".json")).

Definition perform_save (s : save) : io unit :=
  saveSchema (save_root s) (save_keyword s) (save_filename s) (save_text s).

(** The calls made one after the other; the first that throws ends them. *)
Fixpoint perform_saves (l : list save) : io unit :=
  match l with
  | [] => ret tt
  | s :: t => do* _ := perform_save s in perform_saves t
  end.

Definition perform {A} (m : plan A) : io A :=
  do* _ := perform_saves m.1 in lift m.2.

(** The text that the calls of [l] leave in the file [p]: that of the
    last of them that writes [p]. *)
Fixpoint last_text (p : list string) (l : list save) : option string :=
  match l with
  | [] => None
  | s :: t =>
      match last_text p t with
      | Some text => Some text
      | None => if bool_decide (destination s = p) then Some (save_text s) else None
      end
  end.

(** The functions of the extraction, with their calls of [saveSchema]
    listed instead of made. *)
Definition planEntry (schemasPath definitionKeyword : string) (isArray : bool)
  (entry : string * value) : plan (string * value) :=
  let '(key, value) := entry in
  plan* name := plan_lift (if isArray then getProp value "name" else Ok (VStr key)) in
  plan* filename := plan_lift (getFilename name) in
  plan* adapted := plan_lift (adaptSchema value name filename) in
  plan* schemaAsString := plan_lift (stringified adapted) in
  plan* _ := plan_save (Save schemasPath definitionKeyword filename
                          (rewriteRefs schemaAsString)) in
  plan_ret (key, adapted).

Fixpoint planEntries (schemasPath definitionKeyword : string) (isArray : bool)
  (l : list (string * value)) : plan (list (string * value)) :=
  match l with
  | [] => plan_ret []
  | e :: t =>
      plan* e' := planEntry schemasPath definitionKeyword isArray e in
      plan* t' := planEntries schemasPath definitionKeyword isArray t in
      plan_ret (e' :: t')
  end.

Definition planSchema (schema : value) (schemasPath definitionKeyword : string)
  (isArray : bool) : plan value :=
  plan* l := plan_lift (entries schema) in
  plan* l' := planEntries schemasPath definitionKeyword isArray l in
  plan_ret (withEntries schema l').

Definition planParameterSchema (schema : value)
  (schemasPath definitionKeyword filename : string) : plan unit :=
  plan* name := plan_lift (getProp schema "name") in
  plan* adapted := plan_lift (adaptSchema schema name filename) in
  plan* schemaAsString := plan_lift (stringified adapted) in
  plan_save (Save schemasPath definitionKeyword filename schemaAsString).

Fixpoint planComponents (componentsKeywords : list string)
  (generatedSchema parsedOpenAPIContent : value) (schemasPath : string) : plan value :=
  match componentsKeywords with
  | [] => plan_ret generatedSchema
  | key :: t =>
      let schema := _get generatedSchema key in
      plan* schema' := planSchema schema schemasPath key
                         (isArray (_get parsedOpenAPIContent key)) in
      planComponents t (_put generatedSchema key schema')
        parsedOpenAPIContent schemasPath
  end.

Definition planBucket (schemasPath folder baseFilename : string)
  (entry : string * list value) : plan unit :=
  let '(key, schema) := entry in
  if str_in key EXTRACTION_PARAMETERS_KEYWORDS
     && negb (Nat.eqb (List.length schema) 0) then
    plan* itemSchema := plan_lift (buildSchemaFromParameters schema) in
    plan* filename := plan_lift (getFilename
                        (VStr (baseFilename ++ "_" ++ key ++ "_" ++ PARAMETERS_KEYWORD))) in
    planParameterSchema itemSchema schemasPath folder filename
  else plan_ret tt.

Definition planOption (schemasPath pathFolder baseFilename : string)
  (entry : string * value) : plan unit :=
  let '(optionKey, optionSchema) := entry in
  plan* isValidMethod :=
    plan_lift (if str_in optionKey METHODS
               then hasProp PARAMETERS_KEYWORD optionSchema else Ok false) in
  let isValidPathParameters := bool_decide (optionKey = PARAMETERS_KEYWORD) in
  if isValidMethod || isValidPathParameters then
    let folder := if isValidMethod then Path.join pathFolder optionKey
                  else pathFolder in
    plan* currentSchema :=
      plan_lift (if isValidMethod then getProp optionSchema "parameters"
                 else Ok optionSchema) in
    plan* (query, path) := plan_lift (buckets currentSchema) in
    plan* _ := planBucket schemasPath folder baseFilename ("query", query) in
    planBucket schemasPath folder baseFilename ("path", path)
  else plan_ret tt.

Fixpoint planOptions (schemasPath pathFolder baseFilename : string)
  (l : list (string * value)) : plan unit :=
  match l with
  | [] => plan_ret tt
  | e :: t =>
      plan* _ := planOption schemasPath pathFolder baseFilename e in
      planOptions schemasPath pathFolder baseFilename t
  end.

Definition planEndpoint (schemasPath : string) (entry : string * value) : plan unit :=
  let '(endpoint, endpointOptions) := entry in
  let pathName := strip_invalid_uri_chars endpoint in
  let pathFolder := pathName in
  let baseFilename :=
    Str.map_char (fun c => if ascii_dec c "/"%char then "_"%char else c) pathName in
  plan* l := plan_lift (entries endpointOptions) in
  planOptions schemasPath pathFolder baseFilename l.

Fixpoint planEndpoints (schemasPath : string) (l : list (string * value)) : plan unit :=
  match l with
  | [] => plan_ret tt
  | e :: t =>
      plan* _ := planEndpoint schemasPath e in
      planEndpoints schemasPath t
  end.

Definition planPathSchemas (generatedSchema : value) (schemasPath : string) : plan unit :=
  let pathSchema := _get generatedSchema "paths" in
  plan* l := plan_lift (entries pathSchema) in
  planEndpoints schemasPath l.

Definition planExtraction (parsedOpenAPIContent : value) (componentsKeywords : list string)
  (schemasPath : string) : plan bool :=
  plan* generatedSchema := plan_lift (fromSchema parsedOpenAPIContent componentsKeywords) in
  plan* generatedSchema' :=
    planComponents componentsKeywords generatedSchema
      parsedOpenAPIContent schemasPath in
  plan* _ := planPathSchemas generatedSchema' schemasPath in
  plan_ret true.

End Plans.

(** ** Documents and environments of the examples *)

(** An environment in which the texts of [documents] parse to the
    documents beside them; otherwise it is as [plain_environment]. *)
Fixpoint parse_as (documents : list (string * value)) (text : string) : result value :=
  match documents with
  | [] => Throw ExternalError
  | (t, document) :: rest => if string_dec text t then Ok document else parse_as rest text
  end.

Definition example_environment (documents : list (string * value)) : Collaborators := {|
  filenamify v := match v with VStr s => Ok s | _ => Throw TypeError end;
  formatFileName s := Ok s;
  fromSchema v _ := Ok v;
  YAML_parse := parse_as documents;
  bracket_get _ _ := VUndefined;
  bracket_put v _ _ := v;
  prototype_get _ _ := VObj [];
  cwd := ["srv"]
|}.

(** The working directory with the input file in it. *)
Definition input_world (text : string) : world :=
  World {[ ["srv"] := Dir; ["srv"; "openapi.yml"] := File text ]} [].





(** A document with a schema and a parameter whose schema refers to it. *)
Definition referring_openapi : value :=
  VObj [("components", VObj [("schemas", VObj [("Owner", VObj [("type", VStr "object")])])]);
        ("paths", prop referring_document "paths")].

(** ** The files of the parameters of a path *)


Section Buckets.
Context `{Collaborators}.




End Buckets.



(* ====================================================================== *)
(** * Properties of objects *)
(* ====================================================================== *)

Module ObjFacts.
Import Obj.

Lemma has_replace k k' v ps : has k' (replace k v ps) = has k' ps.
Proof.
  induction ps as [|[a x] ps IH]; simpl; [done|].
  destruct (string_dec k a); simpl; [done|].
  by rewrite IH.
Qed.

Lemma has_add k k' v ps :
  has k' (add k v ps) = if string_dec k' k then true else has k' ps.
Proof.
  induction ps as [|[a x] ps IH]; simpl.
  - by destruct (string_dec k' k).
  - destruct (array_index k) as [n|], (array_index a) as [n'|]; simpl;
      try destruct (n <? n')%N; simpl; rewrite ?IH;
      destruct (string_dec k' k), (string_dec k' a); congruence.
Qed.

Lemma has_set k k' v ps :
  has k' (set k v ps) = if string_dec k' k then true else has k' ps.
Proof.
  unfold set. destruct (has k ps) eqn:E.
  - rewrite has_replace. destruct (string_dec k' k); congruence.
  - apply has_add.
Qed.

Lemma get_replace k k' v ps :
  get k' (replace k v ps) =
  if string_dec k' k then (if has k ps then v else VUndefined) else get k' ps.
Proof.
  induction ps as [|[a x] ps IH]; simpl.
  - by destruct (string_dec k' k).
  - destruct (string_dec k a) as [->|Hka]; simpl.
    + destruct (string_dec k' a); congruence.
    + rewrite IH.
      destruct (string_dec k' a), (string_dec k' k); congruence.
Qed.

Lemma get_add k k' v ps :
  has k ps = false ->
  get k' (add k v ps) = if string_dec k' k then v else get k' ps.
Proof.
  induction ps as [|[a x] ps IH]; simpl; intros Hno.
  - by destruct (string_dec k' k).
  - destruct (string_dec k a) as [|Hka]; [done|].
    destruct (array_index k) as [n|], (array_index a) as [n'|]; simpl;
      try destruct (n <? n')%N; simpl; rewrite ?IH by done;
      destruct (string_dec k' k), (string_dec k' a); congruence.
Qed.

Lemma get_set k k' v ps :
  get k' (set k v ps) = if string_dec k' k then v else get k' ps.
Proof.
  unfold set. destruct (has k ps) eqn:E.
  - rewrite get_replace, E. done.
  - by apply get_add.
Qed.

Lemma has_del k k' ps :
  has k' (del k ps) = if string_dec k' k then false else has k' ps.
Proof.
  induction ps as [|[a x] ps IH]; simpl.
  - by destruct (string_dec k' k).
  - destruct (string_dec k a); simpl; rewrite IH;
      destruct (string_dec k' k), (string_dec k' a); congruence.
Qed.

Lemma get_del k k' ps : k' <> k -> get k' (del k ps) = get k' ps.
Proof.
  intros Hne. induction ps as [|[a x] ps IH]; simpl; [done|].
  destruct (string_dec k a); simpl; rewrite IH;
    destruct (string_dec k' a); congruence.
Qed.

Lemma filter_replace (f : string * value -> bool) k v ps :
  (forall x, f (k, x) = false) ->
  List.filter f (replace k v ps) = List.filter f ps.
Proof.
  intros Hf. induction ps as [|[a x] ps IH]; simpl; [done|].
  destruct (string_dec k a) as [<-|]; simpl.
  - by rewrite !Hf.
  - by rewrite IH.
Qed.

Lemma filter_add (f : string * value -> bool) k v ps :
  (forall x, f (k, x) = false) ->
  List.filter f (add k v ps) = List.filter f ps.
Proof.
  intros Hf. induction ps as [|[a x] ps IH]; simpl.
  - by rewrite Hf.
  - destruct (array_index k) as [n|], (array_index a) as [n'|]; simpl;
      try destruct (n <? n')%N; simpl; rewrite ?Hf, ?IH; done.
Qed.

Lemma filter_set (f : string * value -> bool) k v ps :
  (forall x, f (k, x) = false) ->
  List.filter f (set k v ps) = List.filter f ps.
Proof.
  intros Hf. unfold set.
  destruct (has k ps); [by apply filter_replace | by apply filter_add].
Qed.

Lemma filter_del (f : string * value -> bool) k ps :
  (forall x, f (k, x) = false) ->
  List.filter f (del k ps) = List.filter f ps.
Proof.
  intros Hf. induction ps as [|[a x] ps IH]; simpl; [done|].
  destruct (string_dec k a) as [<-|]; simpl.
  - by rewrite Hf.
  - by rewrite IH.
Qed.

End ObjFacts.

(* ====================================================================== *)
(** * [adaptSchema] *)
(* ====================================================================== *)

Section AdaptSchema.
Import Obj ObjFacts.

Lemma getProp_named v k :
  is_object v = true -> k <> "length" -> array_index k = None ->
  getProp v k = Ok (get k (own v)).
Proof.
  intros Hobj Hlen Hidx. destruct v; try discriminate; simpl; [|done].
  destruct (string_dec k "length"); [done|]. by rewrite Hidx.
Qed.

Lemma hasProp_named v k :
  is_object v = true -> k <> "length" -> array_index k = None ->
  hasProp k v = Ok (has k (own v)).
Proof.
  intros Hobj Hlen Hidx. destruct v; try discriminate; simpl; [|done].
  destruct (string_dec k "length"); [done|]. by rewrite Hidx.
Qed.

(** What [adaptSchema] returns, when it returns: the argument is an
    object or an array, and its named properties went through one
    [delete] and two or three assignments. *)
Lemma adaptSchema_Ok schema name filename adapted :
  adaptSchema schema name filename = Ok adapted ->
  exists isDate,
    is_object schema = true /\
    has_date_format schema = Ok isDate /\
    let ps :=
      set "$id" (VStr (strip_invalid_uri_chars filename ++ ".json"))
        (set "title" name (del "$schema" (own schema))) in
    adapted = with_own schema (if isDate then set "tsType" (VStr "Date") ps else ps).
Proof.
  unfold adaptSchema, has_date_format.
  destruct schema as [| | | | |es named|ps]; simpl; try discriminate.
  - rewrite !get_set, get_del by done; simpl.
    destruct (format_includes_date (get "format" named)) as [[]| |] eqn:E;
      simpl; try discriminate; intros [= <-]; eexists; eauto.
  - rewrite !get_set, get_del by done; simpl.
    destruct (format_includes_date (get "format" ps)) as [[]| |] eqn:E;
      simpl; try discriminate; intros [= <-]; eexists; eauto.
Qed.

Lemma is_object_with_own v ps : is_object v = true -> is_object (with_own v ps) = true.
Proof. by destruct v. Qed.

Lemma own_with_own v ps : is_object v = true -> own (with_own v ps) = ps.
Proof. by destruct v. Qed.

End AdaptSchema.

(** C5 (as the code has it): when [adaptSchema] returns, the schema has no
    [$schema], its [title] is the name it was given, its [$id] is the file
    name without the characters invalid in a URI followed by [.json]; its
    [tsType] is ["Date"] when its [format] includes [date], and is what it
    was before (absent when it was absent) when it does not. *)
Theorem adaptSchema_annotations schema name filename adapted :
  adaptSchema schema name filename = Ok adapted ->
  hasProp "$schema" adapted = Ok false /\
  getProp adapted "title" = Ok name /\
  getProp adapted "$id" = Ok (VStr (strip_invalid_uri_chars filename ++ ".json")) /\
  exists isDate,
    has_date_format schema = Ok isDate /\
    getProp adapted "tsType" =
      if isDate then Ok (VStr "Date") else getProp schema "tsType".
Proof.
  intros Hrun.
  destruct (adaptSchema_Ok _ _ _ _ Hrun) as (isDate & Hobj & Hdate & ->).
  assert (Hobj' := fun ps => is_object_with_own schema ps Hobj).
  rewrite hasProp_named, !getProp_named by (done || apply Hobj').
  rewrite own_with_own by done.
  repeat split.
  - destruct isDate; by rewrite ?ObjFacts.has_set, ?ObjFacts.has_del.
  - destruct isDate; by rewrite ?ObjFacts.get_set.
  - destruct isDate; by rewrite ?ObjFacts.get_set.
  - exists isDate. split; [done|].
    destruct isDate; rewrite ?ObjFacts.get_set; simpl; [done|].
    by rewrite ObjFacts.get_del.
Qed.

Lemma adaptSchema_annotations_witness :
  let schema := VObj [("$schema", VStr "x"); ("type", VStr "string");
                      ("format", VStr "date-time")] in
  exists adapted,
    adaptSchema schema (VStr "Created At") "Created At" = Ok adapted /\
    hasProp "$schema" adapted = Ok false /\
    getProp adapted "title" = Ok (VStr "Created At") /\
    getProp adapted "$id" = Ok (VStr (strip_invalid_uri_chars "Created At" ++ ".json")) /\
    exists isDate,
      has_date_format schema = Ok isDate /\
      getProp adapted "tsType" =
        if isDate then Ok (VStr "Date") else getProp schema "tsType".
Proof.
  eexists. split; [reflexivity|].
  apply adaptSchema_annotations. reflexivity.
Defined.

(** C5 as stated fails: a schema that comes with a [tsType] of its own and
    no [format] keeps it, so [tsType: "Date"] is there although the format
    does not include [date]. *)
Lemma adaptSchema_tsType_not_iff_date :
  ~ (forall schema name filename adapted,
       adaptSchema schema (VStr name) filename = Ok adapted ->
       (getProp adapted "tsType" = Ok (VStr "Date") <->
        has_date_format adapted = Ok true)).
Proof.
  intros Hclaim.
  specialize (Hclaim (VObj [("type", VStr "string"); ("tsType", VStr "Date")])
                "When" "When" _ eq_refl).
  destruct Hclaim as [Hto _]. specialize (Hto eq_refl). discriminate Hto.
Qed.

(* ====================================================================== *)
(** * [buildSchemaFromParameters] *)
(* ====================================================================== *)

Lemma prop_Ok v k x : getProp v k = Ok x -> prop v k = x.
Proof. unfold prop. by intros ->. Qed.

Lemma addParameter_Ok properties requiredList parameter properties' requiredList' :
  addParameter (properties, requiredList) parameter = Ok (properties', requiredList') ->
  requiredList' = (requiredList ++ required_names [parameter])%list /\
  forall k,
    k <> "__proto__" ->
    Obj.get k properties' =
      (if bool_decide (key_of parameter = Some k)
       then VObj [("schema", prop parameter "schema")]
       else Obj.get k properties) /\
    Obj.has k properties' =
      (bool_decide (key_of parameter = Some k) || Obj.has k properties).
Proof.
  unfold addParameter, key_of, required_names. cbn [List.filter map].
  destruct (getProp parameter "name") as [name| |] eqn:Hname; cbn [bind]; try done.
  destruct (getProp parameter "required") as [required| |] eqn:Hreq; cbn [bind]; try done.
  destruct (getProp parameter "schema") as [schema| |] eqn:Hschema; cbn [bind]; try done.
  rewrite (prop_Ok _ _ _ Hname), (prop_Ok _ _ _ Hreq), (prop_Ok _ _ _ Hschema).
  destruct (truthy name) eqn:Hn; cbn [negb andb].
  - destruct (toPropertyKey name) as [key| |]; cbn [bind]; try done.
    intros [= <- <-]. split.
    + destruct (truthy required); simpl;
        by rewrite ?app_nil_r, ?(prop_Ok _ _ _ Hname).
    + intros k Hk. destruct (string_dec key "__proto__") as [Hkey|Hkey].
      * rewrite bool_decide_eq_false_2; [done|]. intros [= Heq]. congruence.
      * rewrite ObjFacts.get_set, ObjFacts.has_set.
        case_bool_decide as Heq.
        -- injection Heq as ->. by destruct (string_dec k k).
        -- destruct (string_dec k key) as [->|]; [by destruct Heq|done].
  - intros [= <- <-]. split; [simpl; rewrite ?app_nil_r; done|].
    intros k _. simpl. try case_bool_decide; done.
Qed.

Lemma required_names_cons p ps :
  required_names (p :: ps) = (required_names [p] ++ required_names ps)%list.
Proof.
  unfold required_names. simpl.
  by destruct (truthy (prop p "name") && truthy (prop p "required")).
Qed.

Lemma forEachParameter_Ok parameters : forall properties requiredList properties' requiredList',
  forEachParameter (properties, requiredList) parameters = Ok (properties', requiredList') ->
  requiredList' = (requiredList ++ required_names parameters)%list /\
  forall k,
    k <> "__proto__" ->
    Obj.get k properties' =
      match last_named k parameters with
      | Some p => VObj [("schema", prop p "schema")]
      | None => Obj.get k properties
      end /\
    Obj.has k properties' = (bool_decide (is_Some (last_named k parameters)) || Obj.has k properties).
Proof.
  induction parameters as [|p ps IH]; cbn [forEachParameter];
    intros properties requiredList properties' requiredList'.
  - intros [= <- <-]. split; [by rewrite app_nil_r|done].
  - destruct (addParameter (properties, requiredList) p)
      as [[properties1 requiredList1]| |] eqn:Hadd; cbn [bind]; try done.
    intros Hrest.
    destruct (addParameter_Ok _ _ _ _ _ Hadd) as [-> Hp].
    destruct (IH _ _ _ _ Hrest) as [-> Hps].
    split.
    + by rewrite (required_names_cons p ps), app_assoc.
    + intros k Hk. destruct (Hps k Hk) as [Hget Hhas], (Hp k Hk) as [Hget1 Hhas1].
      rewrite Hget, Hhas, Hget1, Hhas1. cbn [last_named].
      destruct (last_named k ps); simpl; [done|].
      by case_bool_decide.
Qed.

Lemma addParameter_proto properties requiredList parameter properties' requiredList' :
  addParameter (properties, requiredList) parameter = Ok (properties', requiredList') ->
  Obj.has "__proto__" properties' = Obj.has "__proto__" properties.
Proof.
  unfold addParameter.
  destruct (getProp parameter "name") as [name| |]; cbn [bind]; try done.
  destruct (getProp parameter "required") as [required| |]; cbn [bind]; try done.
  destruct (getProp parameter "schema") as [schema| |]; cbn [bind]; try done.
  destruct (negb (truthy name)); [by intros [= <- _]|].
  destruct (toPropertyKey name) as [key| |]; cbn [bind]; try done.
  intros [= <- _]. destruct (string_dec key "__proto__") as [Hkey|Hkey]; [done|].
  rewrite ObjFacts.has_set. by destruct (string_dec "__proto__" key).
Qed.

Lemma forEachParameter_proto parameters : forall properties requiredList properties' requiredList',
  forEachParameter (properties, requiredList) parameters = Ok (properties', requiredList') ->
  Obj.has "__proto__" properties' = Obj.has "__proto__" properties.
Proof.
  induction parameters as [|p ps IH]; cbn [forEachParameter];
    intros properties requiredList properties' requiredList'.
  - by intros [= <- _].
  - destruct (addParameter (properties, requiredList) p)
      as [[properties1 requiredList1]| |] eqn:Hadd; cbn [bind]; try done.
    intros Hrest. rewrite (IH _ _ _ _ Hrest). by apply addParameter_proto in Hadd.
Qed.

(** C6 (as the code has it): the schema built from a list of parameters is
    an [object] schema with [additionalProperties: false]; its [required]
    lists, in order, the names of the parameters that have a name and are
    required; its [properties] has one key per name of a parameter, the
    name [__proto__] apart, and the value under a key is the object
    [{ schema }] holding the [schema] of the last parameter of that name.
    The name [__proto__] is no key of [properties], whatever the
    parameters. *)
Theorem buildSchemaFromParameters_spec parameters schema :
  buildSchemaFromParameters parameters = Ok schema ->
  exists properties,
    schema = VObj [("type", VStr "object");
                   ("properties", VObj properties);
                   ("required", VArr (required_names parameters) []);
                   ("additionalProperties", VBool false)] /\
    Obj.has "__proto__" properties = false /\
    forall k,
      k <> "__proto__" ->
      Obj.has k properties = bool_decide (is_Some (last_named k parameters)) /\
      Obj.get k properties =
        match last_named k parameters with
        | Some p => VObj [("schema", prop p "schema")]
        | None => VUndefined
        end.
Proof.
  unfold buildSchemaFromParameters.
  destruct (forEachParameter ([], []) parameters) as [[properties requiredList]| |] eqn:Hloop;
    cbn [bind]; try done.
  intros [= <-].
  destruct (forEachParameter_Ok _ _ _ _ _ Hloop) as [-> Hk].
  exists properties. split; [done|]. split.
  - by rewrite (forEachParameter_proto _ _ _ _ _ Hloop).
  - intros k Hne. destruct (Hk k Hne) as [-> ->]. split.
    + by rewrite orb_false_r.
    + done.
Qed.

Lemma buildSchemaFromParameters_spec_witness :
  let parameters :=
    [VObj [("name", VStr "id"); ("in", VStr "path"); ("required", VBool true);
           ("schema", VObj [("type", VStr "string")])];
     VObj [("name", VStr "__proto__"); ("in", VStr "path"); ("required", VBool true);
           ("schema", VObj [("type", VStr "boolean")])]] in
  exists schema properties,
    buildSchemaFromParameters parameters = Ok schema /\
    schema = VObj [("type", VStr "object");
                   ("properties", VObj properties);
                   ("required", VArr (required_names parameters) []);
                   ("additionalProperties", VBool false)] /\
    Obj.has "__proto__" properties = false /\
    forall k,
      k <> "__proto__" ->
      Obj.has k properties = bool_decide (is_Some (last_named k parameters)) /\
      Obj.get k properties =
        match last_named k parameters with
        | Some p => VObj [("schema", prop p "schema")]
        | None => VUndefined
        end.
Proof.
  intros parameters.
  destruct (buildSchemaFromParameters_spec parameters _ eq_refl) as [properties Hspec].
  eexists _, properties. split; [reflexivity|exact Hspec].
Defined.

(** C6 as stated fails: the value filed under a parameter's name is not
    the parameter's [schema] but an object with the single key [schema]. *)
Lemma buildSchemaFromParameters_wraps_schema :
  ~ (forall parameters schema p name,
       parameters <> [] ->
       buildSchemaFromParameters parameters = Ok schema ->
       In p parameters ->
       getProp p "name" = Ok (VStr name) ->
       getProp (prop schema "properties") name = getProp p "schema").
Proof.
  intros Hclaim.
  specialize (Hclaim
    [VObj [("name", VStr "id"); ("in", VStr "path"); ("required", VBool true);
           ("schema", VObj [("type", VStr "string")])]]
    _ _ "id" ltac:(done) eq_refl (or_introl eq_refl) eq_refl).
  discriminate Hclaim.
Qed.

(* ====================================================================== *)
(** * The two buckets of [processPathSchemas] *)
(* ====================================================================== *)

Lemma getProp_defined v k : defined v = true -> getProp v k = Ok (prop v k).
Proof.
  unfold prop. destruct v; try discriminate; intros _; simpl; try done.
  - destruct (string_dec k "length"); [done|].
    destruct (Obj.array_index k); [|done].
    by destruct (String.get _ _).
  - destruct (string_dec k "length"); [done|].
    by destruct (Obj.array_index k).
Qed.

Lemma reduce_spec es : forall query path,
  forallb defined es = true ->
  reduce (query, path) es =
    Ok ((query ++ List.filter (in_is "path") es)%list,
        (path ++ List.filter (in_is "query") es)%list).
Proof.
  induction es as [|e es IH]; intros query path Hdef; simpl.
  - by rewrite !app_nil_r.
  - simpl in Hdef. apply andb_prop in Hdef as [He Hes].
    rewrite (getProp_defined _ "in" He). cbn [bind].
    rewrite IH by done. unfold in_is.
    destruct (is_str (prop e "in") "path"), (is_str (prop e "in") "query");
      by rewrite <- ?app_assoc.
Qed.

(** The parameters whose [in] is ["path"] make the bucket named [query],
    those whose [in] is ["query"] the bucket named [path]; a [null] among
    the parameters throws. *)
Lemma buckets_spec es :
  buckets (VArr es []) =
    if forallb defined es
    then Ok (List.filter (in_is "path") es, List.filter (in_is "query") es)
    else Throw TypeError.
Proof.
  unfold buckets. cbn [Obj.has].
  destruct (forallb defined es) eqn:Hdef.
  - by rewrite reduce_spec.
  - generalize (@nil value) at 1 as query, (@nil value) at 1 as path.
    induction es as [|e es IH]; [done|]. intros query path.
    simpl in Hdef. cbn [reduce]. unfold bucket at 1.
    destruct (defined e) eqn:He; simpl in Hdef.
    + rewrite (getProp_defined _ "in" He). cbn [bind]. by apply IH.
    + by destruct e.
Qed.

Section Routing.
Context `{Collaborators}.

Lemma processOption_method schemasPath pathFolder baseFilename optionKey ps es w :
  str_in optionKey METHODS = true ->
  Obj.has "parameters" ps = true ->
  Obj.get "parameters" ps = VArr es [] ->
  forallb defined es = true ->
  processOption schemasPath pathFolder baseFilename (optionKey, VObj ps) w =
    (do* _ := processBucket schemasPath (Path.join pathFolder optionKey) baseFilename
                ("query", List.filter (in_is "path") es) in
     processBucket schemasPath (Path.join pathFolder optionKey) baseFilename
       ("path", List.filter (in_is "query") es)) w.
Proof.
  intros Hmethod Hhas Hget Hdef.
  unfold processOption, PARAMETERS_KEYWORD. rewrite Hmethod. cbn [hasProp getProp].
  rewrite Hhas, Hget. unfold iobind at 1, lift at 1. cbn [orb].
  unfold iobind at 1, lift at 1.
  rewrite buckets_spec, Hdef.
  unfold iobind at 1, lift at 1. done.
Qed.

Lemma processOption_path_level schemasPath pathFolder baseFilename es w :
  forallb defined es = true ->
  processOption schemasPath pathFolder baseFilename ("parameters", VArr es []) w =
    (do* _ := processBucket schemasPath pathFolder baseFilename
                ("query", List.filter (in_is "path") es) in
     processBucket schemasPath pathFolder baseFilename
       ("path", List.filter (in_is "query") es)) w.
Proof.
  intros Hdef.
  unfold processOption.
  assert (Hno : str_in "parameters" METHODS = false) by done.
  unfold iobind at 1, lift at 1. rewrite Hno.
  assert (Hyes : bool_decide ("parameters" = PARAMETERS_KEYWORD) = true) by done.
  rewrite Hyes. cbn [orb].
  unfold iobind at 1, lift at 1.
  rewrite buckets_spec, Hdef.
  unfold iobind at 1, lift at 1. done.
Qed.

End Routing.

Section WidgetsExample.
Context `{Collaborators}.


End WidgetsExample.

(* ====================================================================== *)
(** * The title of a synthetic parameter schema *)
(* ====================================================================== *)

(** The schema that [buildSchemaFromParameters] returns has no [name], so
    the name [processParameterSchema] reads from it is [undefined]. *)
Lemma buildSchemaFromParameters_has_no_name parameters schema :
  buildSchemaFromParameters parameters = Ok schema ->
  getProp schema "name" = Ok VUndefined.
Proof.
  unfold buildSchemaFromParameters.
  destruct (forEachParameter ([], []) parameters) as [[properties requiredList]| |];
    cbn [bind]; [|done..].
  by intros [= <-].
Qed.

Section ParameterSchema.
Context `{Collaborators}.

(** So [processParameterSchema] asks [adaptSchema] for the title
    [undefined], which [JSON.stringify] leaves out. *)
Lemma processParameterSchema_title parameters schema schemasPath folder filename w :
  buildSchemaFromParameters parameters = Ok schema ->
  processParameterSchema schema schemasPath folder filename w =
    (do* adapted := lift (adaptSchema schema VUndefined filename) in
     do* schemaAsString := lift (stringified adapted) in
     saveSchema schemasPath folder filename schemaAsString) w.
Proof.
  intros Hbuild. unfold processParameterSchema.
  unfold iobind at 1, lift at 1.
  by rewrite (buildSchemaFromParameters_has_no_name _ _ Hbuild).
Qed.

End ParameterSchema.

(* ====================================================================== *)
(** * An entry of an array that has no [name] *)
(* ====================================================================== *)

(** [adaptSchema] returns on every object and array whose [format] can be
    asked for [date]. *)
Lemma adaptSchema_object schema name filename isDate :
  is_object schema = true ->
  has_date_format schema = Ok isDate ->
  exists adapted,
    adaptSchema schema name filename = Ok adapted /\ is_object adapted = true.
Proof.
  unfold adaptSchema, has_date_format.
  destruct schema as [| | | | |es named|ps]; try discriminate; intros _; simpl;
    rewrite !ObjFacts.get_set, ObjFacts.get_del by done; simpl;
    intros ->; simpl; destruct isDate; eauto.
Qed.

Lemma stringified_object v :
  is_object v = true -> exists text, stringified v = Ok text.
Proof.
  unfold stringified, Json.stringify.
  destruct v; try discriminate; intros _; simpl; eauto.
Qed.

Section SaveSchema.
Context `{Collaborators}.

Lemma writeFile_Ok p content fs fs' :
  Fs.writeFile p content fs = Ok fs' -> fs' = <[p := File content]> fs.
Proof.
  unfold Fs.writeFile. destruct p; [done|].
  destruct (negb _); [done|]. destruct (Fs.is_dir fs _); [done|].
  by intros [= <-].
Qed.

(** When [saveSchema] returns, the text is in a file. *)
Lemma saveSchema_Ok schemasPath definitionKeyword filename text w w' :
  saveSchema schemasPath definitionKeyword filename text w = (Ok tt, w') ->
  exists p fs, files w' = <[p := File text]> fs /\ logged w' = logged w.
Proof.
  unfold saveSchema, iobind, ensureDirSync, writeFileSync.
  destruct (string_dec (Path.join schemasPath definitionKeyword) ""); [done|].
  destruct (Fs.ensureDir _ (files w)) as [fs1| |]; [|done..].
  destruct (string_dec _ ""); [done|]. cbn [files logged].
  destruct (Fs.writeFile _ text fs1) as [fs2| |] eqn:Hwrite; [|done..].
  intros [= <-]. apply writeFile_Ok in Hwrite. cbn [files logged]. eauto.
Qed.

End SaveSchema.

Section NamelessEntry.
Context `{Collaborators}.

Lemma processEntry_nameless_throws schemasPath definitionKeyword key value e w :
  getProp value "name" = Ok VUndefined ->
  getFilename VUndefined = Throw e ->
  processEntry schemasPath definitionKeyword true (key, value) w = (Throw e, w).
Proof.
  intros Hname Hfile. unfold processEntry.
  unfold iobind at 1, lift at 1. rewrite Hname.
  unfold iobind at 1, lift at 1. by rewrite Hfile.
Qed.

Lemma processEntry_nameless_writes schemasPath definitionKeyword key value
    filename isDate w :
  getProp value "name" = Ok VUndefined ->
  getFilename VUndefined = Ok filename ->
  is_object value = true ->
  has_date_format value = Ok isDate ->
  exists adapted text,
    adaptSchema value VUndefined filename = Ok adapted /\
    stringified adapted = Ok text /\
    processEntry schemasPath definitionKeyword true (key, value) w =
      (do* _ := saveSchema schemasPath definitionKeyword filename (rewriteRefs text) in
       ret (key, adapted)) w.
Proof.
  intros Hname Hfile Hobj Hdate.
  destruct (adaptSchema_object value VUndefined filename isDate Hobj Hdate)
    as (adapted & Hadapt & Hobj').
  destruct (stringified_object adapted Hobj') as [text Htext].
  exists adapted, text. repeat split; [done..|].
  unfold processEntry.
  unfold iobind at 1, lift at 1. rewrite Hname.
  unfold iobind at 1, lift at 1. rewrite Hfile.
  unfold iobind at 1, lift at 1. rewrite Hadapt.
  unfold iobind at 1, lift at 1. by rewrite Htext.
Qed.

End NamelessEntry.

(** C9 (as the code has it): an entry of an array that has no [name] is
    not skipped.  [getFilename] is called with [undefined]: when it throws,
    the loop of [processSchema] ends there with that error, the entries
    that follow are not processed and the world is as it was before the
    entry; when it returns a file name, the entry is adapted with the
    title [undefined] and handed to [saveSchema] under that name. *)
Theorem nameless_entry_is_not_skipped `{Collaborators}
    schemasPath definitionKeyword key value :
  getProp value "name" = Ok VUndefined ->
  (forall e rest w,
     getFilename VUndefined = Throw e ->
     forEachEntry schemasPath definitionKeyword true ((key, value) :: rest) w
       = (Throw e, w)) /\
  (forall filename isDate w,
     getFilename VUndefined = Ok filename ->
     is_object value = true ->
     has_date_format value = Ok isDate ->
     exists adapted text,
       adaptSchema value VUndefined filename = Ok adapted /\
       stringified adapted = Ok text /\
       processEntry schemasPath definitionKeyword true (key, value) w =
         (do* _ := saveSchema schemasPath definitionKeyword filename (rewriteRefs text) in
          ret (key, adapted)) w).
Proof.
  intros Hname. split.
  - intros e rest w Hfile. cbn [forEachEntry]. unfold iobind at 1.
    by rewrite (processEntry_nameless_throws _ _ _ _ e w Hname Hfile).
  - intros filename isDate w Hfile Hobj Hdate.
    by apply (processEntry_nameless_writes _ _ _ _ _ isDate).
Qed.

Lemma nameless_entry_is_not_skipped_witness :
  forEachEntry (H := plain_environment) "out" "components.examples" true
    [("0", VObj [("summary", VStr "a cat")]);
     ("1", VObj [("name", VStr "dog"); ("summary", VStr "a dog")])] empty_world
  = (Throw TypeError, empty_world).
Proof.
  apply (proj1 (@nameless_entry_is_not_skipped plain_environment
                  "out" "components.examples" "0"
                  (VObj [("summary", VStr "a cat")]) eq_refl)).
  reflexivity.
Defined.

(** C9 as stated fails, whatever the collaborators do: on an array whose
    only element has no [name], [processSchema] does not both return and
    leave the files as they were. *)
Lemma nameless_entry_not_silently_skipped :
  ~ exists (env : Collaborators) (v : value),
      processSchema (H := env) (VArr [VObj [("summary", VStr "a cat")]] [])
        "out" "components.examples" true empty_world
      = (Ok v, empty_world).
Proof.
  intros (env & v & Hrun). revert Hrun.
  unfold processSchema.
  unfold iobind at 1, lift at 1. cbn [entries indexed app forEachEntry].
  unfold iobind at 1, iobind at 1.
  destruct (getFilename VUndefined) as [filename| |] eqn:Hfile.
  - destruct (processEntry_nameless_writes (H := env) "out" "components.examples"
                (pretty 0%N) (VObj [("summary", VStr "a cat")]) filename false
                empty_world eq_refl Hfile eq_refl eq_refl)
      as (adapted & text & _ & _ & ->).
    unfold iobind at 1.
    destruct (saveSchema _ _ _ _ empty_world) as [[[]| |] w1] eqn:Hsave; [|done..].
    apply saveSchema_Ok in Hsave as (p & fs & Hfiles & _).
    unfold iobind, ret. intros [= _ Hw]. rewrite Hw in Hfiles.
    symmetry in Hfiles.
    by apply (insert_non_empty fs p (File (rewriteRefs text))).
  - by rewrite (processEntry_nameless_throws (H := env) "out" "components.examples"
                  (pretty 0%N) (VObj [("summary", VStr "a cat")]) e empty_world
                  eq_refl Hfile).
  - unfold processEntry, iobind, lift.
    change (getProp _ "name") with (@Ok value VUndefined). cbv beta iota.
    by rewrite Hfile.
Qed.

(* ====================================================================== *)
(** * The file system *)
(* ====================================================================== *)

Module FsFacts.
Import Fs.

Lemma ancestors_spec p : forall pre q,
  q ∈ ancestors pre p <-> exists a, a <> [] /\ a `prefix_of` p /\ q = (pre ++ a)%list.
Proof.
  induction p as [|seg p IH]; intros pre q; simpl.
  - split; [by intros ?%elem_of_nil|].
    intros (a & Hne & Hpre & _). apply prefix_nil_inv in Hpre. done.
  - rewrite elem_of_cons, IH. split.
    + intros [->|(a & Hne & Hpre & ->)].
      * exists [seg]. split; [done|]. split; [|done].
        by apply (prefix_app [seg] [] p), prefix_nil.
      * exists (seg :: a). split; [done|]. split; [by apply prefix_cons|].
        by rewrite <- app_assoc.
    + intros ([|x a] & Hne & Hpre & ->); [done|].
      apply prefix_cons_inv_1 in Hpre as Hx. subst x.
      apply prefix_cons_inv_2 in Hpre.
      destruct a as [|y a]; [by left|].
      right. exists (y :: a). split; [done|]. split; [done|].
      by rewrite <- app_assoc.
Qed.

Lemma lookup_make_dirs (l : list (list string)) (fs : gmap (list string) node)
    (p : list string) :
  foldr (fun d m => <[d := Dir]> m) fs l !! p =
    if decide (p ∈ l) then Some Dir else fs !! p.
Proof.
  induction l as [|d l IH]; cbn [foldr].
  - case_decide as Hin; [by apply elem_of_nil in Hin|done].
  - destruct (decide (d = p)) as [->|Hne].
    + rewrite lookup_insert_eq. by rewrite decide_True by left.
    + rewrite lookup_insert_ne by done. rewrite IH.
      destruct (decide (p ∈ l)).
      * by rewrite decide_True by (by right).
      * rewrite decide_False; [done|]. intros [->|]%elem_of_cons; done.
Qed.

Lemma lookup_remove (d : list string) (fs : gmap (list string) node) (p : list string) :
  remove d fs !! p = if decide (d `prefix_of` p) then None else fs !! p.
Proof.
  unfold remove. destruct (decide (d `prefix_of` p)) as [Hpre|Hpre].
  - apply map_lookup_filter_None. right. intros x _. simpl.
    by rewrite bool_decide_eq_true_2.
  - destruct (fs !! p) as [x|] eqn:Hp.
    + apply map_lookup_filter_Some. split; [done|]. simpl.
      by rewrite bool_decide_eq_false_2.
    + apply map_lookup_filter_None. by left.
Qed.


(** Making directories takes no file away and changes none. *)
Lemma ensureDir_keeps_files (d : list string) (fs fs' : gmap (list string) node)
    (p : list string) (c : string) :
  ensureDir d fs = Ok fs' ->
  fs !! p = Some (File c) -> fs' !! p = Some (File c).
Proof.
  unfold ensureDir. destruct (existsb _ _) eqn:Hfile; [done|]. intros [= <-] Hp.
  rewrite lookup_make_dirs. destruct (decide (p ∈ ancestors [] d)) as [Hin|]; [|done].
  exfalso. apply not_true_iff_false in Hfile. apply Hfile.
  apply existsb_exists. exists p. split; [by apply list_elem_of_In|].
  unfold is_file. by rewrite Hp.
Qed.

End FsFacts.

(* ====================================================================== *)
(** * [runCommand] *)
(* ====================================================================== *)

Section RunCommand.
Context `{Collaborators}.

(** The first two lines of [runCommand], when they return. *)
Lemma reset_Ok schemasPath w w1 :
  (do* _ := removeSync schemasPath in ensureDirSync schemasPath) w = (Ok tt, w1) ->
  schemasPath <> "" /\
  Fs.ensureDir (Path.locate cwd schemasPath)
    (Fs.remove (Path.locate cwd schemasPath) (files w)) = Ok (files w1) /\
  logged w1 = logged w.
Proof.
  unfold iobind, removeSync, ensureDirSync.
  destruct (string_dec schemasPath ""); [done|].
  destruct (refused (files w) schemasPath) as [[]|]; [done..|]. cbn [files logged].
  destruct (Fs.ensureDir _ _) as [fs'| |]; [|done..].
  by intros [= <-].
Qed.

Lemma runCommand_after_reset openApiPath schemasPath propertiesToExport w w1 :
  (do* _ := removeSync schemasPath in ensureDirSync schemasPath) w = (Ok tt, w1) ->
  runCommand openApiPath schemasPath propertiesToExport w =
    convert openApiPath schemasPath propertiesToExport w1.
Proof.
  intros Hreset. unfold runCommand.
  unfold iobind at 1. unfold iobind at 1 in Hreset.
  destruct (removeSync schemasPath w) as [[[]| |] w0]; [|done..].
  unfold iobind at 1. by rewrite Hreset.
Qed.

End RunCommand.




Section ExtractionFailure.
Context `{Collaborators}.

Lemma iobind_lift {A B} (r : result A) (k : A -> io B) w :
  iobind (lift r) k w =
    match r with
    | Ok a => k a w
    | Throw e => (Throw e, w)
    | Exit c => (Exit c, w)
    end.
Proof. unfold iobind, lift. by destruct r. Qed.

(** When [saveSchema] throws, every file is as it was. *)
Lemma saveSchema_throw_keeps_files schemasPath definitionKeyword filename text w e w' :
  saveSchema schemasPath definitionKeyword filename text w = (Throw e, w') ->
  logged w' = logged w /\
  forall p c, files w !! p = Some (File c) -> files w' !! p = Some (File c).
Proof.
  unfold saveSchema, iobind, ensureDirSync, writeFileSync.
  destruct (string_dec (Path.join schemasPath definitionKeyword) "");
    [by intros [= _ <-]|].
  destruct (Fs.ensureDir _ (files w)) as [fs1| |] eqn:Hdir;
    [|by intros [= _ <-]|done].
  cbn [files logged].
  destruct (string_dec _ "").
  - intros [= _ <-]. split; [done|]. intros p c Hp. cbn [files].
    by apply (FsFacts.ensureDir_keeps_files _ _ _ _ _ Hdir).
  - destruct (Fs.writeFile _ text fs1) as [fs2| |]; [done| |done].
    intros [= _ <-]. split; [done|]. intros p c Hp. cbn [files].
    by apply (FsFacts.ensureDir_keeps_files _ _ _ _ _ Hdir).
Qed.

(** So does the processing of the entry that throws. *)
Lemma processEntry_throw_keeps_files schemasPath definitionKeyword isArr entry w e w' :
  processEntry schemasPath definitionKeyword isArr entry w = (Throw e, w') ->
  logged w' = logged w /\
  forall p c, files w !! p = Some (File c) -> files w' !! p = Some (File c).
Proof.
  unfold processEntry. destruct entry as [key value].
  rewrite iobind_lift.
  destruct (if isArr then _ else _) as [name| |]; [|by intros [= _ <-]|done].
  rewrite iobind_lift.
  destruct (getFilename name) as [filename| |]; [|by intros [= _ <-]|done].
  rewrite iobind_lift.
  destruct (adaptSchema value name filename) as [adapted| |]; [|by intros [= _ <-]|done].
  rewrite iobind_lift.
  destruct (stringified adapted) as [text| |]; [|by intros [= _ <-]|done].
  unfold iobind at 1.
  destruct (saveSchema _ _ _ _ w) as [[[]| |] w1] eqn:Hsave; [done| |done].
  intros [= <- <-]. by apply saveSchema_throw_keeps_files in Hsave.
Qed.

(** The loop of [processSchema] ends at the entry that throws. *)
Lemma forEachEntry_stops schemasPath definitionKeyword isArr before bad after :
  forall w finished w' e w'',
  forEachEntry schemasPath definitionKeyword isArr before w = (Ok finished, w') ->
  processEntry schemasPath definitionKeyword isArr bad w' = (Throw e, w'') ->
  forEachEntry schemasPath definitionKeyword isArr (before ++ bad :: after)%list w
    = (Throw e, w'').
Proof.
  induction before as [|entry before IH]; intros w finished w' e w'' Hbefore Hbad.
  - injection Hbefore as <- <-. cbn [app forEachEntry]. unfold iobind at 1.
    by rewrite Hbad.
  - cbn [app forEachEntry] in *. unfold iobind at 1 in Hbefore. unfold iobind at 1.
    destruct (processEntry _ _ _ entry w) as [[entry'| |] w0]; [|done..].
    unfold iobind at 1 in Hbefore. unfold iobind at 1.
    destruct (forEachEntry _ _ _ before w0) as [[finished0| |] w0'] eqn:Hrest; [|done..].
    injection Hbefore as <- <-.
    by rewrite (IH _ _ _ _ _ Hrest Hbad).
Qed.

End ExtractionFailure.

(* ====================================================================== *)
(** * Facts about strings *)
(* ====================================================================== *)

Module StrFacts.
Import Str.
#[local] Arguments String.append !s1 s2 : simpl nomatch.

Lemma app_nil_r s : s ++ "" = s.
Proof. induction s; simpl; congruence. Qed.

Lemma app_assoc a b c : (a ++ b) ++ c = a ++ b ++ c.
Proof. induction a; simpl; congruence. Qed.

Lemma length_app a b : String.length (a ++ b) = String.length a + String.length b.
Proof. induction a; simpl; congruence. Qed.

Lemma starts_with_app p t : starts_with p (p ++ t) = true.
Proof.
  induction p as [|a p IH]; simpl; [done|].
  by destruct (ascii_dec a a).
Qed.

Lemma starts_with_inv p : forall s,
  starts_with p s = true -> exists t, s = p ++ t.
Proof.
  induction p as [|a p IH]; intros s; simpl.
  - eauto.
  - destruct s as [|b s]; [done|].
    destruct (ascii_dec a b) as [->|]; [|done].
    intros [t ->]%IH. eauto.
Qed.

Lemma drop_app p t : drop (String.length p) (p ++ t) = t.
Proof. induction p; simpl; [by destruct t|done]. Qed.

Lemma mem_app c a b : mem c (a ++ b) = mem c a || mem c b.
Proof.
  induction a as [|x a IH]; simpl; [done|].
  by destruct (ascii_dec c x).
Qed.

(** Two ways to cut the same string: one cut is inside a part of the
    other. *)
Lemma app_eq_app a : forall b c d,
  a ++ b = c ++ d ->
  (exists e, c = a ++ e /\ b = e ++ d) \/ (exists e, a = c ++ e /\ d = e ++ b).
Proof.
  induction a as [|x a IH]; intros b c d Heq; simpl in *.
  - left. eauto.
  - destruct c as [|y c]; simpl in *.
    + right. exists (String x a). eauto.
    + injection Heq as -> Heq.
      destruct (IH _ _ _ Heq) as [(e & -> & ->)|(e & -> & ->)]; eauto.
Qed.


(** The run that [span] returns, and where it ends. *)
Lemma span_spec f : forall s r rest,
  span f s = (r, rest) ->
  s = r ++ rest /\
  (forall c, mem c r = true -> f c = true) /\
  match rest with
  | EmptyString => True
  | String c _ => f c = false
  end.
Proof.
  induction s as [|a s IH]; intros r rest; simpl.
  - intros [= <- <-]. done.
  - destruct (f a) eqn:Hfa.
    + destruct (span f s) as [r0 rest0]. intros [= <- <-].
      destruct (IH _ _ eq_refl) as (-> & Hall & Hrest).
      split; [done|]. split; [|done].
      intros c. simpl. destruct (ascii_dec c a) as [->|]; auto.
    + intros [= <- <-]. done.
Qed.

Lemma span_app_stop f r : forall c t,
  (forall x, mem x r = true -> f x = true) -> f c = false ->
  span f (r ++ String c t) = (r, String c t).
Proof.
  induction r as [|a r IH]; intros c t Hall Hc; simpl.
  - by rewrite Hc.
  - rewrite (Hall a) by (simpl; by destruct (ascii_dec a a)).
    rewrite IH; [done| |done].
    intros x Hx. apply Hall. simpl. by destruct (ascii_dec x a).
Qed.

Lemma span_all f r :
  (forall x, mem x r = true -> f x = true) -> span f r = (r, "").
Proof.
  induction r as [|a r IH]; intros Hall; simpl; [done|].
  rewrite (Hall a) by (simpl; by destruct (ascii_dec a a)).
  rewrite IH; [done|].
  intros x Hx. apply Hall. simpl. by destruct (ascii_dec x a).
Qed.

(** The pieces of [split] hold no separator. *)
Lemma split_no_sep c s : Forall (fun piece => mem c piece = false) (split c s).
Proof.
  induction s as [|a s IH]; simpl.
  - by constructor.
  - destruct (ascii_dec a c) as [->|Hne].
    + by constructor.
    + destruct (split c s) as [|x xs]; simpl.
      * constructor; [|done]. simpl. destruct (ascii_dec c a); [congruence|done].
      * inversion IH as [|? ? Hx Hxs]; subst. constructor; [|done].
        simpl. destruct (ascii_dec c a); [congruence|done].
Qed.

End StrFacts.

(* ====================================================================== *)
(** * The pattern *)
(* ====================================================================== *)

Module PatternFacts.
Import Str StrFacts.
#[local] Arguments String.append !s1 s2 : simpl nomatch.

Lemma not_quote_mem s :
  (forall c, mem c s = true -> not_quote c = true) <-> quote_free s.
Proof.
  unfold quote_free. induction s as [|a s IH]; cbn [mem]; [done|]. split.
  - intros Hall. destruct (ascii_dec Json.dquote a) as [<-|Hne].
    + specialize (Hall Json.dquote). destruct (ascii_dec _ _); [|done].
      by specialize (Hall eq_refl).
    + apply IH. intros c Hc. apply Hall. by destruct (ascii_dec c a).
  - destruct (ascii_dec Json.dquote a) as [|Hne]; [done|]. intros Hs c.
    destruct (ascii_dec c a) as [->|].
    + intros _. unfold not_quote. by rewrite bool_decide_eq_false_2.
    + by apply IH.
Qed.

Lemma not_quote_false c : not_quote c = false <-> c = Json.dquote.
Proof.
  unfold not_quote. destruct (bool_decide (c = Json.dquote)) eqn:E; simpl.
  - apply bool_decide_eq_true in E. done.
  - apply bool_decide_eq_false in E. split; [done|]. intros ?. done.
Qed.

Lemma alternatives_Some kinds s k body rest :
  alternatives kinds s = Some (k, body, rest) ->
  In k kinds /\ s = k ++ "/" ++ body ++ rest /\ body <> "" /\
  quote_free body /\ stops rest.
Proof.
  induction kinds as [|k' kinds IH]; simpl; [done|].
  destruct (starts_with (k' ++ "/") s) eqn:Hstart.
  - destruct (span not_quote (drop (String.length k' + 1) s)) as [r rest0] eqn:Hspan.
    destruct (string_dec r "") as [->|Hne].
    + intros (? & ? & ?)%IH. auto.
    + intros [= <- <- <-].
      apply starts_with_inv in Hstart as [t ->].
      replace (String.length k' + 1) with (String.length (k' ++ "/")) in Hspan
        by (rewrite length_app; done).
      rewrite drop_app in Hspan.
      apply span_spec in Hspan as (-> & Hall & Hstop).
      split; [by left|]. split; [by rewrite app_assoc|]. split; [done|].
      split; [by apply not_quote_mem|].
      destruct rest0; [done|]. by apply not_quote_false.
  - intros (? & ? & ?)%IH. auto.
Qed.

Lemma alternatives_hit kinds k x v :
  In k kinds -> not_quote x = true ->
  alternatives kinds (k ++ "/" ++ String x v) <> None.
Proof.
  intros Hin Hx. induction kinds as [|k' kinds IH]; cbn [alternatives]; [done|].
  destruct (starts_with (k' ++ "/") _) eqn:Hstart.
  - destruct (span not_quote _) as [r rest0] eqn:Hspan.
    destruct (string_dec r "") as [->|Hne]; [|done].
    destruct (string_dec k' k) as [->|Hk].
    + replace (String.length k + 1) with (String.length (k ++ "/")) in Hspan
        by (rewrite length_app; done).
      rewrite <- app_assoc, drop_app in Hspan. cbn [span] in Hspan.
      rewrite Hx in Hspan. destruct (span not_quote v). done.
    + apply IH. by destruct Hin.
  - destruct Hin as [->|Hin]; [|by apply IH].
    by rewrite <- app_assoc, starts_with_app in Hstart.
Qed.

(** What a match is made of. *)
Lemma matchAt_Some s m rest :
  matchAt s = Some (m, rest) ->
  exists k body,
    In k KINDS /\ m = header k ++ body /\ s = m ++ rest /\
    body <> "" /\ quote_free body /\ stops rest.
Proof.
  unfold matchAt. destruct (starts_with "#/components/" s) eqn:Hstart; [|done].
  apply starts_with_inv in Hstart as [t ->].
  change (drop 13 ("#/components/" ++ t)) with t.
  destruct (alternatives KINDS t) as [[[k body] rest0]|] eqn:Halt; [|done].
  intros [= <- <-].
  apply alternatives_Some in Halt as (Hin & -> & Hne & Hq & Hstop).
  exists k, body. unfold header.
  split; [done|]. split; [by rewrite !app_assoc|].
  split; [simpl; rewrite ?app_assoc; simpl; done|done].
Qed.

(** The pattern matches wherever a header is followed by a character that
    is no double quote. *)
Lemma matchAt_hit k x v :
  In k KINDS -> not_quote x = true -> matchAt (header k ++ String x v) <> None.
Proof.
  intros Hin Hx. unfold matchAt, header. rewrite !app_assoc.
  rewrite starts_with_app.
  change (drop 13 ("#/components/" ++ ?t)) with t.
  pose proof (alternatives_hit KINDS k x v Hin Hx) as Hhit.
  by destruct (alternatives KINDS _) as [[[? ?] ?]|].
Qed.

End PatternFacts.

(* ====================================================================== *)
(** * The scan from left to right *)
(* ====================================================================== *)

Module ScanFacts.
Import Str StrFacts PatternFacts.
#[local] Arguments String.append !s1 s2 : simpl nomatch.

Lemma matchAll_from_skip a rest :
  matchAll_from (String.length a) (a ++ rest) = matchAll_from 0 rest.
Proof. induction a as [|c a IH]; simpl; [by destruct rest|done]. Qed.

Lemma rewriteOnce_from_skip a rest :
  rewriteOnce_from (String.length a) (a ++ rest) = rewriteOnce_from 0 rest.
Proof. induction a as [|c a IH]; simpl; [by destruct rest|done]. Qed.

Lemma matchAt_nonempty s m rest : matchAt s = Some (m, rest) -> m <> "".
Proof.
  intros (k & body & _ & -> & _)%matchAt_Some. unfold header. done.
Qed.

Lemma matchAt_app s m rest : matchAt s = Some (m, rest) -> s = m ++ rest.
Proof. by intros (k & body & _ & _ & -> & _)%matchAt_Some. Qed.

(** After a match the search resumes where the match ends. *)
Lemma matchAll_match s m rest :
  matchAt s = Some (m, rest) -> matchAll s = m :: matchAll rest.
Proof.
  intros Hm. pose proof (matchAt_nonempty _ _ _ Hm) as Hne.
  pose proof (matchAt_app _ _ _ Hm) as ->.
  destruct m as [|c m]; [done|]. unfold matchAll.
  change (String c m ++ rest) with (String c (m ++ rest)) in *.
  cbn [matchAll_from]. rewrite Hm.
  replace (String.length (String c m) - 1) with (String.length m) by (simpl; lia).
  by rewrite matchAll_from_skip.
Qed.

Lemma rewriteOnce_match s m rest :
  matchAt s = Some (m, rest) ->
  rewriteOnce s = refName m ++ ".json" ++ rewriteOnce rest.
Proof.
  intros Hm. pose proof (matchAt_nonempty _ _ _ Hm) as Hne.
  pose proof (matchAt_app _ _ _ Hm) as ->.
  destruct m as [|c m]; [done|]. unfold rewriteOnce.
  change (String c m ++ rest) with (String c (m ++ rest)) in *.
  cbn [rewriteOnce_from]. rewrite Hm.
  replace (String.length (String c m) - 1) with (String.length m) by (simpl; lia).
  by rewrite rewriteOnce_from_skip.
Qed.

Lemma matchAll_step c t :
  matchAt (String c t) = None -> matchAll (String c t) = matchAll t.
Proof. intros Hm. unfold matchAll. cbn [matchAll_from]. by rewrite Hm. Qed.

Lemma rewriteOnce_step c t :
  matchAt (String c t) = None -> rewriteOnce (String c t) = String c (rewriteOnce t).
Proof. intros Hm. unfold rewriteOnce. cbn [rewriteOnce_from]. by rewrite Hm. Qed.

(** Induction along the scan: one character at a time where the pattern
    does not match, one match at a time where it does. *)
Lemma scan_ind (P : string -> Prop) :
  P "" ->
  (forall c t, matchAt (String c t) = None -> P t -> P (String c t)) ->
  (forall m rest, matchAt (m ++ rest) = Some (m, rest) -> P rest -> P (m ++ rest)) ->
  forall s, P s.
Proof.
  intros Hnil Hstep Hmatch s.
  assert (Hall : forall n s, String.length s <= n -> P s); [|by apply (Hall (String.length s))].
  clear s. induction n as [|n IH]; intros s Hlen.
  - destruct s; [done|simpl in Hlen; lia].
  - destruct s as [|c t]; [done|].
    destruct (matchAt (String c t)) as [[m rest]|] eqn:Hm.
    + pose proof (matchAt_nonempty _ _ _ Hm) as Hne.
      pose proof (matchAt_app _ _ _ Hm) as Heq. rewrite Heq in Hm |- *.
      apply Hmatch; [done|]. apply IH.
      apply (f_equal String.length) in Heq. rewrite length_app in Heq.
      destruct m; [done|]. simpl in *. lia.
    + apply Hstep; [done|]. apply IH. simpl in Hlen. lia.
Qed.

End ScanFacts.

(* ====================================================================== *)
(** * The rewriting of references *)
(* ====================================================================== *)

Module RewriteFacts.
Import Str StrFacts PatternFacts ScanFacts.
#[local] Arguments String.append !s1 s2 : simpl nomatch.

Lemma getSubstitution_plain matched before after template :
  mem "$"%char template = false ->
  getSubstitution matched before after template = template.
Proof.
  induction template as [|a t IH]; cbn [mem getSubstitution]; [done|].
  destruct (ascii_dec "$"%char a) as [<-|Hne]; [done|]. intros Ht.
  destruct (ascii_dec a "$"%char) as [->|_]; [done|]. by rewrite IH.
Qed.

Lemma last_Forall {A} (P : A -> Prop) (l : list A) (d : A) :
  P d -> Forall P l -> P (List.last l d).
Proof.
  intros Hd Hl. induction Hl as [|x l Hx Hl IH]; [done|].
  destruct l; [done|]. exact IH.
Qed.

Lemma refName_slash_free ref : slash_free (refName ref).
Proof.
  unfold refName. apply (last_Forall slash_free); [done|]. apply split_no_sep.
Qed.

Lemma replace_from_eq before s search template :
  replace_from before s search template =
    if starts_with search s then
      Some (before
            ++ getSubstitution search before (drop (String.length search) s) template
            ++ drop (String.length search) s)
    else
      match s with
      | EmptyString => None
      | String c t => replace_from (before ++ String c EmptyString) t search template
      end.
Proof. by destruct s. Qed.

(** [replace] finds a match where the scan is: at the first position
    that is not clear. *)
Lemma replace_from_clear m rest template pre : forall before,
  (forall u, starts_with m u = true -> matchAt u <> None) ->
  clear_at pre (m ++ rest) ->
  replace_from before (pre ++ m ++ rest) m template =
    Some ((before ++ pre)
          ++ getSubstitution m (before ++ pre) rest template ++ rest).
Proof.
  intros before Hhit. revert before.
  induction pre as [|c pre IH]; intros before Hclear.
  - rewrite replace_from_eq. cbn [String.append].
    by rewrite starts_with_app, drop_app, app_nil_r.
  - destruct Hclear as [Hnone Hclear].
    rewrite replace_from_eq.
    destruct (starts_with m (String c pre ++ m ++ rest)) eqn:Hstart.
    + by apply Hhit in Hstart.
    + change (String c pre ++ m ++ rest) with (String c (pre ++ m ++ rest)).
      cbv iota. rewrite IH by done.
      by rewrite !(app_assoc before (String c "") pre).
Qed.

(** A text that starts with a match is matched. *)
Lemma match_hits s m rest :
  matchAt s = Some (m, rest) ->
  forall u, starts_with m u = true -> matchAt u <> None.
Proof.
  intros (k & body & Hin & -> & _ & Hne & Hq & _)%matchAt_Some u [v ->]%starts_with_inv.
  destruct body as [|x body]; [done|].
  rewrite app_assoc.
  change (String x body ++ v) with (String x (body ++ v)).
  apply matchAt_hit; [done|].
  apply (proj2 (not_quote_mem _) Hq). cbn [mem]. by destruct (ascii_dec x x).
Qed.

Lemma clear_at_snoc pre c t :
  clear_at pre (String c t) -> matchAt (String c t) = None ->
  clear_at (pre ++ String c "") t.
Proof.
  intros Hclear Hnone. induction pre as [|a pre IH]; cbn [String.append clear_at].
  - done.
  - destruct Hclear as [Ha Hclear]. split; [|by apply IH].
    change (String a (pre ++ String c "") ++ t)
      with (String a ((pre ++ String c "") ++ t)).
    by rewrite app_assoc.
Qed.

(** A text that is clear from its start to its end has no match. *)
Lemma clear_at_no_match s : clear_at s "" -> no_match s.
Proof.
  unfold no_match. induction s as [|c s IH]; [done|].
  intros [Hnone Hclear]. rewrite app_nil_r in Hnone.
  rewrite matchAll_step by done. by apply IH.
Qed.

(** The shape of a header. *)
Lemma KINDS_quote_free : Forall quote_free KINDS.
Proof. unfold KINDS. repeat constructor. Qed.

Lemma header_quote_free k : In k KINDS -> quote_free (header k).
Proof.
  intros Hin. unfold quote_free, header. rewrite !mem_app.
  assert (Hk : quote_free k).
  { pose proof KINDS_quote_free as Hall. rewrite Forall_forall in Hall.
    by apply Hall, list_elem_of_In. }
  unfold quote_free in Hk. by rewrite Hk.
Qed.

Lemma header_tail_has_slash k b e :
  header k = b ++ e -> e <> "" -> mem Path.slash e = true.
Proof.
  unfold header. rewrite <- app_assoc. intros Heq Hne.
  symmetry in Heq. apply app_eq_app in Heq as [(f & Hb & He)|(f & Hb & He)].
  - subst e. rewrite mem_app. apply orb_true_intro. by right.
  - destruct f as [|x f]; cbn [String.append] in He.
    + by subst e.
    + injection He as <- He. by destruct f.
Qed.

(** Where the pattern matches, a header is followed by a character that
    is no double quote. *)
Lemma matchAt_inv u :
  matchAt u <> None ->
  exists k x v, In k KINDS /\ not_quote x = true /\ u = header k ++ String x v.
Proof.
  destruct (matchAt u) as [[m rest]|] eqn:Hm; [intros _|done].
  apply matchAt_Some in Hm as (k & body & Hin & -> & -> & Hne & Hq & _).
  destruct body as [|x body]; [done|].
  exists k, x, (body ++ rest). split; [done|]. split.
  - apply (proj2 (not_quote_mem _) Hq). cbn [mem]. by destruct (ascii_dec x x).
  - by rewrite app_assoc.
Qed.

Lemma header_starts k : exists h, header k = String "#" (String "/" h).
Proof. unfold header. cbn [String.append]. eauto. Qed.

Lemma match_starts s m rest :
  matchAt s = Some (m, rest) -> exists m', m = String "#" m'.
Proof.
  intros (k & body & _ & -> & _)%matchAt_Some.
  destruct (header_starts k) as [h ->]. cbn [String.append]. eauto.
Qed.

(** What replaces a match holds no slash and ends where the match ended:
    the pattern matches nowhere in it. *)
Lemma clear_after r rest : slash_free r -> stops rest -> clear_at r rest.
Proof.
  unfold slash_free. induction r as [|c r IH]; [done|]. cbn [mem clear_at].
  destruct (ascii_dec Path.slash c) as [|Hc]; [done|]. intros Hr Hstop.
  split; [|by apply IH].
  destruct (matchAt (String c r ++ rest)) as [mr|] eqn:Hm; [exfalso|done].
  assert (Hsome : matchAt (String c r ++ rest) <> None) by (by rewrite Hm).
  apply matchAt_inv in Hsome as (k & x & v & _ & _ & Heq).
  destruct (header_starts k) as [h Hh]. rewrite Hh in Heq.
  cbn [String.append] in Heq. injection Heq as -> Heq.
  destruct r as [|a r]; cbn [String.append] in Heq.
  - subst rest. cbn in Hstop. discriminate Hstop.
  - injection Heq as -> _. cbn [mem] in Hr.
    by destruct (ascii_dec Path.slash "/"%char).
Qed.

(** A position before a match that was clear stays clear when the match
    is replaced. *)
Lemma clear_swap b m rest r :
  matchAt (m ++ rest) = Some (m, rest) ->
  slash_free r ->
  matchAt (b ++ m ++ rest) = None ->
  matchAt (b ++ r ++ rest) = None.
Proof.
  intros Hm Hr Hnone.
  destruct (match_starts _ _ _ Hm) as [m' ->].
  pose proof Hm as (_ & _ & _ & _ & _ & _ & _ & Hstop)%matchAt_Some.
  assert (Hsharp : not_quote "#"%char = true) by done.
  destruct (matchAt (b ++ r ++ rest)) as [mr|] eqn:Hswap; [exfalso|done].
  assert (Hsome : matchAt (b ++ r ++ rest) <> None) by (by rewrite Hswap).
  apply matchAt_inv in Hsome as (k & x & v & Hin & Hx & Heq).
  apply app_eq_app in Heq as [(e & Hh & Hrest)|(e & Hb & Hv)].
  - destruct e as [|y e].
    + rewrite app_nil_r in Hh. subst b.
      by apply (matchAt_hit k "#"%char (m' ++ rest)) in Hin.
    + assert (Hslash : mem Path.slash (String y e) = true)
        by (by apply (header_tail_has_slash k b)).
      apply app_eq_app in Hrest as [(f & He & Hf)|(f & He & _)].
      * rewrite He, mem_app, Hr in Hslash. cbn [orb] in Hslash.
        destruct f as [|q f]; [done|].
        subst rest. cbn [String.append stops] in Hstop. subst q.
        pose proof (header_quote_free k Hin) as Hq. unfold quote_free in Hq.
        rewrite Hh, He, !mem_app in Hq. cbn [mem] in Hq.
        destruct (ascii_dec Json.dquote Json.dquote); [|done].
        by rewrite !orb_true_r in Hq.
      * unfold slash_free in Hr. rewrite He, mem_app, Hslash in Hr. done.
  - subst b. rewrite app_assoc in Hnone.
    destruct e as [|y e]; cbn [String.append] in Hnone, Hv.
    + by apply (matchAt_hit k "#"%char (m' ++ rest)) in Hin.
    + injection Hv as <- _.
      by apply (matchAt_hit k x (e ++ String "#" m' ++ rest)) in Hin.
Qed.

Lemma clear_at_replace pre m rest r :
  matchAt (m ++ rest) = Some (m, rest) ->
  slash_free r ->
  clear_at pre (m ++ rest) ->
  clear_at (pre ++ r) rest.
Proof.
  intros Hm Hr. induction pre as [|c pre IH]; cbn [String.append clear_at].
  - intros _. apply clear_after; [done|].
    by pose proof Hm as (_ & _ & _ & _ & _ & _ & _ & Hstop)%matchAt_Some.
  - intros [Hnone Hclear]. split; [|by apply IH].
    change (String c (pre ++ r) ++ rest) with ((String c pre ++ r) ++ rest).
    rewrite app_assoc. exact (clear_swap (String c pre) m rest r Hm Hr Hnone).
Qed.

Lemma template_plain ref :
  dollar_free ref -> mem "$"%char (refName ref ++ ".json") = false.
Proof. unfold dollar_free. intros Hd. by rewrite mem_app, Hd. Qed.

Lemma template_slash_free ref : slash_free (refName ref ++ ".json").
Proof.
  unfold slash_free. rewrite mem_app.
  pose proof (refName_slash_free ref) as Hr. unfold slash_free in Hr.
  by rewrite Hr.
Qed.

(** The loop of [processSchema] over the matches, from a text whose
    first part [pre] is already rewritten and clear: it ends with the text
    that one pass gives, and the pattern matches nowhere in it. *)
Lemma rewrite_scan s : forall pre,
  clear_at pre s ->
  Forall dollar_free (matchAll s) ->
  fold_left (fun acc ref => replace acc ref (refName ref ++ ".json"))
    (matchAll s) (pre ++ s) = pre ++ rewriteOnce s /\
  clear_at (pre ++ rewriteOnce s) "".
Proof.
  induction s as [|c t Hnone IH|m rest Hm IH] using scan_ind; intros pre Hclear Hplain.
  - cbn [matchAll matchAll_from fold_left rewriteOnce rewriteOnce_from].
    split; [done|]. by rewrite app_nil_r.
  - rewrite matchAll_step in * by done. rewrite rewriteOnce_step by done.
    destruct (IH (pre ++ String c "") (clear_at_snoc _ _ _ Hclear Hnone) Hplain)
      as [Hfold Hfinal].
    rewrite (app_assoc pre (String c "") t) in Hfold.
    rewrite (app_assoc pre (String c "") (rewriteOnce t)) in Hfold, Hfinal.
    done.
  - rewrite (matchAll_match _ _ _ Hm) in *. rewrite (rewriteOnce_match _ _ _ Hm).
    apply Forall_cons in Hplain as [Hm_plain Hplain].
    cbn [fold_left]. unfold replace at 2.
    rewrite (replace_from_clear m rest _ pre "" (match_hits _ _ _ Hm) Hclear).
    cbn [String.append default].
    rewrite (getSubstitution_plain _ _ _ _ (template_plain _ Hm_plain)).
    destruct (IH (pre ++ refName m ++ ".json")
                (clear_at_replace _ _ _ _ Hm (template_slash_free m) Hclear) Hplain)
      as [Hfold Hfinal].
    rewrite (app_assoc pre _ rest) in Hfold.
    rewrite (app_assoc pre _ (rewriteOnce rest)) in Hfold, Hfinal.
    rewrite (app_assoc (refName m) ".json" (rewriteOnce rest)) in Hfold, Hfinal.
    exact (conj Hfold Hfinal).
Qed.

End RewriteFacts.

(** C3 (as the code has it): in a text in which the last segment of no
    match holds a [$], the loop of [processSchema] replaces every match of
    the pattern, from left to right and occurrence by occurrence, by its
    last segment followed by [.json], and leaves every other character as
    it is: it gives what one pass gives. *)
Theorem rewriteRefs_rewrites_every_match s :
  Forall dollar_free (matchAll s) ->
  rewriteRefs s = rewriteOnce s.
Proof.
  intros Hplain. unfold rewriteRefs.
  destruct (RewriteFacts.rewrite_scan s "" I Hplain) as [Hfold _].
  exact Hfold.
Qed.

Lemma rewriteRefs_rewrites_every_match_witness :
  let s := Json.quote "#/components/schemas/Pet" ++ ", "
           ++ Json.quote "#/definitions/Pet" ++ ", "
           ++ Json.quote "#/components/schemas/Pet" ++ ", "
           ++ Json.quote "#/components/widgets/Pet" ++ ", "
           ++ Json.quote "#/components/responses/NotFound/content" in
  Forall dollar_free (matchAll s) /\
  rewriteRefs s = rewriteOnce s.
Proof.
  intros s.
  assert (Hplain : Forall dollar_free (matchAll s)) by (vm_compute; repeat constructor).
  split; [exact Hplain|].
  exact (rewriteRefs_rewrites_every_match s Hplain).
Defined.

(** C3 as stated fails: a reference that does not start with
    [#/components/] but holds it further on is rewritten from there. *)
Lemma rewriteRefs_changes_external_reference :
  ~ (forall ref,
       Str.starts_with "#/components/" ref = false ->
       rewriteRefs (Json.quote ref) = Json.quote ref).
Proof.
  intros Hclaim.
  specialize (Hclaim "common.yaml#/components/schemas/Error" eq_refl).
  vm_compute in Hclaim. discriminate Hclaim.
Qed.

(** A text in which the pattern matches nowhere is left as it is. *)
Lemma rewriteRefs_no_match s : no_match s -> rewriteRefs s = s.
Proof. unfold no_match, rewriteRefs. by intros ->. Qed.

(** After the rewriting the pattern matches nowhere. *)
Lemma rewriteRefs_clear s :
  Forall dollar_free (matchAll s) -> no_match (rewriteRefs s).
Proof.
  intros Hplain.
  destruct (RewriteFacts.rewrite_scan s "" I Hplain) as [Hfold Hclear].
  apply RewriteFacts.clear_at_no_match. unfold rewriteRefs.
  change ("" ++ s) with s in Hfold. rewrite Hfold. exact Hclear.
Qed.

(** With a [$] pattern in the last segment the loop gives something else
    than the one pass: [$&] is replaced by the match itself. *)
Lemma rewriteRefs_dollar_pattern :
  let s := Json.quote "#/components/schemas/a$&b" in
  rewriteRefs s = Json.quote "a#/components/schemas/a$&bb.json" /\
  rewriteOnce s = Json.quote "a$&b.json".
Proof. vm_compute. split; reflexivity. Qed.

(* ====================================================================== *)
(** * More about [adaptSchema] *)
(* ====================================================================== *)

Module AdaptFacts.
Import Obj ObjFacts.

Lemma del_absent k ps : has k ps = false -> del k ps = ps.
Proof.
  induction ps as [|[a x] ps IH]; cbn [has del]; [done|].
  destruct (string_dec k a); [done|]. intros Hno. by rewrite IH.
Qed.

Lemma replace_same k v ps : get k ps = v -> replace k v ps = ps.
Proof.
  induction ps as [|[a x] ps IH]; cbn [get replace]; [done|].
  destruct (string_dec k a); [by intros ->|]. intros Hget. by rewrite IH.
Qed.

Lemma set_same k v ps : has k ps = true -> get k ps = v -> set k v ps = ps.
Proof. unfold set. intros -> Hget. by apply replace_same. Qed.

(** [adaptSchema] on an object or an array. *)
Lemma adaptSchema_eq schema name filename :
  is_object schema = true ->
  adaptSchema schema name filename =
    (let* isDate := has_date_format schema in
     Ok (with_own schema (annotate isDate name filename (own schema)))).
Proof.
  unfold adaptSchema, has_date_format, annotate.
  destruct schema as [| | | | |es named|ps]; try discriminate; intros _; simpl;
    rewrite !get_set, get_del by done; simpl.
  - by destruct (format_includes_date (get "format" named)) as [[]| |].
  - by destruct (format_includes_date (get "format" ps)) as [[]| |].
Qed.

Lemma annotate_twice isDate name filename ps :
  annotate isDate name filename (annotate isDate name filename ps)
  = annotate isDate name filename ps.
Proof.
  unfold annotate. destruct isDate.
  - rewrite (del_absent "$schema") by (by rewrite !has_set, has_del).
    rewrite (set_same "title") by (by rewrite ?has_set, ?get_set).
    rewrite (set_same "$id") by (by rewrite ?has_set, ?get_set).
    by rewrite (set_same "tsType") by (by rewrite ?has_set, ?get_set).
  - rewrite (del_absent "$schema") by (by rewrite !has_set, has_del).
    rewrite (set_same "title") by (by rewrite ?has_set, ?get_set).
    by rewrite (set_same "$id") by (by rewrite ?has_set, ?get_set).
Qed.

Lemma has_date_format_annotate schema isDate name filename :
  is_object schema = true ->
  has_date_format (with_own schema (annotate isDate name filename (own schema)))
  = has_date_format schema.
Proof.
  intros Hobj. unfold has_date_format.
  rewrite !getProp_named by (done || by apply is_object_with_own).
  rewrite own_with_own by done. unfold annotate.
  destruct isDate; by rewrite !get_set, get_del.
Qed.

Lemma with_own_twice v ps ps' :
  with_own (with_own v ps) ps' = with_own v ps'.
Proof. by destruct v. Qed.

End AdaptFacts.

(** X1: adapting a schema that is already adapted, with the same name and
    file name, changes nothing. *)
Theorem adaptSchema_idempotent schema name filename adapted :
  adaptSchema schema name filename = Ok adapted ->
  adaptSchema adapted name filename = Ok adapted.
Proof.
  intros Hrun.
  destruct (adaptSchema_Ok _ _ _ _ Hrun) as (isDate & Hobj & Hdate & _).
  rewrite AdaptFacts.adaptSchema_eq, Hdate in Hrun by done.
  injection Hrun as <-.
  rewrite AdaptFacts.adaptSchema_eq by (by apply is_object_with_own).
  rewrite AdaptFacts.has_date_format_annotate, Hdate by done. cbn [bind].
  rewrite own_with_own by done.
  by rewrite AdaptFacts.with_own_twice, AdaptFacts.annotate_twice.
Qed.

Lemma adaptSchema_idempotent_witness :
  let schema := VObj [("$schema", VStr "x"); ("type", VStr "string");
                      ("format", VStr "date-time")] in
  exists adapted,
    adaptSchema schema (VStr "Created At") "Created At" = Ok adapted /\
    adaptSchema adapted (VStr "Created At") "Created At" = Ok adapted.
Proof.
  intros schema. eexists. split; [reflexivity|].
  apply (adaptSchema_idempotent schema). reflexivity.
Defined.

(** X2: a schema that is neither an object nor an array cannot be
    adapted: the call throws a [TypeError]. *)
Theorem adaptSchema_rejects_primitives schema name filename :
  is_object schema = false ->
  adaptSchema schema name filename = Throw TypeError.
Proof. by destruct schema. Qed.

Lemma adaptSchema_rejects_primitives_witness :
  adaptSchema (VStr "oops") (VStr "Foo") "Foo" = Throw TypeError /\
  adaptSchema VNull (VStr "Foo") "Foo" = Throw TypeError.
Proof.
  split; by apply adaptSchema_rejects_primitives.
Defined.

(* ====================================================================== *)
(** * Names: the characters kept, the dashes trimmed, the last segment *)
(* ====================================================================== *)

Module NameFacts.
Import Str StrFacts.
#[local] Arguments String.append !s1 s2 : simpl nomatch.

Lemma keep_keep f s : keep f (keep f s) = keep f s.
Proof.
  induction s as [|a s IH]; cbn [keep]; [done|].
  destruct (f a) eqn:Hfa; cbn [keep]; [|done]. by rewrite Hfa, IH.
Qed.

Lemma keep_mem f s c : mem c (keep f s) = true -> f c = true.
Proof.
  induction s as [|a s IH]; cbn [keep mem]; [done|].
  destruct (f a) eqn:Hfa; [|done]. cbn [mem].
  destruct (ascii_dec c a) as [->|]; [done|]. exact IH.
Qed.

Lemma keep_all f s : (forall c, mem c s = true -> f c = true) -> keep f s = s.
Proof.
  induction s as [|a s IH]; cbn [keep mem]; [done|]. intros Hall.
  rewrite (Hall a) by (by destruct (ascii_dec a a)).
  rewrite IH; [done|]. intros c Hc. apply Hall. by destruct (ascii_dec c a).
Qed.

Lemma map_char_mem f s c :
  mem c (map_char f s) = true -> exists a, mem a s = true /\ c = f a.
Proof.
  induction s as [|a s IH]; cbn [map_char mem]; [done|].
  destruct (ascii_dec c (f a)) as [->|].
  - intros _. exists a. by destruct (ascii_dec a a).
  - intros (b & Hb & ->)%IH. exists b. by destruct (ascii_dec b a).
Qed.

Lemma split_nonempty c s : split c s <> [].
Proof.
  destruct s as [|a s]; cbn [split]; [done|].
  destruct (ascii_dec a c); [done|]. by destruct (split c s).
Qed.

(** The last piece of [split] is the end of the text, after the last
    separator if there is one. *)
Lemma split_last c s :
  exists pre,
    s = pre ++ List.last (split c s) "" /\
    match split c s with
    | [_] => pre = ""
    | _ => exists pre', pre = pre' ++ String c ""
    end.
Proof.
  induction s as [|a s (pre & Heq & Hpre)]; cbn [split].
  - by exists "".
  - pose proof (split_nonempty c s) as Hne.
    destruct (ascii_dec a c) as [->|Hac].
    + exists (String c pre). destruct (split c s) as [|x [|y l]]; [done| |].
      * subst pre. cbn [List.last String.append] in *. split; [by f_equal|].
        by exists "".
      * destruct Hpre as [pre' ->]. split.
        -- cbn [String.append]. f_equal. exact Heq.
        -- by exists (String c pre').
    + destruct (split c s) as [|x [|y l]]; [done| |].
      * subst pre. exists "". cbn [List.last String.append] in *. split; [by f_equal|done].
      * destruct Hpre as [pre' ->]. exists (String a (pre' ++ String c "")). split.
        -- cbn [String.append]. f_equal. exact Heq.
        -- by exists (String a pre').
Qed.

Lemma trimStart_spec s chars :
  exists dashes,
    s = dashes ++ _trimStart s chars /\
    (forall c, mem c dashes = true -> mem c chars = true) /\
    match _trimStart s chars with
    | EmptyString => True
    | String c _ => mem c chars = false
    end.
Proof.
  induction s as [|a s (dashes & Heq & Hall & Hhead)]; cbn [_trimStart].
  - by exists "".
  - destruct (mem a chars) eqn:Ha.
    + exists (String a dashes). split; [cbn [String.append]; by f_equal|].
      split; [|done]. intros c. cbn [mem].
      destruct (ascii_dec c a) as [->|]; [done|]. apply Hall.
    + by exists "".
Qed.

End NameFacts.

(** X3: removing the characters that are invalid in a URI leaves only
    valid ones, changes nothing when done again, and changes nothing at all
    in a text that holds none. *)
Theorem strip_invalid_uri_chars_spec s :
  (forall c, Str.mem c (strip_invalid_uri_chars s) = true -> valid_uri_char c = true) /\
  strip_invalid_uri_chars (strip_invalid_uri_chars s) = strip_invalid_uri_chars s /\
  ((forall c, Str.mem c s = true -> valid_uri_char c = true) ->
   strip_invalid_uri_chars s = s).
Proof.
  unfold strip_invalid_uri_chars. split; [|split].
  - intros c. apply NameFacts.keep_mem.
  - apply NameFacts.keep_keep.
  - apply NameFacts.keep_all.
Qed.

(** X4: the last segment that a rewritten reference is named after is
    the end of the reference: it holds no slash, and what is before it is
    empty or ends with a slash. *)
Theorem refName_is_last_segment ref :
  slash_free (refName ref) /\
  exists pre,
    ref = pre ++ refName ref /\
    (pre = "" \/ exists pre', pre = pre' ++ "/").
Proof.
  split; [apply RewriteFacts.refName_slash_free|].
  unfold refName.
  destruct (NameFacts.split_last Path.slash ref) as (pre & Heq & Hpre).
  exists pre. split; [exact Heq|].
  destruct (Str.split Path.slash ref) as [|x [|y l]]; auto.
Qed.

Section FileNames.
Context `{Collaborators}.

(** X5: [getFilename] fails exactly as [filenamify] does; when
    [filenamify] returns, what [formatFileName] is given is its result
    without the dashes it starts with, and does not start with a dash. *)
Theorem getFilename_trims_dashes name :
  match filenamify name with
  | Ok safe =>
      exists dashes trimmed,
        safe = dashes ++ trimmed /\
        (forall c, Str.mem c dashes = true -> c = "-"%char) /\
        Str.starts_with "-" trimmed = false /\
        getFilename name = formatFileName trimmed
  | Throw e => getFilename name = Throw e
  | Exit c => getFilename name = Exit c
  end.
Proof.
  unfold getFilename. destruct (filenamify name) as [safe| |]; cbn [bind]; [|done..].
  destruct (NameFacts.trimStart_spec safe "-") as (dashes & Heq & Hall & Hhead).
  exists dashes, (_trimStart safe "-"). split; [exact Heq|]. split; [|split; [|done]].
  - intros c Hc. specialize (Hall c Hc). cbn [Str.mem] in Hall.
    by destruct (ascii_dec c "-"%char).
  - destruct (_trimStart safe "-") as [|c t]; [done|].
    cbn [Str.starts_with]. cbn [Str.mem] in Hhead.
    destruct (ascii_dec "-"%char c) as [<-|]; [|done].
    by destruct (ascii_dec "-"%char "-"%char).
Qed.

(** X6: the file name stem that [processPathSchemas] derives from a path
    holds no slash and only characters that are valid in a URI, and the
    folder it derives holds only such characters. *)
Theorem processEndpoint_names schemasPath endpoint endpointOptions w :
  let pathFolder := strip_invalid_uri_chars endpoint in
  let baseFilename :=
    Str.map_char (fun c => if ascii_dec c "/"%char then "_"%char else c) pathFolder in
  processEndpoint schemasPath (endpoint, endpointOptions) w =
    (do* l := lift (entries endpointOptions) in
     forEachOption schemasPath pathFolder baseFilename l) w /\
  Str.mem "/"%char baseFilename = false /\
  (forall c, Str.mem c baseFilename = true -> valid_uri_char c = true) /\
  (forall c, Str.mem c pathFolder = true -> valid_uri_char c = true).
Proof.
  intros pathFolder baseFilename. split; [reflexivity|]. split; [|split].
  - destruct (Str.mem "/"%char baseFilename) eqn:Hmem; [exfalso|done].
    apply NameFacts.map_char_mem in Hmem as (a & _ & Ha).
    by destruct (ascii_dec a "/"%char).
  - intros c (a & Ha & ->)%NameFacts.map_char_mem.
    destruct (ascii_dec a "/"%char); [done|].
    by apply NameFacts.keep_mem in Ha.
  - intros c. apply NameFacts.keep_mem.
Qed.

End FileNames.

(* ====================================================================== *)
(** * The keywords of a run *)
(* ====================================================================== *)

Module KeywordFacts.

Lemma str_in_spec k l : str_in k l = true <-> k ∈ l.
Proof.
  unfold str_in. rewrite existsb_exists. split.
  - intros (x & Hin & Heq). apply bool_decide_eq_true in Heq as ->.
    by apply list_elem_of_In.
  - intros Hin. exists k. split; [by apply list_elem_of_In|].
    by apply bool_decide_eq_true.
Qed.

Lemma dedupe_elem l : forall seen x,
  x ∈ dedupe seen l <-> x ∈ l /\ x ∉ seen.
Proof.
  induction l as [|a l IH]; intros seen x; cbn [dedupe].
  - split; [by intros ?%elem_of_nil|by intros [?%elem_of_nil _]].
  - destruct (str_in a seen) eqn:Ha.
    + apply str_in_spec in Ha. rewrite IH, elem_of_cons. split; [tauto|].
      intros [[->|Hin] Hno]; [done|tauto].
    + assert (Hno : a ∉ seen).
      { intros Hin%str_in_spec. congruence. }
      rewrite !elem_of_cons, IH, elem_of_cons. split.
      * intros [->|[Hin Hseen]]; [tauto|]. split; [tauto|]. tauto.
      * intros [[->|Hin] Hseen]; [tauto|].
        destruct (decide (x = a)) as [->|Hne]; [tauto|]. right. split; [done|].
        intros [?|?]; tauto.
Qed.

Lemma dedupe_NoDup l : forall seen, NoDup (dedupe seen l).
Proof.
  induction l as [|a l IH]; intros seen; cbn [dedupe]; [constructor|].
  destruct (str_in a seen); [apply IH|].
  constructor; [|apply IH].
  intros [_ Hno]%dedupe_elem. apply Hno. by left.
Qed.

End KeywordFacts.

(** X7: the keywords of a run hold each keyword once; they are the
    keywords asked for, cut at the commas, and [components.schemas]. *)
Theorem keywordsOf_spec propertiesToExport :
  NoDup (keywordsOf propertiesToExport) /\
  forall k,
    k ∈ keywordsOf propertiesToExport <->
    k = "components.schemas" \/
    exists p, propertiesToExport = Some p /\ k ∈ Str.split ","%char p.
Proof.
  unfold keywordsOf. split; [apply KeywordFacts.dedupe_NoDup|].
  intros k. rewrite KeywordFacts.dedupe_elem, elem_of_app, list_elem_of_singleton.
  split.
  - intros [[Hin| ->] _]; [right|by left].
    destruct propertiesToExport as [p|]; [eauto|by apply elem_of_nil in Hin].
  - intros [->|(p & -> & Hin)]; (split; [tauto|apply not_elem_of_nil]).
Qed.

(* ====================================================================== *)
(** * More about the matches and the rewriting *)
(* ====================================================================== *)

(** X8: every match that the pattern finds in a text is a part of the
    text, starts with [#/components/<kind>/] for a kind of the list, and
    goes on with at least one character, none of them a double quote. *)
Theorem matchAll_matches s m :
  m ∈ matchAll s ->
  (exists before after, s = before ++ m ++ after) /\
  exists kind rest,
    In kind KINDS /\ m = header kind ++ rest /\ rest <> "" /\ quote_free rest.
Proof.
  induction s as [|c t Hnone IH|m0 rest Hm IH] using ScanFacts.scan_ind.
  - by intros ?%elem_of_nil.
  - rewrite ScanFacts.matchAll_step by done.
    intros [[before [after ->]] Hshape]%IH. split; [|done].
    by exists (String c before), after.
  - rewrite (ScanFacts.matchAll_match _ _ _ Hm).
    intros [->|Hin]%elem_of_cons.
    + split; [by exists "", rest|].
      apply PatternFacts.matchAt_Some in Hm
        as (kind & body & Hin & Heq & _ & Hne & Hq & _).
      by exists kind, body.
    + destruct (IH Hin) as [[before [after ->]] Hshape]. split; [|done].
      exists (m0 ++ before), after. by rewrite StrFacts.app_assoc.
Qed.

Lemma matchAll_matches_witness :
  let s := Json.quote "see #/components/schemas/Pet" in
  (exists before after, s = before ++ "#/components/schemas/Pet" ++ after) /\
  exists kind rest,
    In kind KINDS /\ "#/components/schemas/Pet" = header kind ++ rest /\
    rest <> "" /\ quote_free rest.
Proof.
  intros s. apply (matchAll_matches s). vm_compute. by left.
Defined.

(** X9: rewriting a text that is already rewritten changes nothing. *)
Theorem rewriteRefs_idempotent s :
  Forall dollar_free (matchAll s) ->
  rewriteRefs (rewriteRefs s) = rewriteRefs s.
Proof.
  intros Hplain. apply rewriteRefs_no_match. by apply rewriteRefs_clear.
Qed.

Lemma rewriteRefs_idempotent_witness :
  let s := Json.quote "#/components/schemas/Pet" ++ ", "
           ++ Json.quote "common.yaml#/components/responses/NotFound/content" in
  rewriteRefs (rewriteRefs s) = rewriteRefs s.
Proof.
  intros s. apply rewriteRefs_idempotent. vm_compute. repeat constructor.
Defined.

(* ====================================================================== *)
(** * More about [buildSchemaFromParameters] *)
(* ====================================================================== *)

Module ParameterFacts.

Lemma addParameter_typed acc parameter :
  typed_parameter parameter = true ->
  exists acc', addParameter acc parameter = Ok acc'.
Proof.
  unfold typed_parameter, addParameter. destruct acc as [properties requiredList].
  intros [Hdef Hname]%andb_prop.
  rewrite !(getProp_defined parameter) by done. cbn [bind].
  destruct (prop parameter "name") as [| | | |n| |]; try done; cbn [truthy negb].
  - eauto.
  - destruct (negb (bool_decide (n = ""))); cbn [negb toPropertyKey bind]; eauto.
Qed.

Lemma forEachParameter_typed parameters : forall acc,
  forallb typed_parameter parameters = true ->
  exists acc', forEachParameter acc parameters = Ok acc'.
Proof.
  induction parameters as [|p ps IH]; intros acc; cbn [forallb forEachParameter].
  - eauto.
  - intros [Hp Hps]%andb_prop.
    destruct (addParameter_typed acc p Hp) as [acc1 ->]. cbn [bind]. by apply IH.
Qed.

Lemma addParameter_undefined acc parameter :
  defined parameter = false -> addParameter acc parameter = Throw TypeError.
Proof. destruct acc. by destruct parameter. Qed.

Lemma forEachParameter_undefined before : forall acc p after,
  forallb typed_parameter before = true ->
  defined p = false ->
  forEachParameter acc (before ++ p :: after)%list = Throw TypeError.
Proof.
  induction before as [|q before IH]; intros acc p after; cbn [forallb app forEachParameter].
  - intros _ Hp. by rewrite addParameter_undefined.
  - intros [Hq Hbefore]%andb_prop Hp.
    destruct (addParameter_typed acc q Hq) as [acc1 ->]. cbn [bind]. by apply IH.
Qed.

Lemma last_named_elem k parameters p :
  In p parameters -> key_of p = Some k -> is_Some (last_named k parameters).
Proof.
  induction parameters as [|q ps IH]; cbn [In last_named]; [done|].
  intros [->|Hin] Hkey.
  - destruct (last_named k ps); [done|]. by rewrite bool_decide_eq_true_2.
  - destruct (IH Hin Hkey) as [x ->]. done.
Qed.

End ParameterFacts.

(** X10: on parameters typed as their interface says (each one defined,
    its name a string or missing) [buildSchemaFromParameters] returns a
    schema; a parameter that is [null] or [undefined] after such ones
    makes it throw a [TypeError]. *)
Theorem buildSchemaFromParameters_returns parameters :
  forallb typed_parameter parameters = true ->
  (exists schema, buildSchemaFromParameters parameters = Ok schema) /\
  (forall p after,
     defined p = false ->
     buildSchemaFromParameters (parameters ++ p :: after)%list = Throw TypeError).
Proof.
  intros Htyped. unfold buildSchemaFromParameters. split.
  - destruct (ParameterFacts.forEachParameter_typed parameters ([], []) Htyped)
      as [[properties requiredList] ->].
    cbn [bind]. eauto.
  - intros p after Hp.
    by rewrite (ParameterFacts.forEachParameter_undefined parameters).
Qed.

Lemma buildSchemaFromParameters_returns_witness :
  (exists schema, buildSchemaFromParameters widgets_parameters = Ok schema) /\
  (forall p after,
     defined p = false ->
     buildSchemaFromParameters (widgets_parameters ++ p :: after)%list = Throw TypeError).
Proof.
  apply buildSchemaFromParameters_returns. reflexivity.
Defined.

(** X11: every name in the [required] list of a built schema is a key of
    its [properties] (the name [__proto__] apart). *)
Theorem buildSchemaFromParameters_required_declared parameters schema n :
  buildSchemaFromParameters parameters = Ok schema ->
  VStr n ∈ required_names parameters ->
  n <> "__proto__" ->
  prop schema "required" = VArr (required_names parameters) [] /\
  hasProp n (prop schema "properties") = Ok true.
Proof.
  unfold buildSchemaFromParameters.
  destruct (forEachParameter ([], []) parameters) as [[properties requiredList]| |] eqn:Hloop;
    cbn [bind]; [|done..].
  intros [= <-] Hin Hne.
  destruct (forEachParameter_Ok _ _ _ _ _ Hloop) as [-> Hk].
  split; [done|].
  change (prop _ "properties") with (VObj properties). cbn [hasProp].
  destruct (Hk n Hne) as [_ ->]. cbn [Obj.has]. rewrite orb_false_r.
  f_equal. apply bool_decide_eq_true.
  unfold required_names in Hin.
  apply list_elem_of_fmap in Hin as (p & Hname & Hp).
  apply list_elem_of_In, filter_In in Hp as [Hp Htruthy].
  apply andb_prop in Htruthy as [Htruthy _].
  apply (ParameterFacts.last_named_elem n parameters p Hp).
  unfold key_of. by rewrite Htruthy, <- Hname.
Qed.

Lemma buildSchemaFromParameters_required_declared_witness :
  exists schema,
    buildSchemaFromParameters widgets_parameters = Ok schema /\
    prop schema "required" = VArr (required_names widgets_parameters) [] /\
    hasProp "id" (prop schema "properties") = Ok true.
Proof.
  eexists. split; [reflexivity|].
  apply (buildSchemaFromParameters_required_declared widgets_parameters _ "id");
    [reflexivity| |done].
  vm_compute. by left.
Defined.

(* ====================================================================== *)
(** * More about the path items *)
(* ====================================================================== *)

Module BucketFacts.

Lemma filter_sublist {A} (f : A -> bool) (l : list A) : List.filter f l `sublist_of` l.
Proof.
  induction l as [|a l IH]; cbn [List.filter]; [constructor|].
  destruct (f a); by constructor.
Qed.

Lemma filter_elem {A} (f : A -> bool) (l : list A) x :
  x ∈ List.filter f l <-> x ∈ l /\ f x = true.
Proof. rewrite !list_elem_of_In. apply filter_In. Qed.

Lemma in_is_exclusive x : in_is "path" x = true -> in_is "query" x = false.
Proof.
  unfold in_is, is_str. destruct (prop x "in"); try done.
  intros ->%bool_decide_eq_true. done.
Qed.

End BucketFacts.

(** X12: the two buckets of a list of parameters are parts of the list,
    in its order; a parameter is in the bucket named [query] exactly when
    its [in] is ["path"], in the bucket named [path] exactly when its [in]
    is ["query"], never in both, and in none when its [in] is anything
    else. *)
Theorem buckets_partition es query path :
  buckets (VArr es []) = Ok (query, path) ->
  query `sublist_of` es /\ path `sublist_of` es /\
  (forall x, x ∈ query <-> x ∈ es /\ in_is "path" x = true) /\
  (forall x, x ∈ path <-> x ∈ es /\ in_is "query" x = true) /\
  (forall x, x ∈ query -> x ∉ path).
Proof.
  rewrite buckets_spec. destruct (forallb defined es); [|done].
  intros [= <- <-].
  split; [apply BucketFacts.filter_sublist|].
  split; [apply BucketFacts.filter_sublist|].
  split; [intros x; apply BucketFacts.filter_elem|].
  split; [intros x; apply BucketFacts.filter_elem|].
  intros x [_ Hpath]%BucketFacts.filter_elem [_ Hquery]%BucketFacts.filter_elem.
  apply BucketFacts.in_is_exclusive in Hpath. congruence.
Qed.

Lemma buckets_partition_witness :
  let header := VObj [("name", VStr "X-Trace"); ("in", VStr "header")] in
  let es := (widgets_parameters ++ [header])%list in
  exists query path,
    buckets (VArr es []) = Ok (query, path) /\
    query `sublist_of` es /\ path `sublist_of` es /\
    (forall x, x ∈ query <-> x ∈ es /\ in_is "path" x = true) /\
    (forall x, x ∈ path <-> x ∈ es /\ in_is "query" x = true) /\
    (forall x, x ∈ query -> x ∉ path).
Proof.
  intros header es. eexists _, _. split; [reflexivity|].
  apply (buckets_partition es). reflexivity.
Defined.

Section PathItems.
Context `{Collaborators}.

Lemma method_is_not_parameters optionKey :
  str_in optionKey METHODS = true -> bool_decide (optionKey = "parameters") = false.
Proof.
  intros Hmethod. apply bool_decide_eq_false. intros ->. discriminate Hmethod.
Qed.

Lemma processOption_inert schemasPath pathFolder baseFilename entry w :
  inert_option entry = true ->
  processOption schemasPath pathFolder baseFilename entry w = (Ok tt, w).
Proof.
  destruct entry as [optionKey optionSchema]. unfold inert_option, processOption.
  cbn [fst snd]. rewrite iobind_lift. unfold PARAMETERS_KEYWORD.
  destruct (str_in optionKey METHODS) eqn:Hmethod.
  - destruct optionSchema as [| | | | | |ps]; try done. cbn [hasProp].
    destruct (Obj.has "parameters" ps); [done|]. intros _. cbn [orb].
    by rewrite (method_is_not_parameters _ Hmethod).
  - intros Hno%negb_true_iff. by rewrite Hno.
Qed.

Lemma processBucket_empty schemasPath folder baseFilename key w :
  processBucket schemasPath folder baseFilename (key, []) w = (Ok tt, w).
Proof. unfold processBucket. cbn [List.length Nat.eqb negb]. by rewrite andb_false_r. Qed.

Lemma filter_none {A} (f : A -> bool) (l : list A) :
  forallb (fun x => negb (f x)) l = true -> List.filter f l = [].
Proof.
  induction l as [|a l IH]; cbn [forallb List.filter]; [done|].
  intros [Ha Hl]%andb_prop. apply negb_true_iff in Ha. rewrite Ha. by apply IH.
Qed.

End PathItems.

(** X13: a path item whose keys are methods without [parameters] and
    keys that are neither a method nor [parameters] (a summary, a
    description, servers) is passed over: nothing is written, nothing is
    thrown. *)
Theorem forEachOption_inert `{Collaborators}
    schemasPath pathFolder baseFilename options w :
  forallb inert_option options = true ->
  forEachOption schemasPath pathFolder baseFilename options w = (Ok tt, w).
Proof.
  induction options as [|entry options IH]; cbn [forallb forEachOption]; [done|].
  intros [Hentry Hoptions]%andb_prop. unfold iobind at 1.
  rewrite processOption_inert by done. by apply IH.
Qed.

Lemma forEachOption_inert_witness :
  forEachOption (H := plain_environment) "out" "/pets" "_pets"
    [("summary", VStr "Pets");
     ("get", VObj [("operationId", VStr "listPets")]);
     ("x-internal", VBool true)] empty_world
  = (Ok tt, empty_world).
Proof.
  apply (@forEachOption_inert plain_environment). reflexivity.
Defined.

(** X14: an operation none of whose parameters has ["path"] or ["query"]
    for its [in] (headers, cookies) gives no file: both buckets are empty
    and nothing is written. *)
Theorem processOption_no_extracted_parameters `{Collaborators}
    schemasPath pathFolder baseFilename optionKey ps es w :
  str_in optionKey METHODS = true ->
  Obj.has "parameters" ps = true ->
  Obj.get "parameters" ps = VArr es [] ->
  forallb defined es = true ->
  forallb (fun x => negb (in_is "path" x)) es = true ->
  forallb (fun x => negb (in_is "query" x)) es = true ->
  processOption schemasPath pathFolder baseFilename (optionKey, VObj ps) w = (Ok tt, w).
Proof.
  intros Hmethod Hhas Hget Hdef Hpath Hquery.
  rewrite (processOption_method _ _ _ _ _ es) by done.
  rewrite !filter_none by done. unfold iobind.
  by rewrite !processBucket_empty.
Qed.

Lemma processOption_no_extracted_parameters_witness :
  processOption (H := plain_environment) "out" "/pets" "_pets"
    ("get",
     VObj [("parameters",
            VArr [VObj [("name", VStr "X-Trace"); ("in", VStr "header")];
                  VObj [("name", VStr "session"); ("in", VStr "cookie")]] [])])
    empty_world
  = (Ok tt, empty_world).
Proof.
  by apply (@processOption_no_extracted_parameters plain_environment
              "out" "/pets" "_pets" "get" _
              [VObj [("name", VStr "X-Trace"); ("in", VStr "header")];
               VObj [("name", VStr "session"); ("in", VStr "cookie")]]).
Defined.

(** X15: an operation that is no object (a method key with a string, a
    number, [null]) and a [parameters] value that is no array are errors:
    a [TypeError] is thrown and nothing is written. *)
Theorem processOption_type_errors `{Collaborators}
    schemasPath pathFolder baseFilename w :
  (forall optionKey optionSchema,
     str_in optionKey METHODS = true ->
     is_object optionSchema = false ->
     processOption schemasPath pathFolder baseFilename (optionKey, optionSchema) w
       = (Throw TypeError, w)) /\
  (forall optionSchema,
     isArray optionSchema = false ->
     processOption schemasPath pathFolder baseFilename ("parameters", optionSchema) w
       = (Throw TypeError, w)) /\
  (forall optionKey ps,
     str_in optionKey METHODS = true ->
     Obj.has "parameters" ps = true ->
     isArray (Obj.get "parameters" ps) = false ->
     processOption schemasPath pathFolder baseFilename (optionKey, VObj ps) w
       = (Throw TypeError, w)).
Proof.
  split; [|split].
  - intros optionKey optionSchema Hmethod Hobj. unfold processOption.
    rewrite iobind_lift, Hmethod. by destruct optionSchema.
  - intros optionSchema Harr. unfold processOption.
    rewrite iobind_lift.
    change (str_in "parameters" METHODS) with false. cbv iota.
    change (bool_decide ("parameters" = PARAMETERS_KEYWORD)) with true. cbn [orb].
    rewrite !iobind_lift. by destruct optionSchema.
  - intros optionKey ps Hmethod Hhas Harr. unfold processOption, PARAMETERS_KEYWORD.
    rewrite iobind_lift, Hmethod. cbn [hasProp getProp]. rewrite Hhas. cbn [orb].
    rewrite !iobind_lift. by destruct (Obj.get "parameters" ps).
Qed.

Lemma processOption_type_errors_witness :
  processOption (H := plain_environment) "out" "/pets" "_pets" ("get", VNull) empty_world
    = (Throw TypeError, empty_world) /\
  processOption (H := plain_environment) "out" "/pets" "_pets"
    ("parameters", VObj [("name", VStr "limit")]) empty_world
    = (Throw TypeError, empty_world).
Proof.
  destruct (@processOption_type_errors plain_environment "out" "/pets" "_pets" empty_world)
    as (Hmethod & Hparameters & _).
  split; [by apply Hmethod|by apply Hparameters].
Defined.

(* ====================================================================== *)
(** * Collections that are not there *)
(* ====================================================================== *)

Section MissingCollections.
Context `{Collaborators}.

Lemma processSchema_undefined schema schemasPath definitionKeyword isArr w :
  defined schema = false ->
  processSchema schema schemasPath definitionKeyword isArr w = (Throw TypeError, w).
Proof. intros Hdef. unfold processSchema. rewrite iobind_lift. by destruct schema. Qed.

End MissingCollections.

(** X16: a converted document that has no [paths] (or whose [paths] is
    [null]) makes [processPathSchemas] throw a [TypeError]; nothing is
    written. *)
Theorem processPathSchemas_without_paths `{Collaborators} generatedSchema schemasPath w :
  defined (prop generatedSchema "paths") = false ->
  processPathSchemas generatedSchema schemasPath w = (Throw TypeError, w).
Proof.
  intros Hdef. unfold processPathSchemas. rewrite iobind_lift.
  replace (_get generatedSchema "paths") with (prop generatedSchema "paths")
    by (by destruct generatedSchema).
  by destruct (prop generatedSchema "paths").
Qed.

Lemma processPathSchemas_without_paths_witness :
  processPathSchemas (H := plain_environment) malformed_document "out" empty_world
  = (Throw TypeError, empty_world).
Proof.
  by apply (@processPathSchemas_without_paths plain_environment).
Defined.

(** X17: when [_get] finds nothing (or [null]) in the converted document
    at the first keyword, the extraction throws a [TypeError] there:
    nothing is written, the other keywords and the paths are not looked
    at.  With the default keywords this is a document without
    [components.schemas]. *)
Theorem extraction_without_collection `{Collaborators}
    parsedOpenAPIContent generatedSchema key keywords schemasPath w :
  fromSchema parsedOpenAPIContent (key :: keywords) = Ok generatedSchema ->
  defined (_get generatedSchema key) = false ->
  extraction parsedOpenAPIContent (key :: keywords) schemasPath w = (Throw TypeError, w).
Proof.
  intros Hconvert Hdef. unfold extraction.
  rewrite iobind_lift, Hconvert. cbn [processComponents].
  unfold iobind at 1, iobind at 1.
  by rewrite processSchema_undefined.
Qed.

Lemma extraction_without_collection_witness :
  extraction (H := plain_environment) widgets_document (keywordsOf None) "out" empty_world
  = (Throw TypeError, empty_world).
Proof.
  by apply (@extraction_without_collection plain_environment
              widgets_document widgets_document).
Defined.

(* ====================================================================== *)
(** * More about the files *)
(* ====================================================================== *)

Module FsMore.
Import Fs FsFacts.

Lemma ensureDir_lookup_file (d : list string) (fs fs' : gmap (list string) node)
    (p : list string) (c : string) :
  ensureDir d fs = Ok fs' ->
  (fs' !! p = Some (File c) <-> fs !! p = Some (File c)).
Proof.
  intros Hdir. split; [|by apply (ensureDir_keeps_files d)].
  revert Hdir. unfold ensureDir. destruct (existsb _ _); [done|]. intros [= <-].
  rewrite lookup_make_dirs. by case_decide.
Qed.

Lemma ensureDir_is_dir (d : list string) (fs fs' : gmap (list string) node) :
  ensureDir d fs = Ok fs' -> is_dir fs' d = true.
Proof.
  unfold ensureDir. destruct (existsb _ _); [done|]. intros [= <-].
  unfold is_dir. destruct d as [|seg d]; [done|].
  rewrite lookup_make_dirs, decide_True; [done|].
  apply ancestors_spec. by exists (seg :: d).
Qed.


End FsMore.

(** X18: when [saveSchema] returns, the text can be read back from the
    file [<schemasPath>/<definitionKeyword>/<filename>.json], the
    directory of that file is there, every other file is as it was and
    nothing is logged. *)
Theorem saveSchema_then_read `{Collaborators}
    schemasPath definitionKeyword filename text w w' :
  saveSchema schemasPath definitionKeyword filename text w = (Ok tt, w') ->
  let destinationDir := Path.join schemasPath definitionKeyword in
  let destinationPath := Path.join destinationDir (filename ++ ".json") in
  readFileSync destinationPath w' = (Ok text, w') /\
  Fs.is_dir (files w') (Path.locate cwd destinationDir) = true /\
  (forall p c,
     p <> Path.locate cwd destinationPath ->
     (files w' !! p = Some (File c) <-> files w !! p = Some (File c))) /\
  logged w' = logged w.
Proof.
  intros Hsave destinationDir destinationPath. revert Hsave.
  unfold saveSchema, iobind, ensureDirSync, writeFileSync, readFileSync.
  fold destinationDir. fold destinationPath.
  destruct (string_dec destinationDir ""); [done|].
  destruct (Fs.ensureDir _ (files w)) as [fs1| |] eqn:Hdir; [|done..].
  destruct (string_dec destinationPath ""); [done|]. cbn [files logged].
  destruct (Fs.writeFile _ text fs1) as [fs2| |] eqn:Hwrite; [|done..].
  intros [= <-]. cbn [files logged].
  pose proof (writeFile_Ok _ _ _ _ Hwrite) as ->.
  split; [|split; [|split; [|done]]].
  - unfold Fs.readFile. by rewrite lookup_insert_eq.
  - pose proof (FsMore.ensureDir_is_dir _ _ _ Hdir) as Hd.
    unfold Fs.writeFile in Hwrite.
    destruct (Path.locate cwd destinationPath) as [|seg dest] eqn:Hdest; [done|].
    destruct (negb _); [done|].
    destruct (Fs.is_dir fs1 (seg :: dest)) eqn:Hnodir; [done|].
    unfold Fs.is_dir in *.
    destruct (Path.locate cwd destinationDir) as [|s d]; [done|].
    rewrite lookup_insert_ne; [done|]. intros Heq. rewrite Heq in Hnodir.
    by rewrite Hnodir in Hd.
  - intros p c Hne. rewrite lookup_insert_ne by done.
    by apply FsMore.ensureDir_lookup_file with (Path.locate cwd destinationDir).
Qed.

Lemma saveSchema_then_read_witness :
  let w' := (saveSchema (H := plain_environment) "out" "components.schemas" "Pet" "{}"
               empty_world).2 in
  readFileSync (H := plain_environment) "out/components.schemas/Pet.json" w' = (Ok "{}", w') /\
  Fs.is_dir (files w') ["srv"; "out"; "components.schemas"] = true /\
  (forall p c,
     p <> ["srv"; "out"; "components.schemas"; "Pet.json"] ->
     (files w' !! p = Some (File c) <-> files empty_world !! p = Some (File c))) /\
  logged w' = logged empty_world.
Proof.
  intros w'.
  apply (@saveSchema_then_read plain_environment
           "out" "components.schemas" "Pet" "{}" empty_world w').
  vm_compute. reflexivity.
Defined.

(** X19: the reset of the output directory touches no file outside it:
    the files elsewhere are the same before and after. *)
Theorem reset_keeps_other_files `{Collaborators} schemasPath w w1 p c :
  (do* _ := removeSync schemasPath in ensureDirSync schemasPath) w = (Ok tt, w1) ->
  ~ Path.locate cwd schemasPath `prefix_of` p ->
  (files w1 !! p = Some (File c) <-> files w !! p = Some (File c)).
Proof.
  intros (_ & Hdir & _)%reset_Ok Hout.
  rewrite (FsMore.ensureDir_lookup_file _ _ _ p c Hdir).
  by rewrite FsFacts.lookup_remove, decide_False.
Qed.

Lemma reset_keeps_other_files_witness :
  let w := World {[ ["srv"; "openapi.yml"] := File "widgets";
                    ["srv"; "out"; "Old.json"] := File "{}" ]} [] in
  let w1 := ((do* _ := removeSync (H := plain_environment) "out" in
              ensureDirSync (H := plain_environment) "out") w).2 in
  files w1 !! ["srv"; "openapi.yml"] = Some (File "widgets")
  <-> files w !! ["srv"; "openapi.yml"] = Some (File "widgets").
Proof.
  intros w w1.
  apply (@reset_keeps_other_files plain_environment "out" w w1).
  - vm_compute. reflexivity.
  - vm_compute. intros [k Hk]. discriminate Hk.
Defined.

Module OverwriteFacts.
Import Fs FsFacts.

Lemma make_dirs_again (l : list (list string)) (fs : gmap (list string) node) :
  (forall a, a ∈ l -> fs !! a = Some Dir) ->
  foldr (fun d m => <[d := Dir]> m) fs l = fs.
Proof.
  intros Hall. apply map_eq. intros p. rewrite lookup_make_dirs.
  case_decide as Hin; [by rewrite Hall|done].
Qed.

Lemma ensureDir_dirs (d : list string) (fs fs' : gmap (list string) node) a :
  ensureDir d fs = Ok fs' -> a ∈ ancestors [] d -> fs' !! a = Some Dir.
Proof.
  unfold ensureDir. destruct (existsb _ _); [done|]. intros [= <-] Hin.
  by rewrite lookup_make_dirs, decide_True.
Qed.

Lemma removelast_ne {A} (x : A) (l : list A) : removelast (x :: l) <> x :: l.
Proof.
  intros Heq. apply (f_equal (@List.length A)) in Heq.
  assert (Hlen : forall (y : A) k, List.length (removelast (y :: k)) = List.length k).
  { intros y k. revert y. induction k as [|z k IH]; intros y; [done|].
    change (removelast (y :: z :: k)) with (y :: removelast (z :: k)).
    cbn [List.length]. by rewrite IH. }
  rewrite Hlen in Heq. simpl in Heq. lia.
Qed.

(** A directory that was made and a file that was written in it: both
    calls return again, and the file system after them is the same but
    for the text of the file. *)
Lemma write_again (d p : list string) (t1 t2 : string)
    (fs fs1 fs2 : gmap (list string) node) :
  ensureDir d fs = Ok fs1 ->
  writeFile p t1 fs1 = Ok fs2 ->
  ensureDir d fs2 = Ok fs2 /\
  writeFile p t2 fs2 = Ok (<[p := File t2]> fs2).
Proof.
  intros Hdir Hwrite.
  pose proof (writeFile_Ok _ _ _ _ Hwrite) as ->.
  unfold writeFile in Hwrite. destruct p as [|seg p]; [done|].
  destruct (is_dir fs1 (removelast (seg :: p))) eqn:Hparent; [|done].
  destruct (is_dir fs1 (seg :: p)) eqn:Hnodir; [done|]. clear Hwrite.
  assert (Hanc : forall a, a ∈ ancestors [] d ->
            <[seg :: p := File t1]> fs1 !! a = Some Dir).
  { intros a Hin. pose proof (ensureDir_dirs _ _ _ a Hdir Hin) as Ha.
    rewrite lookup_insert_ne; [done|]. intros <-.
    unfold is_dir in Hnodir. by rewrite Ha in Hnodir. }
  split.
  - unfold ensureDir.
    replace (existsb _ _) with false.
    + by rewrite make_dirs_again.
    + symmetry. apply not_true_iff_false. intros (a & Hin & Hfile)%existsb_exists.
      apply list_elem_of_In in Hin. unfold is_file in Hfile. by rewrite Hanc in Hfile.
  - unfold writeFile.
    replace (is_dir _ (removelast (seg :: p))) with true.
    + unfold is_dir. by rewrite lookup_insert_eq.
    + symmetry. unfold is_dir in *.
      destruct (removelast (seg :: p)) as [|s q] eqn:Hq; [done|].
      rewrite lookup_insert_ne; [done|].
      rewrite <- Hq. apply not_eq_sym, removelast_ne.
Qed.

End OverwriteFacts.

(** X20: a file that [saveSchema] has written is overwritten without
    error: saving another text under the same name returns, the file then
    holds the new text, and nothing else changes. *)
Theorem saveSchema_overwrites `{Collaborators}
    schemasPath definitionKeyword filename text1 text2 w w1 :
  saveSchema schemasPath definitionKeyword filename text1 w = (Ok tt, w1) ->
  let destination :=
    Path.locate cwd
      (Path.join (Path.join schemasPath definitionKeyword) (filename ++ ".json")) in
  exists w2,
    saveSchema schemasPath definitionKeyword filename text2 w1 = (Ok tt, w2) /\
    files w2 = <[destination := File text2]> (files w1) /\
    logged w2 = logged w1.
Proof.
  intros Hsave destination. revert Hsave. subst destination.
  unfold saveSchema, iobind, ensureDirSync, writeFileSync.
  destruct (string_dec (Path.join schemasPath definitionKeyword) ""); [done|].
  destruct (Fs.ensureDir _ (files w)) as [fs1| |] eqn:Hdir; [|done..].
  destruct (string_dec _ ""); [done|]. cbn [files logged].
  destruct (Fs.writeFile _ text1 fs1) as [fs2| |] eqn:Hwrite; [|done..].
  intros [= <-]. cbn [files logged].
  destruct (OverwriteFacts.write_again _ _ text1 text2 _ _ _ Hdir Hwrite)
    as [Hagain Hover].
  rewrite Hagain. cbn [files logged]. rewrite Hover. eauto.
Qed.

Lemma saveSchema_overwrites_witness :
  let w1 := (saveSchema (H := plain_environment) "out" "components.schemas" "Pet" "{}"
               empty_world).2 in
  exists w2,
    saveSchema (H := plain_environment) "out" "components.schemas" "Pet" "[]" w1
      = (Ok tt, w2) /\
    files w2 = <[ ["srv"; "out"; "components.schemas"; "Pet.json"] := File "[]" ]> (files w1) /\
    logged w2 = logged w1.
Proof.
  intros w1.
  apply (@saveSchema_overwrites plain_environment
           "out" "components.schemas" "Pet" "{}" "[]" empty_world w1).
  vm_compute. reflexivity.
Defined.

(* ====================================================================== *)
(** * More about [runCommand] *)
(* ====================================================================== *)

Section ConvertFacts.
Context `{Collaborators}.



Lemma convert_read openApiPath schemasPath propertiesToExport w content :
  readFileSync openApiPath w = (Ok content, w) ->
  convert openApiPath schemasPath propertiesToExport w =
    (do* parsedOpenAPIContent := lift (YAML_parse content) in
     do* converted :=
       try_catch
         (extraction parsedOpenAPIContent (keywordsOf propertiesToExport) schemasPath)
         (do* _ := log LWarn "Failed to convert non-object attribute, skipping" in
          ret false) in
     if converted : bool then
       log LInfo "✅ JSON schemas generated successfully from OpenAPI file"
     else ret tt) w.
Proof.
  intros Hread. unfold convert. unfold iobind at 1, try_catch at 1. by rewrite Hread.
Qed.


End ConvertFacts.



(** X22: a text that [YAML.parse] rejects is not caught: [runCommand]
    throws what the parser throws, logs nothing, and leaves the output
    directory reset. *)
Theorem runCommand_parse_failure `{Collaborators}
    openApiPath schemasPath propertiesToExport w w1 content e :
  (do* _ := removeSync schemasPath in ensureDirSync schemasPath) w = (Ok tt, w1) ->
  readFileSync openApiPath w1 = (Ok content, w1) ->
  YAML_parse content = Throw e ->
  runCommand openApiPath schemasPath propertiesToExport w = (Throw e, w1) /\
  logged w1 = logged w.
Proof.
  intros Hreset Hread Hparse.
  destruct (reset_Ok _ _ _ Hreset) as (_ & _ & Hlog). split; [|done].
  rewrite (runCommand_after_reset _ _ _ _ _ Hreset).
  rewrite (convert_read _ _ _ _ _ Hread).
  by rewrite iobind_lift, Hparse.
Qed.

Lemma runCommand_parse_failure_witness :
  let w := World {[ ["srv"; "openapi.yml"] := File "{ not yaml" ]} [] in
  let w1 := ((do* _ := removeSync (H := plain_environment) "out" in
              ensureDirSync (H := plain_environment) "out") w).2 in
  runCommand (H := plain_environment) "openapi.yml" "out" None w
    = (Throw ExternalError, w1) /\
  logged w1 = logged w.
Proof.
  intros w w1.
  apply (@runCommand_parse_failure plain_environment
           "openapi.yml" "out" None w w1 "{ not yaml" ExternalError).
  - vm_compute. reflexivity.
  - vm_compute. reflexivity.
  - reflexivity.
Defined.



(* ====================================================================== *)
(** * The file of a synthetic parameter schema *)
(* ====================================================================== *)

(** X24: for a schema built from parameters, [processParameterSchema]
    never fails before it writes: it is one call of [saveSchema], and the
    text it saves is that of the object with the members [type],
    [properties], [required], [additionalProperties] and [$id], the [$id]
    being the file name without the characters invalid in a URI, followed
    by [.json]. *)
Theorem processParameterSchema_built `{Collaborators}
    parameters schema schemasPath folder filename w :
  buildSchemaFromParameters parameters = Ok schema ->
  exists properties text,
    prop schema "properties" = VObj properties /\
    Json.stringify
      (VObj [("type", VStr "object");
             ("properties", VObj properties);
             ("required", VArr (required_names parameters) []);
             ("additionalProperties", VBool false);
             ("$id", VStr (strip_invalid_uri_chars filename ++ ".json"))])
      = Some text /\
    processParameterSchema schema schemasPath folder filename w =
      saveSchema schemasPath folder filename text w.
Proof.
  unfold buildSchemaFromParameters.
  destruct (forEachParameter ([], []) parameters) as [[properties requiredList]| |] eqn:Hloop;
    cbn [bind]; [|done..].
  intros [= <-].
  destruct (forEachParameter_Ok _ _ _ _ _ Hloop) as [-> _].
  exists properties. eexists. split; [reflexivity|]. split; [reflexivity|].
  unfold processParameterSchema. rewrite !iobind_lift.
  change (getProp _ "name") with (@Ok value VUndefined). cbv iota beta.
  rewrite iobind_lift.
  change (adaptSchema _ VUndefined filename) with
    (Ok (VObj [("type", VStr "object");
               ("properties", VObj properties);
               ("required", VArr (required_names parameters) []);
               ("additionalProperties", VBool false);
               ("title", VUndefined);
               ("$id", VStr (strip_invalid_uri_chars filename ++ ".json"))])).
  cbv iota beta. rewrite iobind_lift. reflexivity.
Qed.

Lemma processParameterSchema_built_witness :
  exists schema properties text,
    buildSchemaFromParameters widgets_parameters = Ok schema /\
    prop schema "properties" = VObj properties /\
    Json.stringify
      (VObj [("type", VStr "object");
             ("properties", VObj properties);
             ("required", VArr (required_names widgets_parameters) []);
             ("additionalProperties", VBool false);
             ("$id", VStr (strip_invalid_uri_chars "_widgets" ++ ".json"))])
      = Some text /\
    processParameterSchema (H := plain_environment) schema "out" "/widgets" "_widgets"
      empty_world
    = saveSchema (H := plain_environment) "out" "/widgets" "_widgets" text empty_world.
Proof.
  destruct (@processParameterSchema_built plain_environment widgets_parameters _
              "out" "/widgets" "_widgets" empty_world eq_refl)
    as (properties & text & Hspec).
  eexists _, properties, text. split; [reflexivity|exact Hspec].
Defined.

(* ====================================================================== *)
(** * Texts that hold no reference *)
(* ====================================================================== *)

Module NoReferenceFacts.
Import Str StrFacts.
#[local] Arguments String.append !s1 s2 : simpl nomatch.

Lemma matchAt_starts u : matchAt u <> None -> starts_with "#/components/" u = true.
Proof. unfold matchAt. by destruct (starts_with "#/components/" u). Qed.

Lemma includes_cons p c t : includes p (String c t) = false -> includes p t = false.
Proof. cbn [includes]. by intros [_ ?]%orb_false_elim. Qed.

Lemma includes_start p s : includes p s = false -> starts_with p s = false.
Proof. destruct s; cbn [includes]; by intros [? _]%orb_false_elim. Qed.

End NoReferenceFacts.

(** X25: a text in which [#/components/] does not occur is left as it is
    by the rewriting. *)
Theorem rewriteRefs_without_components s :
  Str.includes "#/components/" s = false ->
  rewriteRefs s = s.
Proof.
  intros Hno. apply rewriteRefs_no_match. unfold no_match.
  induction s as [|c t IH]; [done|].
  rewrite ScanFacts.matchAll_step.
  - apply IH. by apply NoReferenceFacts.includes_cons in Hno.
  - apply NoReferenceFacts.includes_start in Hno.
    destruct (matchAt (String c t)) eqn:Hm; [|done].
    assert (Hsome : matchAt (String c t) <> None) by (by rewrite Hm).
    apply NoReferenceFacts.matchAt_starts in Hsome. congruence.
Qed.

Lemma rewriteRefs_without_components_witness :
  let s := Json.quote "#/definitions/Pet" ++ ", " ++ Json.quote "other.yaml#/Pet" in
  rewriteRefs s = s.
Proof.
  intros s. apply rewriteRefs_without_components. reflexivity.
Defined.

(* ====================================================================== *)
(** * Where [saveSchema] writes *)
(* ====================================================================== *)

Module PathFacts.
Import Str StrFacts Path.
#[local] Arguments String.append !s1 s2 : simpl nomatch.

Lemma normalizeString_fold allow segs : forall acc,
  normalizeString allow acc segs = rev (fold_left (normalize_step allow) segs acc).
Proof.
  induction segs as [|seg segs IH]; intros acc; cbn [normalizeString fold_left]; [done|].
  unfold normalize_step at 2.
  destruct (string_dec seg ""); [apply IH|].
  destruct (string_dec seg "."); [apply IH|].
  destruct (string_dec seg ".."); [|apply IH].
  destruct acc as [|prev acc]; [apply IH|].
  destruct (string_dec prev ".."); apply IH.
Qed.

Lemma step_plain allow acc seg : plain_segment seg -> normalize_step allow acc seg = seg :: acc.
Proof.
  intros (H1 & H2 & H3). unfold normalize_step.
  destruct (string_dec seg ""); [done|]. destruct (string_dec seg "."); [done|].
  by destruct (string_dec seg "..").
Qed.

Lemma step_pop allow prev acc :
  prev <> ".." -> normalize_step allow (prev :: acc) ".." = acc.
Proof.
  intros Hne. unfold normalize_step.
  destruct (string_dec ".." ""); [done|]. destruct (string_dec ".." "."); [done|].
  destruct (string_dec ".." ".."); [|done]. by destruct (string_dec prev "..").
Qed.

Lemma step_kept allow acc seg :
  Forall kept_segment acc -> Forall kept_segment (normalize_step allow acc seg).
Proof.
  intros Hacc. unfold normalize_step.
  destruct (string_dec seg ""); [done|]. destruct (string_dec seg "."); [done|].
  destruct (string_dec seg "..") as [->|].
  - destruct acc as [|prev acc].
    + destruct allow; [|done]. constructor; [by right|done].
    + destruct (string_dec prev "..").
      * destruct allow; [|done]. constructor; [by right|done].
      * by inversion Hacc.
  - constructor; [|done]. by left.
Qed.

(** The absolute mode on what the relative mode kept: going through the
    kept segments and then taking a step is taking the step first. *)
Lemma step_commutes S seg acc :
  Forall kept_segment acc ->
  fold_left (normalize_step false) (rev (normalize_step true acc seg)) S =
  normalize_step false (fold_left (normalize_step false) (rev acc) S) seg.
Proof.
  intros Hacc. unfold normalize_step at 2.
  destruct (string_dec seg "") as [->|Hne]; [done|].
  destruct (string_dec seg ".") as [->|Hdot]; [done|].
  destruct (string_dec seg "..") as [->|Hdd].
  - destruct acc as [|prev acc]; cbn [rev app].
    + done.
    + destruct (string_dec prev "..") as [->|Hprev].
      * cbn [rev]. by rewrite fold_left_app.
      * cbn [rev]. rewrite fold_left_app. cbn [fold_left].
        inversion Hacc as [|? ? [Hplain|?] _]; subst; [|done].
        rewrite (step_plain false _ prev Hplain).
        by rewrite step_pop.
  - cbn [rev]. rewrite fold_left_app. cbn [fold_left]. done.
Qed.

Lemma fold_relative_then_absolute segs : forall S acc,
  Forall kept_segment acc ->
  fold_left (normalize_step false)
    (rev (fold_left (normalize_step true) segs acc)) S =
  fold_left (normalize_step false) segs
    (fold_left (normalize_step false) (rev acc) S).
Proof.
  induction segs as [|seg segs IH]; intros S acc Hacc; cbn [fold_left]; [done|].
  rewrite IH by (by apply step_kept). by rewrite step_commutes.
Qed.

(** Resolving a path from a directory, and resolving what is left of it
    after it was normalized as a relative path, end at the same place. *)
Lemma normalizeString_relative S segs :
  normalizeString false S (normalizeString true [] segs) = normalizeString false S segs.
Proof.
  rewrite !normalizeString_fold. f_equal.
  by rewrite (fold_relative_then_absolute segs S []).
Qed.

Lemma split_free c s : mem c s = false -> split c s = [s].
Proof.
  induction s as [|a s IH]; cbn [mem split]; [done|].
  destruct (ascii_dec c a) as [|Hne]; [done|]. intros Hs.
  destruct (ascii_dec a c); [congruence|]. by rewrite IH.
Qed.

Lemma split_app_sep c a b :
  split c (a ++ String c b) = (split c a ++ split c b)%list.
Proof.
  induction a as [|x a IH]; cbn [String.append split].
  - by destruct (ascii_dec c c).
  - destruct (ascii_dec x c); [by rewrite IH|].
    rewrite IH. pose proof (NameFacts.split_nonempty c a) as Hne.
    by destruct (split c a).
Qed.

Lemma join_cons sep x y l :
  Str.join sep (x :: y :: l) = x ++ sep ++ Str.join sep (y :: l).
Proof. done. Qed.

Lemma split_join c l :
  l <> [] -> Forall (fun x => mem c x = false) l ->
  split c (Str.join (String c "") l) = l.
Proof.
  intros Hne Hall. induction Hall as [|x l Hx Hl IH]; [done|].
  destruct l as [|y l].
  - by apply split_free.
  - rewrite join_cons.
    change (String c "" ++ Str.join (String c "") (y :: l))
      with (String c (Str.join (String c "") (y :: l))).
    rewrite split_app_sep, split_free by done. by rewrite IH.
Qed.

Lemma join_nonempty sep x l : x <> "" -> Str.join sep (x :: l) <> "".
Proof. destruct x; [done|]. by destruct l. Qed.

Lemma fold_plain allow l : forall acc,
  Forall plain_segment l ->
  fold_left (normalize_step allow) l acc = (rev l ++ acc)%list.
Proof.
  induction l as [|x l IH]; intros acc Hl; cbn [fold_left rev]; [done|].
  inversion Hl as [|? ? Hx Hl']; subst.
  rewrite step_plain, IH by done. by rewrite <- List.app_assoc.
Qed.

Lemma step_absolute_plain acc seg :
  Forall plain_segment acc -> Forall plain_segment (normalize_step false acc seg).
Proof.
  intros Hacc. unfold normalize_step.
  destruct (string_dec seg ""); [done|]. destruct (string_dec seg "."); [done|].
  destruct (string_dec seg "..").
  - destruct acc as [|prev acc]; [done|].
    destruct (string_dec prev ".."); [done|]. by inversion Hacc.
  - by constructor.
Qed.

Lemma fold_absolute_plain segs : forall acc,
  Forall plain_segment acc -> Forall plain_segment (fold_left (normalize_step false) segs acc).
Proof.
  induction segs as [|seg segs IH]; intros acc Hacc; cbn [fold_left]; [done|].
  by apply IH, step_absolute_plain.
Qed.

Lemma fold_kept allow segs : forall acc,
  Forall kept_segment acc -> Forall kept_segment (fold_left (normalize_step allow) segs acc).
Proof.
  induction segs as [|seg segs IH]; intros acc Hacc; cbn [fold_left]; [done|].
  by apply IH, step_kept.
Qed.

(** The segments that come out are segments that went in, or [..]. *)
Lemma step_from allow (P : string -> Prop) acc seg :
  P ".." -> P seg -> Forall P acc -> Forall P (normalize_step allow acc seg).
Proof.
  intros Hdd Hseg Hacc. unfold normalize_step.
  destruct (string_dec seg ""); [done|]. destruct (string_dec seg "."); [done|].
  destruct (string_dec seg "..").
  - destruct acc as [|prev acc].
    + destruct allow; [|done]. by constructor.
    + destruct (string_dec prev "..").
      * destruct allow; [|done]. by constructor.
      * by inversion Hacc.
  - by constructor.
Qed.

Lemma fold_from allow (P : string -> Prop) segs : forall acc,
  P ".." -> Forall P segs -> Forall P acc ->
  Forall P (fold_left (normalize_step allow) segs acc).
Proof.
  induction segs as [|seg segs IH]; intros acc Hdd Hsegs Hacc; cbn [fold_left]; [done|].
  inversion Hsegs; subst. apply IH; [done..|]. by apply step_from.
Qed.

Lemma normalizeString_shape allow p :
  let N := normalizeString allow [] (split slash p) in
  Forall kept_segment N /\ Forall (fun x => mem slash x = false) N /\
  (allow = false -> Forall plain_segment N).
Proof.
  intros N. subst N. rewrite normalizeString_fold.
  split; [|split].
  - apply Forall_rev, fold_kept. constructor.
  - apply Forall_rev, fold_from; [done|apply split_no_sep|constructor].
  - intros ->. apply Forall_rev, fold_absolute_plain. constructor.
Qed.

Lemma normalizeString_snoc_empty allow S l :
  normalizeString allow S (l ++ [""]) = normalizeString allow S l.
Proof. rewrite !normalizeString_fold. by rewrite fold_left_app. Qed.

Lemma normalizeString_plain S l :
  Forall plain_segment l -> normalizeString false S l = (rev S ++ l)%list.
Proof.
  intros Hl. rewrite normalizeString_fold, fold_plain by done.
  by rewrite rev_app_distr, rev_involutive.
Qed.

Lemma normalizeString_app allow S l1 l2 :
  normalizeString allow S (l1 ++ l2) =
  normalizeString allow (rev (normalizeString allow S l1)) l2.
Proof. rewrite !normalizeString_fold. by rewrite fold_left_app, rev_involutive. Qed.

Lemma join_head sep a x l :
  exists r, Str.join sep (String a x :: l) = String a r.
Proof. destruct l; cbn [Str.join String.append]; eauto. Qed.

Lemma join_empty sep l :
  Forall (fun x => x <> "") l -> Str.join sep l = "" -> l = [].
Proof.
  intros Hl Hjoin. destruct l as [|x l]; [done|].
  inversion Hl; subst. by destruct (join_nonempty sep x l).
Qed.

Lemma kept_nonempty l : Forall kept_segment l -> Forall (fun x => x <> "") l.
Proof.
  intros Hl. eapply Forall_impl; [done|]. by intros x [(Hx & _)| ->].
Qed.

Lemma append_empty s : s ++ "" = s.
Proof. induction s as [|a s IH]; cbn [String.append]; [done|]. by rewrite IH. Qed.

Lemma split_snoc_slash s : split slash (s ++ "/") = (split slash s ++ [""])%list.
Proof. apply (split_app_sep slash s ""). Qed.

Lemma isAbsolute_relative_body x l r :
  x <> "" -> mem slash x = false ->
  isAbsolute (Str.join "/" (x :: l) ++ r) = false.
Proof.
  intros Hx Hfree. destruct x as [|a x]; [done|].
  destruct (join_head "/" a x l) as [t ->].
  cbn [String.append isAbsolute starts_with]. cbn [mem] in Hfree.
  unfold isAbsolute. cbn [starts_with].
  destruct (ascii_dec "/" a) as [<-|]; [|done].
  unfold slash in Hfree. by destruct (ascii_dec "/" "/").
Qed.

(** A path and its normal form name the same file. *)
Lemma locate_normalize cwd p : locate cwd (normalize p) = locate cwd p.
Proof.
  unfold normalize. destruct (string_dec p "") as [->|Hp].
  { unfold locate. cbn. by rewrite rev_involutive. }
  destruct (normalizeString_shape (negb (isAbsolute p)) p) as (Hkept & Hfree & Hplain).
  set (N := normalizeString (negb (isAbsolute p)) [] (split slash p)) in *.
  destruct (isAbsolute p) eqn:Habs; cbn [negb] in *.
  - (* an absolute path *)
    specialize (Hplain eq_refl).
    assert (locate cwd p = N) as ->.
    { unfold locate. by rewrite Habs. }
    destruct (string_dec (Str.join "/" N) "") as [Hjoin|Hjoin].
    + apply join_empty in Hjoin; [|by apply kept_nonempty]. by rewrite Hjoin.
    + assert (N <> []) as HN by (by intros HN; rewrite HN in Hjoin).
      unfold locate.
      assert (forall r, isAbsolute ("/" ++ r) = true) as Hroot by done.
      rewrite Hroot.
      destruct (ends_with_slash p).
      * change ("/" ++ (Str.join "/" N ++ "/"))
          with (String slash (Str.join "/" N ++ "/")).
        cbn [split]. destruct (ascii_dec slash slash); [|done].
        rewrite split_snoc_slash.
        change (Str.join "/" N) with (Str.join (String slash "") N).
        rewrite split_join by done.
        cbn [normalizeString]. destruct (string_dec "" ""); [|done].
        rewrite normalizeString_snoc_empty. by rewrite normalizeString_plain.
      * change ("/" ++ Str.join "/" N) with (String slash (Str.join "/" N)).
        cbn [split]. destruct (ascii_dec slash slash); [|done].
        change (Str.join "/" N) with (Str.join (String slash "") N).
        rewrite split_join by done.
        cbn [normalizeString]. destruct (string_dec "" ""); [|done].
        by rewrite normalizeString_plain.
  - (* a relative path *)
    assert (locate cwd p = normalizeString false (rev cwd) N) as ->.
    { unfold locate. rewrite Habs. subst N. by rewrite normalizeString_relative. }
    destruct (string_dec (Str.join "/" N) "") as [Hjoin|Hjoin].
    + apply join_empty in Hjoin; [|by apply kept_nonempty]. rewrite Hjoin.
      by destruct (ends_with_slash p).
    + destruct N as [|x N'] eqn:HN; [done|].
      inversion Hkept as [|? ? Hx _]; subst.
      inversion Hfree as [|? ? Hxfree _]; subst.
      assert (x <> "") as Hxne by (by destruct Hx as [(? & _)| ->]).
      unfold locate. destruct (ends_with_slash p).
      * rewrite (isAbsolute_relative_body x N' "/") by done.
        rewrite split_snoc_slash.
        change (Str.join "/" (x :: N')) with (Str.join (String slash "") (x :: N')).
        rewrite split_join by done.
        by rewrite normalizeString_snoc_empty.
      * pose proof (isAbsolute_relative_body x N' "" Hxne Hxfree) as Hrel.
        rewrite append_empty in Hrel. rewrite Hrel.
        change (Str.join "/" (x :: N')) with (Str.join (String slash "") (x :: N')).
        by rewrite split_join.
Qed.

(** [path.join(a, b)] names what [b] names from [a], a leading slash
    of [b] notwithstanding. *)
Lemma locate_join cwd a b :
  a <> "" ->
  locate cwd (Path.join a b) = normalizeString false (rev (locate cwd a)) (split slash b).
Proof.
  intros Ha. unfold Path.join. destruct (string_dec a ""); [done|].
  destruct (string_dec b "") as [->|Hb]; rewrite locate_normalize.
  - cbn. by rewrite rev_involutive.
  - unfold locate.
    assert (isAbsolute (a ++ "/" ++ b) = isAbsolute a) as ->.
    { destruct a as [|c a]; [done|]. done. }
    change ("/" ++ b) with (String slash b).
    by rewrite split_app_sep, normalizeString_app.
Qed.

Lemma fold_no_dotdot allow l : forall acc,
  forallb (fun seg => negb (bool_decide (seg = ".."))) l = true ->
  fold_left (normalize_step allow) l acc = (rev (List.filter named_segment l) ++ acc)%list.
Proof.
  induction l as [|seg l IH]; intros acc Hl; cbn [fold_left List.filter]; [done|].
  cbn [forallb] in Hl. apply andb_true_iff in Hl as [Hseg Hl].
  apply negb_true_iff, bool_decide_eq_false in Hseg.
  rewrite IH by done. unfold named_segment, normalize_step.
  destruct (string_dec seg "") as [->|H1]; [done|].
  destruct (string_dec seg ".") as [->|H2]; [done|].
  destruct (string_dec seg ".."); [done|].
  rewrite !bool_decide_eq_false_2 by done. cbn [negb andb rev].
  by rewrite <- List.app_assoc.
Qed.

(** Without a [..] segment a path goes down only. *)
Lemma normalizeString_no_dotdot S p :
  no_dotdot p = true ->
  normalizeString false S (split slash p) = (rev S ++ path_segments p)%list.
Proof.
  intros Hp. rewrite normalizeString_fold, fold_no_dotdot by done.
  by rewrite rev_app_distr, rev_involutive.
Qed.

Lemma json_plain filename : plain_segment (filename ++ ".json").
Proof.
  destruct filename as [|a [|b [|c filename]]]; repeat split; discriminate.
Qed.

Lemma locate_file cwd dir filename :
  dir <> "" -> mem slash filename = false ->
  locate cwd (Path.join dir (filename ++ ".json")) =
  (locate cwd dir ++ [(filename ++ ".json")%string])%list.
Proof.
  intros Hdir Hfree. rewrite locate_join by done.
  rewrite split_free by (by rewrite mem_app, Hfree).
  rewrite normalizeString_plain; [by rewrite rev_involutive|].
  constructor; [apply json_plain|done].
Qed.

End PathFacts.

(** X26: when the definition keyword holds no [..] segment and the file
    name no slash, [saveSchema] writes below the output directory, in the
    file the named segments of the keyword lead to, and the files
    outside the output directory are as they were. *)
Theorem saveSchema_destination `{Collaborators}
    schemasPath definitionKeyword filename text w w' :
  schemasPath <> "" ->
  no_dotdot definitionKeyword = true ->
  Str.mem Path.slash filename = false ->
  saveSchema schemasPath definitionKeyword filename text w = (Ok tt, w') ->
  let out := Path.locate cwd schemasPath in
  let destination :=
    (out ++ path_segments definitionKeyword ++ [(filename ++ ".json")%string])%list in
  files w' !! destination = Some (File text) /\
  (forall p c,
     ~ out `prefix_of` p ->
     (files w' !! p = Some (File c) <-> files w !! p = Some (File c))).
Proof.
  intros Hout Hkeyword Hfilename Hsave out destination. revert Hsave.
  unfold saveSchema, iobind, ensureDirSync, writeFileSync.
  set (destinationDir := Path.join schemasPath definitionKeyword).
  destruct (string_dec destinationDir "") as [|Hdir]; [done|].
  destruct (Fs.ensureDir _ (files w)) as [fs1| |] eqn:Hensure; [|done..].
  destruct (string_dec _ ""); [done|]. cbn [files logged].
  destruct (Fs.writeFile _ text fs1) as [fs2| |] eqn:Hwrite; [|done..].
  intros [= <-]. cbn [files logged].
  pose proof (writeFile_Ok _ _ _ _ Hwrite) as ->.
  assert (Path.locate cwd (Path.join destinationDir (filename ++ ".json")) = destination)
    as ->.
  { rewrite PathFacts.locate_file by done. subst destinationDir.
    rewrite PathFacts.locate_join by done.
    rewrite PathFacts.normalizeString_no_dotdot by done.
    rewrite rev_involutive. subst destination out. by rewrite <- List.app_assoc. }
  split; [by rewrite lookup_insert_eq|].
  intros p c Hp. rewrite lookup_insert_ne.
  - by apply FsMore.ensureDir_lookup_file with (Path.locate cwd destinationDir).
  - intros <-. apply Hp. by apply prefix_app_r.
Qed.

Lemma saveSchema_destination_witness :
  let w' := (saveSchema (H := plain_environment) "out" "/pets/id/get"
               "_pets_id_query_parameters" "{}" empty_world).2 in
  files w' !! ["srv"; "out"; "pets"; "id"; "get"; "_pets_id_query_parameters.json"] =
    Some (File "{}") /\
  (forall p c,
     ~ ["srv"; "out"] `prefix_of` p ->
     (files w' !! p = Some (File c) <-> files empty_world !! p = Some (File c))).
Proof.
  intros w'.
  apply (@saveSchema_destination plain_environment
           "out" "/pets/id/get" "_pets_id_query_parameters" "{}" empty_world w');
    [done | done | done |].
  vm_compute. reflexivity.
Defined.

(* ====================================================================== *)
(** * The extraction as a list of writes *)
(* ====================================================================== *)

Section PlanFacts.
Context `{Collaborators}.

Lemma iobind_ext {A B} (m : io A) (k k' : A -> io B) w :
  (forall a w', k a w' = k' a w') -> iobind m k w = iobind m k' w.
Proof. intros Hk. unfold iobind. destruct (m w) as [[a| |] w']; [apply Hk|done..]. Qed.

Lemma iobind_ext_l {A B} (m m' : io A) (k : A -> io B) w :
  (forall w', m w' = m' w') -> iobind m k w = iobind m' k w.
Proof. intros Hm. unfold iobind. by rewrite Hm. Qed.

Lemma iobind_assoc {A B C} (m : io A) (k : A -> io B) (k' : B -> io C) w :
  iobind (iobind m k) k' w = iobind m (fun a => iobind (k a) k') w.
Proof. unfold iobind. by destruct (m w) as [[a| |] w']. Qed.

Lemma perform_saves_app l l' w :
  perform_saves (l ++ l') w = iobind (perform_saves l) (fun _ => perform_saves l') w.
Proof.
  revert w. induction l as [|s l IH]; intros w; cbn [app perform_saves].
  - done.
  - rewrite iobind_assoc. apply iobind_ext. intros _ w'. apply IH.
Qed.

Lemma perform_ret {A} (a : A) w : perform (plan_ret a) w = ret a w.
Proof. done. Qed.

Lemma perform_lift {A} (r : result A) w : perform (plan_lift r) w = lift r w.
Proof. done. Qed.

Lemma perform_plan_save s w : perform (plan_save s) w = perform_save s w.
Proof.
  unfold perform, plan_save. cbn [fst snd perform_saves]. unfold iobind, ret, lift.
  by destruct (perform_save s w) as [[[]| |] w'].
Qed.

Lemma perform_bind {A B} (m : plan A) (k : A -> plan B) w :
  perform (plan_bind m k) w = iobind (perform m) (fun a => perform (k a)) w.
Proof.
  destruct m as [l [a| |]]; unfold perform at 1 2, plan_bind.
  - destruct (k a) as [l' r] eqn:Hk. cbn [fst snd].
    rewrite (iobind_ext_l _ _ _ _ (perform_saves_app l l')).
    rewrite !iobind_assoc. apply iobind_ext. intros _ w'.
    rewrite iobind_lift. unfold perform. by rewrite Hk.
  - cbn [fst snd]. rewrite iobind_assoc. apply iobind_ext.
    intros _ w'. by rewrite iobind_lift.
  - cbn [fst snd]. rewrite iobind_assoc. apply iobind_ext.
    intros _ w'. by rewrite iobind_lift.
Qed.

Lemma perform_bind_lift {A B} (r : result A) (k : A -> plan B) w :
  perform (plan_bind (plan_lift r) k) w =
    match r with
    | Ok a => perform (k a) w
    | Throw e => (Throw e, w)
    | Exit c => (Exit c, w)
    end.
Proof. rewrite perform_bind. unfold perform at 1, plan_lift, iobind, ret, lift. by destruct r. Qed.

(** Each function of the extraction makes the calls that its plan
    lists. *)
Lemma processEntry_plan schemasPath definitionKeyword isArr entry w :
  processEntry schemasPath definitionKeyword isArr entry w =
  perform (planEntry schemasPath definitionKeyword isArr entry) w.
Proof.
  destruct entry as [key value]. unfold processEntry, planEntry.
  rewrite perform_bind_lift, iobind_lift.
  destruct (if isArr then _ else _) as [name| |]; [|done..].
  rewrite perform_bind_lift, iobind_lift.
  destruct (getFilename name) as [filename| |]; [|done..].
  rewrite perform_bind_lift, iobind_lift.
  destruct (adaptSchema value name filename) as [adapted| |]; [|done..].
  rewrite perform_bind_lift, iobind_lift.
  destruct (stringified adapted) as [text| |]; [|done..].
  rewrite perform_bind. apply iobind_ext_l. intros w'.
  by rewrite perform_plan_save.
Qed.

Lemma forEachEntry_plan schemasPath definitionKeyword isArr l : forall w,
  forEachEntry schemasPath definitionKeyword isArr l w =
  perform (planEntries schemasPath definitionKeyword isArr l) w.
Proof.
  induction l as [|e l IH]; intros w; cbn [forEachEntry planEntries]; [done|].
  rewrite perform_bind.
  rewrite (iobind_ext_l _ _ _ _ (processEntry_plan _ _ _ e)).
  apply iobind_ext. intros e' w'. rewrite perform_bind.
  by rewrite (iobind_ext_l _ _ _ _ IH).
Qed.

Lemma processSchema_plan schema schemasPath definitionKeyword isArr w :
  processSchema schema schemasPath definitionKeyword isArr w =
  perform (planSchema schema schemasPath definitionKeyword isArr) w.
Proof.
  unfold processSchema, planSchema.
  rewrite perform_bind_lift, iobind_lift.
  destruct (entries schema) as [l| |]; [|done..].
  rewrite perform_bind.
  by rewrite (iobind_ext_l _ _ _ _ (forEachEntry_plan _ _ _ l)).
Qed.

Lemma processParameterSchema_plan schema schemasPath definitionKeyword filename w :
  processParameterSchema schema schemasPath definitionKeyword filename w =
  perform (planParameterSchema schema schemasPath definitionKeyword filename) w.
Proof.
  unfold processParameterSchema, planParameterSchema.
  rewrite perform_bind_lift, iobind_lift.
  destruct (getProp schema "name") as [name| |]; [|done..].
  rewrite perform_bind_lift, iobind_lift.
  destruct (adaptSchema schema name filename) as [adapted| |]; [|done..].
  rewrite perform_bind_lift, iobind_lift.
  destruct (stringified adapted) as [text| |]; [|done..].
  by rewrite perform_plan_save.
Qed.

Lemma processComponents_plan componentsKeywords parsedOpenAPIContent schemasPath :
  forall generatedSchema w,
  processComponents componentsKeywords generatedSchema parsedOpenAPIContent schemasPath w =
  perform (planComponents componentsKeywords generatedSchema parsedOpenAPIContent
             schemasPath) w.
Proof.
  induction componentsKeywords as [|key t IH]; intros generatedSchema w;
    cbn [processComponents planComponents]; [done|].
  rewrite perform_bind.
  rewrite (iobind_ext_l _ _ _ _ (processSchema_plan _ _ _ _)).
  apply iobind_ext. intros schema' w'. apply IH.
Qed.

Lemma processBucket_plan schemasPath folder baseFilename entry w :
  processBucket schemasPath folder baseFilename entry w =
  perform (planBucket schemasPath folder baseFilename entry) w.
Proof.
  destruct entry as [key schema]. unfold processBucket, planBucket.
  destruct (_ && _); [|done].
  rewrite perform_bind_lift, iobind_lift.
  destruct (buildSchemaFromParameters schema) as [itemSchema| |]; [|done..].
  rewrite perform_bind_lift, iobind_lift.
  destruct (getFilename _) as [filename| |]; [|done..].
  apply processParameterSchema_plan.
Qed.

Lemma processOption_plan schemasPath pathFolder baseFilename entry w :
  processOption schemasPath pathFolder baseFilename entry w =
  perform (planOption schemasPath pathFolder baseFilename entry) w.
Proof.
  destruct entry as [optionKey optionSchema]. unfold processOption, planOption.
  rewrite perform_bind_lift, iobind_lift.
  destruct (if str_in optionKey METHODS then _ else _) as [isValidMethod| |]; [|done..].
  destruct (isValidMethod || _); [|done].
  rewrite perform_bind_lift, iobind_lift.
  destruct (if isValidMethod then _ else _) as [currentSchema| |]; [|done..].
  rewrite perform_bind_lift, iobind_lift.
  destruct (buckets currentSchema) as [[query path]| |]; [|done..].
  rewrite perform_bind.
  rewrite (iobind_ext_l _ _ _ _ (processBucket_plan _ _ _ _)).
  apply iobind_ext. intros _ w'. apply processBucket_plan.
Qed.

Lemma forEachOption_plan schemasPath pathFolder baseFilename l : forall w,
  forEachOption schemasPath pathFolder baseFilename l w =
  perform (planOptions schemasPath pathFolder baseFilename l) w.
Proof.
  induction l as [|e l IH]; intros w; cbn [forEachOption planOptions]; [done|].
  rewrite perform_bind.
  rewrite (iobind_ext_l _ _ _ _ (processOption_plan _ _ _ e)).
  apply iobind_ext. intros _ w'. apply IH.
Qed.

Lemma processEndpoint_plan schemasPath entry w :
  processEndpoint schemasPath entry w = perform (planEndpoint schemasPath entry) w.
Proof.
  destruct entry as [endpoint endpointOptions]. unfold processEndpoint, planEndpoint.
  rewrite perform_bind_lift, iobind_lift.
  destruct (entries endpointOptions) as [l| |]; [|done..].
  apply forEachOption_plan.
Qed.

Lemma forEachEndpoint_plan schemasPath l : forall w,
  forEachEndpoint schemasPath l w = perform (planEndpoints schemasPath l) w.
Proof.
  induction l as [|e l IH]; intros w; cbn [forEachEndpoint planEndpoints]; [done|].
  rewrite perform_bind.
  rewrite (iobind_ext_l _ _ _ _ (processEndpoint_plan _ e)).
  apply iobind_ext. intros _ w'. apply IH.
Qed.

Lemma processPathSchemas_plan generatedSchema schemasPath w :
  processPathSchemas generatedSchema schemasPath w =
  perform (planPathSchemas generatedSchema schemasPath) w.
Proof.
  unfold processPathSchemas, planPathSchemas.
  rewrite perform_bind_lift, iobind_lift.
  destruct (entries _) as [l| |]; [|done..].
  apply forEachEndpoint_plan.
Qed.

Lemma extraction_plan parsedOpenAPIContent componentsKeywords schemasPath w :
  extraction parsedOpenAPIContent componentsKeywords schemasPath w =
  perform (planExtraction parsedOpenAPIContent componentsKeywords schemasPath) w.
Proof.
  unfold extraction, planExtraction.
  rewrite perform_bind_lift, iobind_lift.
  destruct (fromSchema _ _) as [generatedSchema| |]; [|done..].
  rewrite perform_bind.
  rewrite (iobind_ext_l _ _ _ _ (processComponents_plan _ _ _ _)).
  apply iobind_ext. intros generatedSchema' w'.
  rewrite perform_bind.
  by rewrite (iobind_ext_l _ _ _ _ (processPathSchemas_plan _ _)).
Qed.

End PlanFacts.

Section SaveFacts.
Context `{Collaborators}.

(** What a call of [saveSchema] that returns has done to the files. *)
Lemma perform_save_files s w w' :
  perform_save s w = (Ok tt, w') ->
  files w' !! destination s = Some (File (save_text s)) /\
  (forall p c,
     p <> destination s ->
     (files w' !! p = Some (File c) <-> files w !! p = Some (File c))) /\
  logged w' = logged w.
Proof.
  unfold perform_save, destination, saveSchema, iobind, ensureDirSync, writeFileSync.
  destruct (string_dec (Path.join (save_root s) (save_keyword s)) ""); [done|].
  destruct (Fs.ensureDir _ (files w)) as [fs1| |] eqn:Hdir; [|done..].
  destruct (string_dec _ ""); [done|]. cbn [files logged].
  destruct (Fs.writeFile _ (save_text s) fs1) as [fs2| |] eqn:Hwrite; [|done..].
  intros [= <-]. cbn [files logged].
  pose proof (writeFile_Ok _ _ _ _ Hwrite) as ->.
  split; [by rewrite lookup_insert_eq|]. split; [|done].
  intros p c Hne. rewrite lookup_insert_ne by done.
  by apply FsMore.ensureDir_lookup_file with
    (Path.locate cwd (Path.join (save_root s) (save_keyword s))).
Qed.

(** A call of [saveSchema] that throws has written no file and changed
    none. *)
Lemma perform_save_throw s w e w' :
  perform_save s w = (Throw e, w') ->
  (forall p c, files w' !! p = Some (File c) <-> files w !! p = Some (File c)) /\
  logged w' = logged w.
Proof.
  unfold perform_save, saveSchema, iobind, ensureDirSync, writeFileSync.
  destruct (string_dec (Path.join (save_root s) (save_keyword s)) "");
    [by intros [= _ <-]|].
  destruct (Fs.ensureDir _ (files w)) as [fs1| |] eqn:Hdir;
    [|by intros [= _ <-]|done].
  cbn [files logged].
  assert (Hfiles : forall p c, fs1 !! p = Some (File c) <-> files w !! p = Some (File c)).
  { intros p c. by apply FsMore.ensureDir_lookup_file with
      (Path.locate cwd (Path.join (save_root s) (save_keyword s))). }
  destruct (string_dec _ ""); [by intros [= _ <-]|].
  destruct (Fs.writeFile _ (save_text s) fs1) as [fs2| |]; [done| |done].
  by intros [= _ <-].
Qed.

Lemma perform_saves_files l : forall w w',
  perform_saves l w = (Ok tt, w') ->
  (forall p c,
     files w' !! p = Some (File c) <->
     match last_text p l with
     | Some text => c = text
     | None => files w !! p = Some (File c)
     end) /\
  logged w' = logged w.
Proof.
  induction l as [|s l IH]; intros w w'; cbn [perform_saves last_text].
  - by intros [= <-].
  - unfold iobind at 1.
    destruct (perform_save s w) as [[[]| |] w1] eqn:Hsave; [|done..]. intros Hrest.
    destruct (perform_save_files _ _ _ Hsave) as (Hdest & Hother & Hlog).
    destruct (IH _ _ Hrest) as [Hfiles Hlog']. split; [|congruence].
    intros p c. rewrite Hfiles. destruct (last_text p l); [done|].
    case_bool_decide as Hp.
    + subst p. rewrite Hdest. split; [by intros [= ->]|by intros ->].
    + by apply Hother.
Qed.

(** The calls end at the first that throws. *)
Lemma perform_saves_throw l : forall w e w2,
  perform_saves l w = (Throw e, w2) ->
  exists done s rest wb,
    l = (done ++ s :: rest)%list /\
    perform_saves done w = (Ok tt, wb) /\
    perform_save s wb = (Throw e, w2).
Proof.
  induction l as [|s l IH]; intros w e w2; cbn [perform_saves]; [done|].
  unfold iobind at 1.
  destruct (perform_save s w) as [[[]| |] w1] eqn:Hsave; [| |done].
  - intros (done & s' & rest & wb & -> & Hdone & Hbad)%IH.
    exists (s :: done), s', rest, wb. split; [done|]. split; [|done].
    cbn [perform_saves]. unfold iobind at 1. by rewrite Hsave.
  - intros [= <- <-]. by exists [], s, l, w.
Qed.


(** A run that throws: the calls before the step that throws returned,
    and that step is either a call, or what follows the last call. *)
Lemma perform_throw {A} (m : plan A) w e w2 :
  perform m w = (Throw e, w2) ->
  exists done rest wb,
    m.1 = (done ++ rest)%list /\
    perform_saves done w = (Ok tt, wb) /\
    (rest = [] /\ m.2 = Throw e /\ w2 = wb \/
     exists s rest', rest = s :: rest' /\ perform_save s wb = (Throw e, w2)).
Proof.
  unfold perform, iobind, lift.
  destruct (perform_saves m.1 w) as [[[]| |] w1] eqn:Hsaves; [| |done].
  - intros [= Hm <-]. exists m.1, [], w1.
    split; [by rewrite app_nil_r|]. split; [done|]. by left.
  - intros [= <- <-].
    apply perform_saves_throw in Hsaves as (done & s & rest & wb & Hl & Hdone & Hbad).
    exists done, (s :: rest), wb. eauto 10.
Qed.

End SaveFacts.

(** C7: when the extraction throws after the document was read and
    parsed, [runCommand] returns with the warning logged and leaves the
    files as they were at the throw.  The extraction makes the calls of
    [saveSchema] that its plan lists, in their order.  The calls [done]
    before the step that throws have all returned; that step is the next
    call, or what follows the last call, and no call after it is made.  At
    the end every file that a call of [done] wrote holds the text last
    written to it, and every other file is as it was when the extraction
    began: nothing is undone, and nothing more is extracted. *)
Theorem runCommand_extraction_failure `{Collaborators}
    openApiPath schemasPath propertiesToExport w w1 content document e w2 :
  (do* _ := removeSync schemasPath in ensureDirSync schemasPath) w = (Ok tt, w1) ->
  readFileSync openApiPath w1 = (Ok content, w1) ->
  YAML_parse content = Ok document ->
  extraction document (keywordsOf propertiesToExport) schemasPath w1 = (Throw e, w2) ->
  let plan := planExtraction document (keywordsOf propertiesToExport) schemasPath in
  runCommand openApiPath schemasPath propertiesToExport w =
    (Ok tt,
     World (files w2)
       (logged w2 ++ [(LWarn, "Failed to convert non-object attribute, skipping")])%list) /\
  (forall w0,
     extraction document (keywordsOf propertiesToExport) schemasPath w0 = perform plan w0) /\
  exists done rest wb,
    plan.1 = (done ++ rest)%list /\
    perform_saves done w1 = (Ok tt, wb) /\
    (rest = [] /\ w2 = wb \/
     exists s rest', rest = s :: rest' /\ perform_save s wb = (Throw e, w2)) /\
    (forall p c,
       files w2 !! p = Some (File c) <->
       match last_text p done with
       | Some text => c = text
       | None => files w1 !! p = Some (File c)
       end) /\
    logged w2 = logged w1.
Proof.
  intros Hreset Hread Hparse Hthrow plan. split; [|split].
  - rewrite (runCommand_after_reset _ _ _ _ _ Hreset).
    rewrite (convert_read _ _ _ _ _ Hread).
    rewrite iobind_lift, Hparse.
    unfold iobind at 1, try_catch at 1. by rewrite Hthrow.
  - intros w0. apply extraction_plan.
  - rewrite extraction_plan in Hthrow. fold plan in Hthrow.
    apply perform_throw in Hthrow as (done & rest & wb & Hl & Hdone & Hstep).
    destruct (perform_saves_files _ _ _ Hdone) as [Hfiles Hlog].
    exists done, rest, wb. split; [done|]. split; [done|].
    destruct Hstep as [(-> & _ & ->)|(s & rest' & -> & Hbad)].
    + split; [by left|]. done.
    + destruct (perform_save_throw _ _ _ _ Hbad) as [Hsame Hlog'].
      split; [right; eauto|]. split; [|congruence].
      intros p c. by rewrite Hsame, Hfiles.
Qed.

Lemma runCommand_extraction_failure_witness :
  let w := World {[ ["srv"; "openapi.yml"] := File "malformed" ]} [] in
  let w1 := ((do* _ := removeSync (H := plain_environment) "out" in
              ensureDirSync (H := plain_environment) "out") w).2 in
  let w2 := (extraction (H := plain_environment) malformed_document
               (keywordsOf None) "out" w1).2 in
  let plan := planExtraction (H := plain_environment) malformed_document
                (keywordsOf None) "out" in
  (runCommand (H := plain_environment) "openapi.yml" "out" None w =
     (Ok tt,
      World (files w2)
        (logged w2 ++ [(LWarn, "Failed to convert non-object attribute, skipping")])%list) /\
   (forall w0,
      extraction (H := plain_environment) malformed_document (keywordsOf None) "out" w0
      = perform (H := plain_environment) plan w0) /\
   exists done rest wb,
     plan.1 = (done ++ rest)%list /\
     perform_saves (H := plain_environment) done w1 = (Ok tt, wb) /\
     (rest = [] /\ w2 = wb \/
      exists s rest', rest = s :: rest' /\ perform_save (H := plain_environment) s wb = (Throw TypeError, w2)) /\
     (forall p c,
        files w2 !! p = Some (File c) <->
        match last_text (H := plain_environment) p done with
        | Some text => c = text
        | None => files w1 !! p = Some (File c)
        end) /\
     logged w2 = logged w1) /\
  Fs.is_file (files w2) ["srv"; "out"; "components.schemas"; "Bar.json"] = true /\
  Fs.is_file (files w2) ["srv"; "out"; "components.schemas"; "Foo.json"] = false /\
  Fs.is_file (files w2) ["srv"; "out"; "components.schemas"; "Baz.json"] = false.
Proof.
  intros w w1 w2 plan. split; [|by vm_compute].
  apply (@runCommand_extraction_failure plain_environment
           "openapi.yml" "out" None w w1 "malformed" malformed_document TypeError w2).
  - vm_compute. reflexivity.
  - vm_compute. reflexivity.
  - reflexivity.
  - vm_compute. reflexivity.
Defined.

(** C10 (as the code has it): [adaptSchema] leaves every property other
    than [$schema], [title], [$id] and [tsType] where it was, with its
    value, and the elements of an array too; [tsType] is ["Date"] when the
    format includes [date], whatever it was, and is left alone otherwise.
    The file that [processSchema] writes for the entry holds the text of
    the adapted schema with its references rewritten, which is that text
    itself when the pattern matches nowhere in it; the file that
    [processParameterSchema] writes holds the text as it is. *)
Theorem adaptSchema_preserves_body `{Collaborators} schema name filename adapted :
  adaptSchema schema name filename = Ok adapted ->
  body adapted = body schema /\
  (exists isDate,
     has_date_format schema = Ok isDate /\
     getProp adapted "tsType" =
       if isDate then Ok (VStr "Date") else getProp schema "tsType") /\
  exists text,
    stringified adapted = Ok text /\
    (no_match text -> rewriteRefs text = text) /\
    (forall schemasPath definitionKeyword isArr key r w w',
       (if isArr : bool then getProp schema "name" else Ok (VStr key)) = Ok name ->
       getFilename name = Ok filename ->
       processEntry schemasPath definitionKeyword isArr (key, schema) w = (Ok r, w') ->
       files w' !! destination (Save schemasPath definitionKeyword filename (rewriteRefs text))
         = Some (File (rewriteRefs text))) /\
    (forall schemasPath folder w w',
       getProp schema "name" = Ok name ->
       processParameterSchema schema schemasPath folder filename w = (Ok tt, w') ->
       files w' !! destination (Save schemasPath folder filename text)
         = Some (File text)).
Proof.
  intros Hrun.
  destruct (adaptSchema_Ok _ _ _ _ Hrun) as (isDate & Hobj & Hdate & Hadapted).
  assert (Hobj' : is_object adapted = true).
  { rewrite Hadapted. by apply is_object_with_own. }
  split; [|split].
  - rewrite Hadapted.
    assert (Hfilter : forall ps,
      List.filter untouched
        (if isDate
         then Obj.set "tsType" (VStr "Date")
                (Obj.set "$id" (VStr (strip_invalid_uri_chars filename ++ ".json"))
                   (Obj.set "title" name (Obj.del "$schema" ps)))
         else Obj.set "$id" (VStr (strip_invalid_uri_chars filename ++ ".json"))
                (Obj.set "title" name (Obj.del "$schema" ps)))
      = List.filter untouched ps).
    { intros ps. destruct isDate;
        rewrite ?ObjFacts.filter_set, ?ObjFacts.filter_del by done; done. }
    destruct schema; try discriminate; simpl; by rewrite Hfilter.
  - exists isDate. split; [done|]. rewrite Hadapted.
    rewrite !getProp_named by (done || by apply is_object_with_own).
    rewrite own_with_own by done.
    destruct isDate; rewrite ?ObjFacts.get_set; simpl; [done|].
    by rewrite ObjFacts.get_del.
  - destruct (stringified_object adapted Hobj') as [text Htext].
    exists text. split; [done|]. split; [apply rewriteRefs_no_match|]. split.
    + intros schemasPath definitionKeyword isArr key r w w' Hname Hfile.
      unfold processEntry.
      rewrite iobind_lift, Hname, iobind_lift, Hfile, iobind_lift, Hrun,
        iobind_lift, Htext.
      unfold iobind at 1.
      destruct (saveSchema _ _ _ _ w) as [[[]| |] w1] eqn:Hsave; [|done..].
      intros [= _ <-].
      by destruct (perform_save_files
                     (Save schemasPath definitionKeyword filename (rewriteRefs text))
                     _ _ Hsave) as [Hdest _].
    + intros schemasPath folder w w' Hname.
      unfold processParameterSchema.
      rewrite iobind_lift, Hname, iobind_lift, Hrun, iobind_lift, Htext.
      intros Hsave.
      by destruct (perform_save_files (Save schemasPath folder filename text) _ _ Hsave)
        as [Hdest _].
Qed.

Lemma adaptSchema_preserves_body_witness :
  let schema := VObj [("$schema", VStr "x"); ("type", VStr "string");
                      ("format", VStr "date-time"); ("maxLength", VNum 30)] in
  exists adapted,
    adaptSchema schema (VStr "Created At") "Created At" = Ok adapted /\
    body adapted = body schema /\
    (exists isDate,
       has_date_format schema = Ok isDate /\
       getProp adapted "tsType" =
         if isDate then Ok (VStr "Date") else getProp schema "tsType") /\
    exists text,
      stringified adapted = Ok text /\
      (no_match text -> rewriteRefs text = text) /\
      (forall schemasPath definitionKeyword isArr key r w w',
         (if isArr : bool then getProp schema "name" else Ok (VStr key))
           = Ok (VStr "Created At") ->
         getFilename (H := plain_environment) (VStr "Created At") = Ok "Created At" ->
         processEntry (H := plain_environment) schemasPath definitionKeyword isArr
           (key, schema) w = (Ok r, w') ->
         files w' !! destination (H := plain_environment)
                       (Save schemasPath definitionKeyword "Created At" (rewriteRefs text))
           = Some (File (rewriteRefs text))) /\
      (forall schemasPath folder w w',
         getProp schema "name" = Ok (VStr "Created At") ->
         processParameterSchema (H := plain_environment) schema schemasPath folder
           "Created At" w = (Ok tt, w') ->
         files w' !! destination (H := plain_environment)
                       (Save schemasPath folder "Created At" text)
           = Some (File text)).
Proof.
  intros schema. eexists. split; [reflexivity|].
  exact (@adaptSchema_preserves_body plain_environment schema
           (VStr "Created At") "Created At" _ eq_refl).
Defined.

(** C10 as stated fails: the body of the schema [Pet] holds a reference
    under [properties], a key that [adaptSchema] does not touch, and the
    file written for [Pet] holds another text there. *)
Lemma emitted_body_is_rewritten :
  let run := runCommand (H := petstore_environment) "openapi.yml" "out" None
               (input_world "petstore") in
  let file := ["srv"; "out"; "components.schemas"; "Pet.json"] in
  prop (prop (prop (body pet_schema) "properties") "owner") "$ref"
    = VStr "#/components/schemas/Owner" /\
  run.1 = Ok tt /\
  Fs.is_file (files run.2) file = true /\
  Str.includes "#/components/schemas/Owner" (file_text run.2 file) = false /\
  Str.includes (Json.quote "$ref" ++ ": " ++ Json.quote "Owner.json")
    (file_text run.2 file) = true.
Proof. vm_compute. repeat split. Qed.

(* ====================================================================== *)
(** * The files of a collection *)
(* ====================================================================== *)

Section CollectionFacts.
Context `{Collaborators}.







End CollectionFacts.




(** Besides, the file of a synthetic parameter schema is written without
    any rewriting: the reference of a parameter's schema is in it in its
    [#/components/...] form. *)
Lemma parameter_file_keeps_component_reference :
  let run :=
    runCommand (H := example_environment [("referring", referring_openapi)])
      "openapi.yml" "out" None (input_world "referring") in
  let file := ["srv"; "out"; "pets"; "get"; "_pets_path_parameters.json"] in
  run.1 = Ok tt /\
  Fs.is_file (files run.2) file = true /\
  matchAll (file_text run.2 file) = ["#/components/schemas/Owner"].
Proof. vm_compute. repeat split. Qed.

(* ====================================================================== *)
(** * The files of the parameters of a path *)
(* ====================================================================== *)

Section BucketFiles.
Context `{Collaborators}.







End BucketFiles.

(* ====================================================================== *)
(** * A run that writes into the directory it has just made *)
(* ====================================================================== *)

Section FreshDirectory.
Context `{Collaborators}.
Import Fs FsFacts.










End FreshDirectory.

Section WidgetsRun.
Context `{Collaborators}.





End WidgetsRun.



(** C1 on a run of the command: for a document with two schemas and one
    operation the run returns, the file of the [query] bucket of the
    operation is written, and its text has the key [$id] and no key
    [title]. *)
Theorem synthetic_parameter_schema_has_no_title :
  let run :=
    runCommand (H := petstore_environment) "openapi.yml" "out" None
      (input_world "petstore") in
  let file := ["srv"; "out"; "pets"; "id"; "get"; "_pets_id_query_parameters.json"] in
  run.1 = Ok tt /\
  Fs.is_file (files run.2) file = true /\
  Fs.is_file (files run.2) ["srv"; "out"; "components.schemas"; "Pet.json"] = true /\
  Str.includes (Json.quote "$id") (file_text run.2 file) = true /\
  Str.includes (Json.quote "title") (file_text run.2 file) = false.
Proof. vm_compute. repeat split. Qed.
